(** * AugmentOS server: transcript cursor and bounded fuzzy entity matcher

    A shallow embedding of the transcript consumption code of
    [server/DatabaseHandler.py], of the custom-data fuzzy search of
    [server/ContextualSearchEngine.py] and of the low-frequency word
    finder of [server/word_frequency.py], with the properties the
    specification states about them.

    Conventions of the embedding:
    - a Python [str] is a list of characters ([pystr]); characters are the
      code points below 256, which covers every character the modelled
      code looks at (spaces, separators, ASCII letters);
    - a Python [int] is a [Z]; a timestamp is an opaque number;
    - a frequency index, and the mean that [numpy] takes of frequency
      indexes, are binary64 floats ([float]), compared as floats with the
      float constants of the source; the quotient of two ints that is
      compared with 0.4, and the thresholds that are compared with the row
      numbers of the word-frequency lists, are exact rationals ([Q]), which
      agrees with the float comparisons of the code for any text of
      realistic length;
    - a raised exception is [None] in the [option] monad;
    - the Mongo [users] collection is a finite map from user ids to user
      documents, threaded explicitly through the operations. *)

From Stdlib Require Import ZArith QArith Ascii String List Lia Bool.
From Stdlib Require Import PrimFloat.
From stdpp Require Import base option list gmap strings.

Local Open Scope Z_scope.

(** * Part I: the embedding *)

(** ** Python strings and slices *)

Module Py.

Definition pystr : Type := list ascii.

(** String literals of the source are written [str "..."]. *)
Definition str (s : string) : pystr := list_ascii_of_string s.

(** [len(x)] *)
Definition len {A : Type} (l : list A) : Z := Z.of_nat (length l).

(** Index normalisation of a slice bound: a negative bound counts from the
    end, and every bound is clamped to [0..len]. *)
Definition norm_index (k n : Z) : nat :=
  Z.to_nat (if k <? 0 then Z.max 0 (n + k) else Z.min k n).

(** [l[:k]] *)
Definition slice_to {A : Type} (l : list A) (k : Z) : list A :=
  take (norm_index k (len l)) l.

(** [l[k:]] *)
Definition slice_from {A : Type} (l : list A) (k : Z) : list A :=
  drop (norm_index k (len l)) l.

(** [l[a:b]] *)
Definition slice {A : Type} (l : list A) (a b : Z) : list A :=
  let i := norm_index a (len l) in
  let j := norm_index b (len l) in
  take (j - i)%nat (drop i l).

(** [l[i]]; [None] is IndexError. *)
Definition index {A : Type} (l : list A) (i : Z) : option A :=
  if i <? 0
  then (if len l + i <? 0 then None else l !! Z.to_nat (len l + i))
  else l !! Z.to_nat i.

Definition code (c : ascii) : N := N_of_ascii c.

(** [c.isspace()] on the code points below 256. *)
Definition isspace (c : ascii) : bool :=
  let n := code c in
  (((9 <=? n) && (n <=? 13)) || ((28 <=? n) && (n <=? 32))
   || (n =? 133) || (n =? 160))%N.

(** [c.isupper()] on the code points below 256. *)
Definition isupper (c : ascii) : bool :=
  let n := code c in
  (((65 <=? n) && (n <=? 90))
   || ((192 <=? n) && (n <=? 222) && negb (n =? 215)))%N.

(** [c.lower()] on the code points below 256. *)
Definition lower_char (c : ascii) : ascii :=
  if isupper c then ascii_of_N (code c + 32) else c.

(** [s.lower()] *)
Definition lower (s : pystr) : pystr := map lower_char s.

Fixpoint lstrip (s : pystr) : pystr :=
  match s with
  | [] => []
  | c :: rest => if isspace c then lstrip rest else s
  end.

Definition rstrip (s : pystr) : pystr := rev (lstrip (rev s)).

(** [s.strip()] *)
Definition strip (s : pystr) : pystr := rstrip (lstrip s).

(** [s.split()]: the maximal runs of non-whitespace characters. [cur] is the
    word being read, reversed. *)
Fixpoint split_go (cur : pystr) (s : pystr) : list pystr :=
  match s with
  | [] => match cur with [] => [] | _ => [rev cur] end
  | c :: rest =>
      if isspace c
      then match cur with
           | [] => split_go [] rest
           | _ => rev cur :: split_go [] rest
           end
      else split_go (c :: cur) rest
  end.

Definition split (s : pystr) : list pystr := split_go [] s.

(** [sep.join(l)] *)
Fixpoint join (sep : pystr) (l : list pystr) : pystr :=
  match l with
  | [] => []
  | [w] => w
  | w :: rest => w ++ sep ++ join sep rest
  end.

(** [s.replace(c, "")] for a one-character [c]. *)
Definition remove_char (c : ascii) (s : pystr) : pystr :=
  filter (fun x => x <> c) s.

(** [c in s] for a one-character [c]. *)
Definition contains (c : ascii) (s : pystr) : bool :=
  existsb (Ascii.eqb c) s.

Definition space : ascii := " "%char.

End Py.

Import Py.

(** ** DatabaseHandler: the word-boundary snap *)

(** The [for i, c in enumerate(text)] loop of
    [find_closest_start_word_index]; [i] is the index of the head of
    [text]. *)
Fixpoint find_closest_loop (text : pystr) (i latest_stop_index curr_index : Z)
  : Z :=
  match text with
  | [] => curr_index
  | c :: rest =>
      if Ascii.eqb c space then
        if i >? curr_index then latest_stop_index
        else find_closest_loop rest (i + 1) i curr_index
      else find_closest_loop rest (i + 1) latest_stop_index curr_index
  end.

Definition find_closest_start_word_index (text : pystr) (curr_index : Z) : Z :=
  find_closest_loop text 0 0 curr_index.

(** ** DatabaseHandler: user documents and transcripts *)

(** A transcript's [uuid] is [-1] for the empty transcript and the string of
    a fresh [uuid.uuid4()] otherwise; the same holds for the consumed
    marker of a user. *)
Inductive transcript_id : Type :=
  | NoId                      (* -1 *)
  | Uuid (u : N).             (* str(uuid.uuid4()) *)

Global Instance transcript_id_eq_dec : EqDecision transcript_id.
Proof. solve_decision. Defined.

Record transcript : Type := Transcript {
  t_user_id : option string;
  text : pystr;
  timestamp : Z;
  is_final : bool;
  uuid : transcript_id
}.

(** [t['text'] = s] *)
Definition set_text (t : transcript) (s : pystr) : transcript :=
  {| t_user_id := t_user_id t; text := s; timestamp := timestamp t;
     is_final := is_final t; uuid := uuid t |}.

(** The fields of a user document that the transcript code reads or
    writes. *)
Record user : Type := User {
  latest_intermediate_transcript : transcript;
  final_transcripts : list transcript;
  cse_consumed_transcript_id : transcript_id;
  cse_consumed_transcript_idx : Z
}.

(** [self.backslide] *)
Definition backslide : Z := 4.

(** [self.empty_transcript] *)
Definition empty_transcript : transcript :=
  {| t_user_id := None; text := []; timestamp := -1; is_final := false;
     uuid := NoId |}.

(** The document inserted by [create_user_if_not_exists]. *)
Definition new_user : user :=
  {| latest_intermediate_transcript := empty_transcript;
     final_transcripts := [];
     cse_consumed_transcript_id := NoId;
     cse_consumed_transcript_idx := 0 |}.

(** The [users] collection, keyed by [user_id]. *)
Abbreviation users := (gmap string user).

Definition create_user_if_not_exists (user_id : string) (db : users) : users :=
  match db !! user_id with
  | Some _ => db
  | None => <[user_id := new_user]> db
  end.

(** [get_user] after [create_user_if_not_exists]. *)
Definition get_user (user_id : string) (db : users) : user :=
  default new_user (db !! user_id).

(** [save_transcript_for_user]; [fresh] is the value of [uuid.uuid4()].
    The purge of old transcripts touches a field of the document that is
    not modelled here. *)
Definition save_transcript_for_user
    (user_id : string) (txt : pystr) (ts : Z) (final : bool) (fresh : N)
    (db : users) : users :=
  match txt with
  | [] => db
  | _ =>
      let t := {| t_user_id := Some user_id; text := txt; timestamp := ts;
                  is_final := final; uuid := Uuid fresh |} in
      let db := create_user_if_not_exists user_id db in
      let u := get_user user_id db in
      if final then
        let u1 :=
          {| latest_intermediate_transcript := empty_transcript;
             final_transcripts := final_transcripts u ++ [t];
             cse_consumed_transcript_id := cse_consumed_transcript_id u;
             cse_consumed_transcript_idx := cse_consumed_transcript_idx u |} in
        let u2 :=
          if decide (cse_consumed_transcript_id u1 = NoId)
          then {| latest_intermediate_transcript :=
                    latest_intermediate_transcript u1;
                  final_transcripts := final_transcripts u1;
                  cse_consumed_transcript_id := Uuid fresh;
                  cse_consumed_transcript_idx :=
                    cse_consumed_transcript_idx u1 |}
          else u1 in
        <[user_id := u2]> db
      else
        <[user_id :=
            {| latest_intermediate_transcript := t;
               final_transcripts := final_transcripts u;
               cse_consumed_transcript_id := cse_consumed_transcript_id u;
               cse_consumed_transcript_idx := cse_consumed_transcript_idx u |}
        ]> db
  end.

(** ** DatabaseHandler: consuming new transcripts *)

(** The backslide words: the words of [most_recent_final_text + " " +
    consumed_prefix], sliced by
    [backslide_word_list[-(self.backslide-len(backslide_word_list)):]] and
    joined by spaces. *)
Definition backslide_word_list (most_recent_final_text prefix : pystr)
  : list pystr :=
  split (strip (most_recent_final_text ++ [space] ++ prefix)).

Definition backslide_words (most_recent_final_text prefix : pystr) : pystr :=
  let l := backslide_word_list most_recent_final_text prefix in
  join [space] (slice_from l (- (backslide - len l))).

(** The text given to a transcript that is consumed from [start_index]:
    [backslide_words + " " + t['text'][start_index:].strip()]. *)
Definition backslid_text (most_recent_final_text txt : pystr) (start_index : Z)
  : pystr :=
  backslide_words most_recent_final_text (slice_to txt start_index)
  ++ [space] ++ strip (slice_from txt start_index).

(** State of the loop over [enumerate(user['final_transcripts'])]:
    [prev_text] is the text of the element at [index - 1] as the list holds
    it now (the loop writes the new text into the element it consumes from),
    [None] at index 0. *)
Record scan_state : Type := ScanState {
  prev_text : option pystr;
  first_transcript : option transcript;
  unconsumed_transcripts : list transcript
}.

Definition scan_step (consumed_id : transcript_id) (consumed_idx : Z)
    (st : scan_state) (t : transcript) : scan_state :=
  if decide (uuid t = consumed_id) then
    let start_index := find_closest_start_word_index (text t) consumed_idx in
    let most_recent_final_text := default [] (prev_text st) in
    let t' := set_text t (backslid_text most_recent_final_text (text t)
                            start_index) in
    {| prev_text := Some (text t');
       first_transcript := Some t';
       unconsumed_transcripts :=
         match text t' with
         | [] => unconsumed_transcripts st
         | _ => unconsumed_transcripts st ++ [t']
         end |}
  else
    {| prev_text := Some (text t);
       first_transcript := first_transcript st;
       unconsumed_transcripts :=
         match first_transcript st with
         | Some _ => unconsumed_transcripts st ++ [t]
         | None => unconsumed_transcripts st
         end |}.

Definition scan_finals (consumed_id : transcript_id) (consumed_idx : Z)
    (finals : list transcript) : scan_state :=
  fold_left (scan_step consumed_id consumed_idx) finals
    {| prev_text := None; first_transcript := None;
       unconsumed_transcripts := [] |}.

(** [(unconsumed_transcripts, index_offset)] of
    [get_new_cse_transcripts_for_user], before the update step. *)
Definition unconsumed_of_user (u : user) : list transcript * Z :=
  if decide (cse_consumed_transcript_id u <> NoId) then
    let st := scan_finals (cse_consumed_transcript_id u)
                (cse_consumed_transcript_idx u) (final_transcripts u) in
    let l := unconsumed_transcripts st in
    let l := match text (latest_intermediate_transcript u) with
             | [] => l
             | _ => l ++ [latest_intermediate_transcript u]
             end in
    (l, 0)
  else
    let t := latest_intermediate_transcript u in
    let start_index :=
      find_closest_start_word_index (text t) (cse_consumed_transcript_idx u) in
    if len (text t) - 1 >? start_index then
      let most_recent_final_text :=
        match last (final_transcripts u) with
        | Some f => text f
        | None => []
        end in
      ([set_text t (backslid_text most_recent_final_text (text t) start_index)],
       start_index)
    else ([], start_index).

(** The update step: the new value of [cse_consumed_transcript_idx]. *)
Definition new_index (unconsumed : list transcript) (index_offset : Z) : Z :=
  match last unconsumed with
  | Some t => len (text t) + index_offset
  | None => 0
  end.

(** [get_new_cse_transcripts_for_user] on one user document: the returned
    transcripts and the document after the update. *)
Definition consume_user (u : user) : list transcript * user :=
  let '(unconsumed, index_offset) := unconsumed_of_user u in
  (unconsumed,
   {| latest_intermediate_transcript := latest_intermediate_transcript u;
      final_transcripts := final_transcripts u;
      cse_consumed_transcript_id := NoId;
      cse_consumed_transcript_idx := new_index unconsumed index_offset |}).

Definition get_new_cse_transcripts_for_user (user_id : string) (db : users)
  : list transcript * users :=
  let db := create_user_if_not_exists user_id db in
  let '(unconsumed, u') := consume_user (get_user user_id db) in
  (unconsumed, <[user_id := u']> db).

(** [get_new_cse_transcripts_for_user_as_string] *)
Definition stringify (transcripts : list transcript) : pystr :=
  strip (fold_left (fun the_string t => the_string ++ text t ++ [space])
           transcripts []).

Definition get_new_cse_transcripts_for_user_as_string
    (user_id : string) (db : users) : pystr * users :=
  let '(transcripts, db) := get_new_cse_transcripts_for_user user_id db in
  (stringify transcripts, db).

(** ** Specification predicates for the snap *)

(** [text[j] == " "] *)
Definition space_at (text : pystr) (j : Z) : Prop :=
  0 <= j /\ text !! Z.to_nat j = Some space.

(** [r] is the index of the nearest space at or before [k], or 0 when the
    text has no space at or before [k]. *)
Definition nearest_preceding_space (text : pystr) (k r : Z) : Prop :=
  (space_at text r /\ r <= k /\ forall j, r < j <= k -> ~ space_at text j)
  \/ (r = 0 /\ forall j, j <= k -> ~ space_at text j).

(** ** Transcript scenarios *)

(** A new user whose first intermediate transcript, "hello world", has been
    consumed once. *)
Definition hello_db : users :=
  let db := save_transcript_for_user "u" (str "hello world") 1000 false 1 ∅ in
  snd (get_new_cse_transcripts_for_user "u" db).

(** A new user whose first intermediate transcript ends in three spaces. *)
Definition padded_db : users :=
  save_transcript_for_user "u" (str "hello world   ") 1000 false 1 ∅.

(** The final transcript "the quick brown fox" is saved and consumed, then
    the intermediate transcript "jumps over the lazy dog" arrives. *)
Definition fox_db : users :=
  let db := save_transcript_for_user "u" (str "the quick brown fox")
              1000 true 1 ∅ in
  let db := snd (get_new_cse_transcripts_for_user "u" db) in
  save_transcript_for_user "u" (str "jumps over the lazy dog") 1001 false 2 db.

(** The final transcript "quick brown fox" is saved and consumed, a second
    consume finds nothing, then the intermediate transcript arrives. *)
Definition three_word_db : users :=
  let db := save_transcript_for_user "u" (str "quick brown fox")
              1000 true 1 ∅ in
  let db := snd (get_new_cse_transcripts_for_user "u" db) in
  let db := snd (get_new_cse_transcripts_for_user "u" db) in
  save_transcript_for_user "u" (str "jumps over the lazy dog") 1001 false 2 db.

(** ** ContextualSearchEngine: candidate windows *)

(** [range(a, b)] *)
Definition range (a b : Z) : list Z := seqZ a (b - a).

(** [find_combinations(words, window_size)] *)
Definition find_combinations (words : list pystr) (window_size : Z)
  : gset pystr :=
  fold_left
    (fun combinations_set window_size =>
       fold_left
         (fun combinations_set i =>
            let combination :=
              join [space] (slice words i (i + window_size)) in
            if decide (combination ∉ combinations_set)
            then combinations_set ∪ {[ combination ]}
            else combinations_set)
         (range 0 (len words - window_size + 1)) combinations_set)
    (range 2 (window_size + 1)) ∅.

(** [run] is a run of consecutive words of [words]. *)
Definition contiguous_run (words run : list pystr) : Prop :=
  exists before after, words = before ++ run ++ after.

(** [s] is the space-joined text of a run of 2 to [max_size] consecutive
    words. *)
Definition is_window (words : list pystr) (max_size : Z) (s : pystr) : Prop :=
  exists run, contiguous_run words run
              /\ 2 <= len run <= max_size
              /\ s = join [space] run.

(** ** word_frequency: low-frequency words *)

Definition low_freq_threshold_google : Q := 922 # 10000.   (* 0.0922 *)
Definition low_freq_threshold_norvig : Q := 901 # 1000.    (* 0.901 *)
Definition google_lines : Z := 333334.
Definition norvig_lines : Z := 30000.
Definition low_freq_constant_google : Q :=
  low_freq_threshold_google * inject_Z google_lines.
Definition low_freq_line_constant_norvig : Q :=
  low_freq_threshold_norvig * inject_Z norvig_lines.

(** [a > b] on numbers *)
Definition Qgtb (a b : Q) : bool := negb (Qle_bool a b).

Section WordFrequency.

(** The dictionaries built when the module is loaded: each word of a
    frequency list is mapped to the list of the row numbers that hold
    it. *)
Variable idx_google_dict_word_freq : gmap pystr (list Z).
Variable idx_norvig_dict_word_freq : gmap pystr (list Z).

(** The body of the loop of [find_low_freq_words] for one word:
    [Some true] when the word is appended to [low_freq_words],
    [Some false] when it is not, [None] when an exception other than
    the two caught [KeyError]s is raised. *)
Definition is_low_freq_word (word : pystr) : option bool :=
  match idx_google_dict_word_freq !! word with
  | None => Some true                        (* except KeyError *)
  | Some rows =>
      i_word_google ← index rows 0;
      i_word_norvig ←
        match idx_norvig_dict_word_freq !! word with
        | None => Some None                  (* except KeyError *)
        | Some rows => Some <$> index rows 0
        end;
      if Qgtb (inject_Z i_word_google) low_freq_constant_google
      then Some true
      else match i_word_norvig with
           | Some i =>
               Some (Qgtb (inject_Z i) low_freq_line_constant_norvig)
           | None => Some false
           end
  end.

Fixpoint find_low_freq_words (words : list pystr) : option (list pystr) :=
  match words with
  | [] => Some []
  | word :: rest =>
      let word := lower word in
      low ← is_low_freq_word word;
      low_freq_words ← find_low_freq_words rest;
      Some (if low : bool then word :: low_freq_words else low_freq_words)
  end.

End WordFrequency.

(** Small frequency lists for the examples: rows 0, 1 and 40000 of the
    large list, rows 0 and 1 of the small one. *)
Definition sample_google : gmap pystr (list Z) :=
  {[ str "the" := [0]; str "of" := [1]; str "bonsai" := [40000] ]}.
Definition sample_norvig : gmap pystr (list Z) :=
  {[ str "the" := [0]; str "of" := [1] ]}.

(** ** ContextualSearchEngine: normalising a catalog title *)

Definition is_lower_az (c : ascii) : bool :=
  ((97 <=? code c) && (code c <=? 122))%N.

Definition is_upper_AZ (c : ascii) : bool :=
  ((65 <=? code c) && (code c <=? 90))%N.

(** The longest prefix of characters that satisfy [p], and the rest. *)
Fixpoint span (p : ascii -> bool) (s : pystr) : pystr * pystr :=
  match s with
  | [] => ([], [])
  | c :: rest =>
      if p c
      then let '(run, rest') := span p rest in (c :: run, rest')
      else ([], s)
  end.

(** [$]: the end of the string, or just before a newline that ends it. *)
Definition at_end (s : pystr) : bool :=
  match s with
  | [] => true
  | [c] => Ascii.eqb c "010"%char
  | _ => false
  end.

(** One match of [[A-Z]?[a-z]+|[A-Z]+(?=[A-Z]|$)] at the head of [s]: the
    matched text and what follows it. The first alternative is an optional
    capital and a longest run of small letters. The second is a longest run
    of capitals, kept whole at the end of the string and otherwise shortened
    by its last capital, which the lookahead then sees. *)
Definition match_pascal (s : pystr) : option (pystr * pystr) :=
  let small_run (s : pystr) :=
    match span is_lower_az s with
    | ([], _) => None
    | (run, rest) => Some (run, rest)
    end in
  let first_alternative :=
    match s with
    | [] => None
    | c :: s' =>
        if is_upper_AZ c
        then '(run, rest) ← small_run s'; Some (c :: run, rest)
        else small_run s
    end in
  match first_alternative with
  | Some r => Some r
  | None =>
      match span is_upper_AZ s with
      | ([], _) => None
      | (run, rest) =>
          if at_end rest then Some (run, rest)
          else match rev run with
               | last_capital :: (c :: shorter) =>
                   Some (rev (c :: shorter), last_capital :: rest)
               | _ => None
               end
      end
  end.

(** [re.findall] with that pattern: scan from the left, keep every match
    and resume after it, skip one character where nothing matches. Every
    step consumes a character, so [length s] steps are enough. *)
Fixpoint findall_pascal (fuel : nat) (s : pystr) : list pystr :=
  match fuel with
  | O => []
  | S fuel =>
      match s with
      | [] => []
      | _ :: s' =>
          match match_pascal s with
          | Some (word, rest) => word :: findall_pascal fuel rest
          | None => findall_pascal fuel s'
          end
      end
  end.

Definition pascal_to_words (pascal_str : pystr) : pystr :=
  join [space] (findall_pascal (length pascal_str) pascal_str).

(** [pascal_to_words(entity).lower().replace(":", "")] *)
Definition searched_entity_of (entity : pystr) : pystr :=
  remove_char ":"%char (lower (pascal_to_words entity)).

(** ** ContextualSearchEngine: the filters of one raw match *)

(** A [Match] of [fuzzysearch]. *)
Record Match : Type := MkMatch {
  m_start : Z;       (* inclusive *)
  m_end : Z;         (* exclusive *)
  m_dist : Z
}.

Definition is_separator (c : ascii) : bool :=
  existsb (Ascii.eqb c) [" "; "010"; "013"; ","; ":"; ";"]%char.

(** The first loop of [get_whole_match]: [start_idx] counts down to 0. *)
Fixpoint extend_left (full_string : pystr) (start_idx : nat)
    (substring : pystr) : option pystr :=
  match start_idx with
  | O => Some substring
  | S start_idx =>
      pre_char ← full_string !! start_idx;
      if is_separator pre_char then Some substring
      else extend_left full_string start_idx (pre_char :: substring)
  end.

(** The second loop: [end_idx] counts up to [len(full_string)]; [todo]
    is the number of positions left. *)
Fixpoint extend_right (todo : nat) (full_string : pystr) (end_idx : Z)
    (substring : pystr) : option pystr :=
  match todo with
  | O => Some substring
  | S todo =>
      post_char ← index full_string end_idx;
      if is_separator post_char then Some substring
      else extend_right todo full_string (end_idx + 1)
             (substring ++ [post_char])
  end.

Definition get_whole_match (match_entity : Match) (full_string : pystr)
  : option pystr :=
  let substring :=
    slice full_string (m_start match_entity) (m_end match_entity) in
  substring ←
    extend_left full_string (Z.to_nat (m_start match_entity)) substring;
  extend_right (Z.to_nat (len full_string - m_end match_entity)) full_string
    (m_end match_entity) substring.

Definition count_capitals (txt : pystr) : Z := len (filter isupper txt).

(** The float constants [0.04] and [0.06] of the source: the binary64
    numbers nearest to these decimals. *)
Definition float_0_04 : float := 0x1.47ae147ae147bp-5%float.
Definition float_0_06 : float := 0x1.eb851eb851eb8p-5%float.

(** [x < c] on floats; it is false when [x] is [nan]. *)
Definition float_lt (x c : float) : bool := PrimFloat.ltb x c.

(** A cell of the [title] column as [tolist()] gives it: a string, or an
    object that is not a string (a number, NaN), named by its [repr]. *)
Inductive cell : Type :=
  | Text (s : pystr)
  | Other (repr : pystr).

#[global] Instance cell_eq_dec : EqDecision cell.
Proof. solve_decision. Defined.

(** The string that [re.findall] is given; [None] is the TypeError it
    raises on an object that is not a string. *)
Definition text_of (entity : cell) : option pystr :=
  match entity with
  | Text s => Some s
  | Other _ => None
  end.

Record search_config : Type := {
  max_deletions : Z;
  max_insertions : Z;
  max_substitutions : Z;
  max_l_dist : Z;
  compute_entropy : bool
}.

(** The [config] of [fuzzy_search_on_user_custom_data]. *)
Definition default_config : search_config :=
  {| max_deletions := 1; max_insertions := 1; max_substitutions := 2;
     max_l_dist := 3; compute_entropy := true |}.

Section FuzzySearch.

(** [fuzzysearch.find_near_matches(subsequence, sequence, max_deletions,
    max_insertions, max_substitutions, max_l_dist)] *)
Variable find_near_matches : pystr -> pystr -> Z -> Z -> Z -> Z -> list Match.

(** [word_frequency.get_word_freq_index], as [numpy] reads its value *)
Variable get_word_freq_index : pystr -> float.

(** [numpy.mean] on a list of floats that is not empty: the binary64
    float that the library computes, with its rounding. *)
Variable np_mean : list float -> float.

(** [self.banned_words] *)
Variable banned_words : gset pystr.

(** [np.mean(l)]: the mean of the empty list is [nan]. *)
Definition mean (l : list float) : float :=
  match l with
  | [] => nan
  | _ => np_mean l
  end.

Definition get_string_freq (txt : pystr) : float :=
  mean (map get_word_freq_index (split txt)).

Definition count_banned (individual_words : list pystr) : Z :=
  len (filter (fun word => word ∈ banned_words) individual_words).

(** [num_banned / len(individual_words)]; [None] is ZeroDivisionError.
    The quotient is kept exact. The float quotient of two ints is the
    float nearest to it, and the float 0.4 is the float nearest to 4/10,
    so that the float quotient is at least the float 0.4 exactly when the
    exact quotient is at least 4/10, for any text of fewer than 10^16
    words. *)
Definition banned_fraction (to_search : pystr) : option Q :=
  match split to_search with
  | [] => None
  | individual_words =>
      Some (inject_Z (count_banned individual_words)
            / inject_Z (len individual_words))%Q
  end.

(** The checks made before any title is searched: [Some true] when the
    function returns the empty list at once. *)
Definition cheap_reject (to_search : pystr) : option bool :=
  if len to_search <? 8 then Some true
  else
    fraction ← banned_fraction to_search;
    if Qle_bool (4 # 10) fraction then Some true
    else if float_lt (get_string_freq to_search) float_0_04 then Some true
    else Some false.

(** The body of [for match_entity in match_entities]: [Some true] when
    the index is appended to [matches], [Some false] at a [continue]. *)
Definition accept_match (to_search searched_entity : pystr)
    (match_entity : Match) : option bool :=
  whole_match ← get_whole_match match_entity searched_entity;
  let match_distance := Z.abs (len whole_match - len to_search) in
  if match_distance >=? 2 then Some false
  else
    let string_freq_index :=
      get_string_freq (remove_char ":"%char whole_match) in
    if (m_dist match_entity >? 1) && float_lt string_freq_index float_0_06
    then Some false
    else if negb (contains space whole_match)
            && (count_capitals whole_match <? 2)
    then Some false
    else if negb (m_start match_entity =? 0) then
      before ← index searched_entity (m_start match_entity - 1);
      if negb (Ascii.eqb before space) then Some false else Some true
    else Some true.

Fixpoint accepted_matches (to_search searched_entity : pystr) (idx : Z)
    (match_entities : list Match) : option (list Z) :=
  match match_entities with
  | [] => Some []
  | match_entity :: rest =>
      ok ← accept_match to_search searched_entity match_entity;
      matches ← accepted_matches to_search searched_entity idx rest;
      Some (if ok : bool then idx :: matches else matches)
  end.

Definition near_matches (to_search : pystr) (config : search_config)
    (entity : pystr) : list Match :=
  find_near_matches (lower to_search) (searched_entity_of entity)
    (max_deletions config) (max_insertions config)
    (max_substitutions config) (max_l_dist config).

(** The loop [for idx, entity in entities]. An entity that is not a string
    raises a TypeError in [pascal_to_words]. *)
Fixpoint search_entities (to_search : pystr) (config : search_config)
    (entities : list (Z * cell)) : option (list Z) :=
  match entities with
  | [] => Some []
  | (idx, entity) :: rest =>
      entity ← text_of entity;
      here ← accepted_matches to_search (searched_entity_of entity) idx
               (near_matches to_search config entity);
      matches ← search_entities to_search config rest;
      Some (here ++ matches)
  end.

Definition custom_fuzzy_search (to_search : pystr)
    (entities : list (Z * cell)) (config : search_config)
  : option (list Z) :=
  reject ← cheap_reject to_search;
  if reject : bool then Some [] else search_entities to_search config entities.

End FuzzySearch.

(** ** ContextualSearchEngine: the search over a user's custom data *)

(** A row of a user's custom data frame. The title is the cell that
    [tolist()] gives. In the other columns [None] is a missing cell, and a
    missing [url] or [image_url] column is a column of missing cells. *)
Record catalog_row : Type := {
  row_title : cell;
  row_description : option pystr;
  row_url : option pystr;
  row_image_url : option pystr
}.

(** A user's custom data frame: its rows, and whether it has the columns
    [title] and [description], which the search reads without a test. The
    cells of a column that the frame does not have are not read. *)
Record data_frame : Type := {
  has_title : bool;
  has_description : bool;
  df_rows : list catalog_row
}.

(** A value of the [matches] dictionary. *)
Record match_info : Type := {
  info_name : cell;
  info_summary : option pystr;
  info_image_url : option pystr;
  info_url : option pystr
}.

(** A Python [dict] whose keys are cells, in insertion order. The search
    only ever inserts titles that are strings: it raises on any other title
    before it builds the dictionary. *)
Definition dict (V : Type) : Type := list (cell * V).

Definition keys {V : Type} (d : dict V) : list cell := map fst d.

(** [d[k] = v] *)
Fixpoint dict_set {V : Type} (k : cell) (v : V) (d : dict V) : dict V :=
  match d with
  | [] => [(k, v)]
  | (k', v') :: rest =>
      if decide (k' = k) then (k, v) :: rest
      else (k', v') :: dict_set k v rest
  end.

(** [d.pop(k)] for a key of [d] *)
Definition dict_pop {V : Type} (k : cell) (d : dict V) : dict V :=
  filter (fun kv => fst kv <> k) d.

(** The state of the [random] module: the raw values of the draws to
    come. *)
Definition rng : Type := nat -> nat.

(** [random.choice(seq)]; [None] is the IndexError on an empty list. *)
Definition choice {A : Type} (g : rng) (seq : list A) : option A * rng :=
  (seq !! (g 0%nat mod length seq)%nat, fun i => g (S i)).

(** The loop of [remove_random_false_positives]. Every pass pops a key, so
    [length d] passes are enough. *)
Fixpoint remove_loop {V : Type} (fuel : nat) (d : dict V) (max_keys : Z)
    (g : rng) : option (dict V * rng) :=
  match fuel with
  | O => Some (d, g)
  | S fuel =>
      if len d >? max_keys then
        match choice g (keys d) with
        | (Some k, g) => remove_loop fuel (dict_pop k d) max_keys g
        | (None, _) => None
        end
      else Some (d, g)
  end.

Definition remove_random_false_positives {V : Type} (d : dict V)
    (max_keys : Z) (g : rng) : option (dict V * rng) :=
  remove_loop (length d) d max_keys g.

(** [list(enumerate(l))] *)
Definition enumerate {A : Type} (l : list A) : list (Z * A) :=
  imap (fun i x => (Z.of_nat i, x)) l.

(** The fields of the engine that the search reads. [custom_data] holds
    the users whose entry is a data frame: an entry that is not one counts
    as no entry. *)
Record ContextualSearchEngine : Type := {
  max_window_size : Z;
  custom_data : gmap string data_frame;
  banned_words : gset pystr
}.

(** A frame with no row, for a user with no entry. *)
Definition no_frame : data_frame :=
  {| has_title := false; has_description := false; df_rows := [] |}.

(** [self.max_window_size = 3] *)
Definition engine_max_window_size : Z := 3.

Definition unreasonable_num : Z := 4.

Section FuzzySearchOnCustomData.

Variable find_near_matches : pystr -> pystr -> Z -> Z -> Z -> Z -> list Match.
Variable get_word_freq_index : pystr -> float.
Variable np_mean : list float -> float.

(** The order in which a [for] loop visits a Python set. *)
Variable set_order : gset pystr -> list pystr.

Variable self : ContextualSearchEngine.

Definition does_user_have_custom_data_loaded (user_id : string) : bool :=
  match custom_data self !! user_id with
  | None => false
  | Some df =>
      match df_rows df with
      | [] => false                              (* [.empty] *)
      | _ => true
      end
  end.

(** The loop [for combination in word_combos]. *)
Fixpoint search_combinations (word_combos : list pystr)
    (entities : list (Z * cell)) : option (list Z) :=
  match word_combos with
  | [] => Some []
  | combination :: rest =>
      curr_matches ←
        custom_fuzzy_search find_near_matches get_word_freq_index np_mean
          (banned_words self) combination entities default_config;
      matches_idxs ← search_combinations rest entities;
      Some (curr_matches ++ matches_idxs)
  end.

(** The loop [for mi in matches_idxs] that builds the response. *)
Fixpoint build_matches (rows : list catalog_row) (matches_idxs : list Z)
    (matches : dict match_info) : option (dict match_info) :=
  match matches_idxs with
  | [] => Some matches
  | mi :: rest =>
      row ← index rows mi;
      build_matches rows rest
        (dict_set (row_title row)
           {| info_name := row_title row;
              info_summary := row_description row;
              info_image_url := row_image_url row;
              info_url := row_url row |} matches)
  end.

(** [matches] as it is before [remove_random_false_positives]; [None] is
    a raised exception, among them the KeyError for a frame that has no
    [title] or no [description] column. *)
Definition uncapped_matches (user_id : string) (talk : pystr)
  : option (dict match_info) :=
  let df := default no_frame (custom_data self !! user_id) in
  let words := split talk in
  if negb (has_title df) then None
  else if negb (has_description df) then None
  else
    let titles := map row_title (df_rows df) in
    let word_combos := find_combinations words (max_window_size self) in
    matches_idxs ←
      search_combinations (set_order word_combos) (enumerate titles);
    build_matches (df_rows df) matches_idxs [].

Definition fuzzy_search_on_user_custom_data (user_id : string)
    (talk : pystr) (g : rng) : option (dict match_info * rng) :=
  if negb (does_user_have_custom_data_loaded user_id) then Some ([], g)
  else
    matches ← uncapped_matches user_id talk;
    remove_random_false_positives matches unreasonable_num g.

End FuzzySearchOnCustomData.

(** ** Specification predicates for the fuzzy search *)

(** A match starts at a word boundary of the normalised title. *)
Definition anchored (searched_entity : pystr) (m : Match) : Prop :=
  m_start m = 0 \/ index searched_entity (m_start m - 1) = Some space.

(** A small ASCII letter or a space. *)
Definition small_or_space (c : ascii) : Prop :=
  is_lower_az c = true \/ c = space.

(** An ASCII letter. *)
Definition is_letter (c : ascii) : bool := is_lower_az c || is_upper_AZ c.

(** ** Search scenarios *)

(** A matcher that reports the exact occurrences of the query, at distance
    0; [i] is the index of the head of [sequence]. *)
Fixpoint exact_occurrences (i : Z) (subsequence sequence : pystr)
  : list Match :=
  match sequence with
  | [] => []
  | _ :: rest =>
      (if decide (subsequence `prefix_of` sequence)
       then [MkMatch i (i + len subsequence) 0] else [])
      ++ exact_occurrences (i + 1) subsequence rest
  end.

Definition exact_matcher (subsequence sequence : pystr) (_ _ _ _ : Z)
  : list Match :=
  exact_occurrences 0 subsequence sequence.

(** Every word is as rare as can be. *)
Definition all_rare (_ : pystr) : float := 1%float.

(** A mean for the scenarios: the sum from left to right, divided by the
    number of values. *)
Definition simple_mean (l : list float) : float :=
  (fold_left PrimFloat.add l 0 / fold_left (fun n _ => n + 1) l 0)%float.

Definition sample_banned_words : gset pystr :=
  {[ str "the"; str "and"; str "to" ]}.

Definition plain_row (title : string) : catalog_row :=
  {| row_title := Text (str title); row_description := None;
     row_url := None; row_image_url := None |}.

Definition sample_rows : list catalog_row :=
  [ plain_row "Fedora Tips"; plain_row "Quantum Garden";
    plain_row "Velvet Anchor"; plain_row "Copper Lantern";
    plain_row "Silent Harbor" ].

Definition sample_frame : data_frame :=
  {| has_title := true; has_description := true; df_rows := sample_rows |}.

Definition sample_engine : ContextualSearchEngine :=
  {| max_window_size := engine_max_window_size;
     custom_data := {[ "u"%string := sample_frame ]};
     banned_words := sample_banned_words |}.

Definition sample_talk : pystr :=
  str "fedora tips quantum garden velvet anchor copper lantern silent harbor".

(** A generator whose every draw is [n]. *)
Definition constant_rng (n : nat) : rng := fun _ => n.

(** Every word is as common as can be. *)
Definition all_common (_ : pystr) : float := 0%float.

(** The frequency index 0.06779469895497861 for "fedora" and
    0.012205301045021386 for every other word. *)
Definition at_threshold_index (word : pystr) : float :=
  if decide (word = str "fedora")
  then 0x1.15afe4eda928ap-4%float
  else 0x1.8ff17c69c0f85p-7%float.

(** A text that names two of the sample titles. *)
Definition short_talk : pystr := str "fedora tips quantum garden".

(** A candidate of five words, two of which are banned words. *)
Definition two_banned_of_five : pystr := str "the quick fox and hound".

Definition tips_entities : list (Z * cell) :=
  enumerate [Text (str "Fedora Tips and Tricks")].

(** ** Specification predicates for strings *)

(** A word: a non-empty string with no whitespace. *)
Definition is_word (w : pystr) : Prop :=
  w <> [] /\ Forall (fun c => isspace c = false) w.

(** A string with no whitespace at either end. *)
Definition is_stripped (s : pystr) : Prop :=
  (forall c r, s = c :: r -> isspace c = false)
  /\ (forall c r, s = r ++ [c] -> isspace c = false).

(** ** DatabaseHandler: the other transcript operations *)

(** [get_all_transcripts_for_user] *)
Definition get_all_transcripts_for_user (user_id : string) (db : users)
  : list transcript * users :=
  let db := create_user_if_not_exists user_id db in
  (final_transcripts (get_user user_id db), db).

(** [delete_all_transcripts_for_user]: an [update_one] with no upsert, which
    does nothing for a user that has no document. *)
Definition delete_all_transcripts_for_user (user_id : string) (db : users)
  : users :=
  match db !! user_id with
  | None => db
  | Some u =>
      <[user_id :=
          {| latest_intermediate_transcript := latest_intermediate_transcript u;
             final_transcripts := [];
             cse_consumed_transcript_id := cse_consumed_transcript_id u;
             cse_consumed_transcript_idx := cse_consumed_transcript_idx u |}
      ]> db
  end.

(** [update_cse_consumed_transcript_idx_for_user] *)
Definition update_cse_consumed_transcript_idx_for_user (user_id : string)
    (new_idx : Z) (db : users) : users :=
  match db !! user_id with
  | None => db
  | Some u =>
      <[user_id :=
          {| latest_intermediate_transcript := latest_intermediate_transcript u;
             final_transcripts := final_transcripts u;
             cse_consumed_transcript_id := cse_consumed_transcript_id u;
             cse_consumed_transcript_idx := new_idx |}
      ]> db
  end.

(** The first loop of [stringify_transcripts]: the texts of the final
    transcripts, each followed by a space, and the index of the last final
    transcript. *)
Definition stringify_finals (transcript_list : list transcript) : pystr * Z :=
  fold_left
    (fun '(output, last_final_transcript_index) '(index, t) =>
       if is_final t then (output ++ text t ++ [space], index)
       else (output, last_final_transcript_index))
    (enumerate transcript_list) ([], 99999999).

(** The second loop: the text of the last intermediate transcript at or
    after [last_final_transcript_index]; [None] is IndexError. *)
Definition last_intermediate_from (transcript_list : list transcript)
    (last_final_transcript_index : Z) : option pystr :=
  fold_left
    (fun last_intermediate_text i =>
       last_intermediate_text ← last_intermediate_text;
       t ← index transcript_list i;
       Some (if is_final t then last_intermediate_text else text t))
    (range last_final_transcript_index (len transcript_list)) (Some []).

Definition stringify_transcripts (transcript_list : list transcript)
  : option pystr :=
  match transcript_list with
  | [] => Some []
  | _ =>
      let '(output, last_final_transcript_index) :=
        stringify_finals transcript_list in
      last_intermediate_text ←
        last_intermediate_from transcript_list last_final_transcript_index;
      Some (strip (output ++ [space] ++ last_intermediate_text))
  end.

(** ** Specification predicates for the transcript cursor *)

(** The consumed index is not negative, and the consumed marker, when set,
    is the uuid of a stored final transcript. *)
Definition cursor_ok (u : user) : Prop :=
  0 <= cse_consumed_transcript_idx u
  /\ (cse_consumed_transcript_id u = NoId
      \/ exists t, t ∈ final_transcripts u
                   /\ uuid t = cse_consumed_transcript_id u).

(** The text of the last element of a list of transcripts, or the empty
    string. *)
Definition last_text (l : list transcript) : pystr :=
  match last l with
  | Some t => text t
  | None => []
  end.

(** The intermediate transcript as the consume operations return it: not at
    all when its text is empty. *)
Definition intermediate_if_any (u : user) : list transcript :=
  match text (latest_intermediate_transcript u) with
  | [] => []
  | _ => [latest_intermediate_transcript u]
  end.

(** The texts of the final transcripts of a list, each followed by a space. *)
Definition finals_text (l : list transcript) : pystr :=
  flat_map (fun t => text t ++ [space]) (filter (fun t => is_final t) l).

(** An intermediate transcript and a final transcript, for the examples. *)
Definition sample_intermediate : transcript :=
  {| t_user_id := None; text := str "hello world"; timestamp := 1;
     is_final := false; uuid := Uuid 1 |}.

Definition sample_final : transcript :=
  {| t_user_id := None; text := str "good morning"; timestamp := 2;
     is_final := true; uuid := Uuid 2 |}.

(** ** DatabaseHandler: results and devices *)

(** A result of the contextual search engine as the store keeps it; [None]
    is a result with no ['uuid'] key, or with no ['timestamp'] key. *)
Record cse_result : Type := {
  result_uuid : option string;
  result_timestamp : option Z;
  result_body : pystr
}.

(** An element of [ui_list]. *)
Record ui_device : Type := {
  device_id : string;
  consumed_cse_result_ids : list string;
  consumed_agent_insights_result_ids : list string
}.

(** The fields of a user document that the result operations read or
    write. They are kept in a map of their own, with the same keys as the
    documents: no operation below touches a transcript field, and no
    transcript operation touches one of these. *)
Record user_results : Type := {
  cse_results : list cse_result;
  agent_insights_results : list cse_result;
  ui_list : list ui_device
}.

Abbreviation results_store := (gmap string user_results).

(** These fields in the document inserted by [create_user_if_not_exists]. *)
Definition new_user_results : user_results :=
  {| cse_results := []; agent_insights_results := []; ui_list := [] |}.

Definition create_user_results_if_not_exists (user_id : string)
    (db : results_store) : results_store :=
  match db !! user_id with
  | Some _ => db
  | None => <[user_id := new_user_results]> db
  end.

Definition set_ui_list (u : user_results) (l : list ui_device) : user_results :=
  {| cse_results := cse_results u;
     agent_insights_results := agent_insights_results u;
     ui_list := l |}.

(** [add_cse_results_for_user]: a [$push] with [$each], by an [update_one]
    that does nothing for a user with no document. *)
Definition add_cse_results_for_user (user_id : string)
    (results : list cse_result) (db : results_store) : results_store :=
  match db !! user_id with
  | None => db
  | Some u =>
      <[user_id := {| cse_results := cse_results u ++ results;
                      agent_insights_results := agent_insights_results u;
                      ui_list := ui_list u |}]> db
  end.

(** [delete_cse_results_for_user] *)
Definition delete_cse_results_for_user (user_id : string)
    (db : results_store) : results_store :=
  match db !! user_id with
  | None => db
  | Some u =>
      <[user_id := {| cse_results := [];
                      agent_insights_results := agent_insights_results u;
                      ui_list := ui_list u |}]> db
  end.

(** [$addToSet] on an array *)
Definition add_to_set {A : Type} `{EqDecision A} (x : A) (l : list A)
  : list A :=
  if decide (x ∈ l) then l else l ++ [x].

Definition has_device (device : string) (l : list ui_device) : bool :=
  existsb (fun ui => bool_decide (device_id ui = device)) l.

(** [add_ui_device_to_user_if_not_exists]. The [$addToSet] appends the new
    device: it is only reached when no element of [ui_list] has the
    [device_id], so that no element equals the new one. *)
Definition add_ui_device_to_user_if_not_exists (user_id device : string)
    (db : results_store) : results_store :=
  let db := create_user_results_if_not_exists user_id db in
  match db !! user_id with
  | None => db
  | Some u =>
      let need_add := negb (has_device device (ui_list u)) in
      if need_add then
        <[user_id :=
            set_ui_list u
              (ui_list u
               ++ [{| device_id := device;
                      consumed_cse_result_ids := [];
                      consumed_agent_insights_result_ids := [] |}])]> db
      else db
  end.

(** The update [{"$addToSet": {"ui_list.$.consumed_cse_result_ids": id}}]
    on an array of devices: [$] is the first element whose [device_id] is
    the one of the filter. *)
Fixpoint mark_consumed (device consumed_result_uuid : string)
    (l : list ui_device) : list ui_device :=
  match l with
  | [] => []
  | ui :: rest =>
      if bool_decide (device_id ui = device) then
        {| device_id := device_id ui;
           consumed_cse_result_ids :=
             add_to_set consumed_result_uuid (consumed_cse_result_ids ui);
           consumed_agent_insights_result_ids :=
             consumed_agent_insights_result_ids ui |} :: rest
      else ui :: mark_consumed device consumed_result_uuid rest
  end.

(** [add_consumed_cse_result_id_for_user_device] *)
Definition add_consumed_cse_result_id_for_user_device
    (user_id device consumed_result_uuid : string) (db : results_store)
  : results_store :=
  match db !! user_id with
  | None => db
  | Some u =>
      if has_device device (ui_list u) then
        <[user_id :=
            set_ui_list u
              (mark_consumed device consumed_result_uuid (ui_list u))]> db
      else db
  end.

(** [get_consumed_cse_result_ids_for_user_device]: [find_one] returns the
    whole document of a user that has the device, and the ids are read from
    [user['ui_list'][0]]. *)
Definition get_consumed_cse_result_ids_for_user_device
    (user_id device : string) (db : results_store) : list string :=
  match db !! user_id with
  | None => []
  | Some u =>
      if has_device device (ui_list u) then
        match ui_list u with
        | ui :: _ => consumed_cse_result_ids ui
        | [] => []
        end
      else []
  end.

(** The loop [for res in results] of [get_cse_results_for_user_device]. *)
Definition collect_new_results (user_id device : string)
    (should_consume : bool) (already_consumed_ids : list string)
    (results : list cse_result) (db : results_store)
  : list cse_result * results_store :=
  fold_left
    (fun '(new_results, db) res =>
       match result_uuid res with
       | Some id =>
           if decide (id ∈ already_consumed_ids) then (new_results, db)
           else
             (new_results ++ [res],
              if should_consume
              then add_consumed_cse_result_id_for_user_device user_id device
                     id db
              else db)
       | None => (new_results, db)
       end)
    results ([], db).

(** [get_cse_results_for_user_device] *)
Definition get_cse_results_for_user_device (user_id device : string)
    (should_consume include_consumed : bool) (db : results_store)
  : list cse_result * results_store :=
  let db := add_ui_device_to_user_if_not_exists user_id device db in
  let results :=
    match db !! user_id with
    | Some u => cse_results u
    | None => []
    end in
  let already_consumed_ids :=
    if include_consumed then []
    else get_consumed_cse_result_ids_for_user_device user_id device db in
  collect_new_results user_id device should_consume already_consumed_ids
    results db.

(** [get_all_ui_devices_for_user]; [None] is the TypeError for a user with
    no document. *)
Definition get_all_ui_devices_for_user (user_id : string) (db : results_store)
  : option (list string) :=
  u ← db !! user_id; Some (map device_id (ui_list u)).

(** ** Specification predicates for the devices *)

(** The device is the first of the user's list, or the list is empty or
    missing, so that the device becomes the first. *)
Definition first_device (user_id device : string) (db : results_store)
  : Prop :=
  match db !! user_id with
  | Some u =>
      match ui_list u with
      | ui :: _ => device_id ui = device
      | [] => True
      end
  | None => True
  end.

(** The user has a first device, and it is another one. *)
Definition later_device (user_id device : string) (db : results_store)
  : Prop :=
  exists u ui rest,
    db !! user_id = Some u /\ ui_list u = ui :: rest
    /\ device_id ui <> device.

(** [ui] is the first device of the user, and [results] are the stored
    results of the user. *)
Definition first_device_state (user_id : string) (db : results_store)
    (results : list cse_result) (ui : ui_device) : Prop :=
  exists u rest,
    db !! user_id = Some u /\ cse_results u = results
    /\ ui_list u = ui :: rest.

(** The stored results of a user, none for a user with no document. *)
Definition stored_results (user_id : string) (db : results_store)
  : list cse_result :=
  match db !! user_id with
  | Some u => cse_results u
  | None => []
  end.

(** No two devices of the user have the same id. *)
Definition devices_distinct (u : user_results) : Prop :=
  NoDup (map device_id (ui_list u)).

(** The consumed ids of the first device of the user's list. *)
Definition first_consumed_ids (user_id : string) (db : results_store)
  : list string :=
  match db !! user_id with
  | Some u =>
      match ui_list u with
      | ui :: _ => consumed_cse_result_ids ui
      | [] => []
      end
  | None => []
  end.

(** A result with a uuid that is not among the consumed ids. *)
Definition is_unconsumed (already_consumed_ids : list string)
    (res : cse_result) : bool :=
  match result_uuid res with
  | Some id => bool_decide (id ∉ already_consumed_ids)
  | None => false
  end.

(** The results a device has not consumed, by the list of consumed ids. *)
Definition unconsumed_results (already_consumed_ids : list string)
    (results : list cse_result) : list cse_result :=
  List.filter (is_unconsumed already_consumed_ids) results.

(** A store of one user with two results and the devices "glasses" and
    "phone", in this order. *)
Definition sample_result (id : string) : cse_result :=
  {| result_uuid := Some id; result_timestamp := Some 0;
     result_body := str id |}.

Definition two_device_store : results_store :=
  let db := add_ui_device_to_user_if_not_exists "u" "glasses" ∅ in
  let db := add_ui_device_to_user_if_not_exists "u" "phone" db in
  add_cse_results_for_user "u" [sample_result "r1"; sample_result "r2"] db.

(** A user with two stored results and the devices "glasses", which has
    consumed the first result, and "phone". *)
Definition two_device_user : user_results :=
  {| cse_results := [sample_result "r1"; sample_result "r2"];
     agent_insights_results := [];
     ui_list :=
       [ {| device_id := "glasses"; consumed_cse_result_ids := ["r1"%string];
            consumed_agent_insights_result_ids := [] |};
         {| device_id := "phone"; consumed_cse_result_ids := [];
            consumed_agent_insights_result_ids := [] |} ] |}.

(** A user whose consumed marker names the stored final transcript, and a
    user whose marker names no stored transcript. *)
Definition marked_user : user :=
  {| latest_intermediate_transcript := sample_intermediate;
     final_transcripts := [sample_final];
     cse_consumed_transcript_id := Uuid 2;
     cse_consumed_transcript_idx := 6 |}.

Definition stale_user : user :=
  {| latest_intermediate_transcript := sample_intermediate;
     final_transcripts := [sample_final];
     cse_consumed_transcript_id := Uuid 7;
     cse_consumed_transcript_idx := 5 |}.

(** A character that [get_whole_match] adds to the match. *)
Definition not_separator (c : ascii) : bool := negb (is_separator c).

(** An engine whose user has a row with the number 2024 as its title, and
    an engine whose user has a frame with no [description] column. *)
Definition numeric_title_engine : ContextualSearchEngine :=
  {| max_window_size := engine_max_window_size;
     custom_data :=
       {[ "u"%string :=
            {| has_title := true; has_description := true;
               df_rows :=
                 [ plain_row "Fedora Tips";
                   {| row_title := Other (str "2024");
                      row_description := None; row_url := None;
                      row_image_url := None |} ] |} ]};
     banned_words := sample_banned_words |}.

Definition no_description_engine : ContextualSearchEngine :=
  {| max_window_size := engine_max_window_size;
     custom_data :=
       {[ "u"%string :=
            {| has_title := true; has_description := false;
               df_rows := sample_rows |} ]};
     banned_words := sample_banned_words |}.

(** The frame has the columns [title] and [description]. *)
Definition has_columns (df : data_frame) : Prop :=
  has_title df = true /\ has_description df = true.

(** Every title of the frame is a string. *)
Definition text_titles (df : data_frame) : Prop :=
  Forall (fun row => exists title, row_title row = Text title) (df_rows df).

(** The entry of the response built for a row. *)
Definition row_info (row : catalog_row) : match_info :=
  {| info_name := row_title row;
     info_summary := row_description row;
     info_image_url := row_image_url row;
     info_url := row_url row |}.

(** A raw match lies in the string it was found in. *)
Definition in_range (s : pystr) (m : Match) : Prop :=
  0 <= m_start m <= m_end m /\ m_end m <= len s.

(** ** Specification of the low-frequency test by row numbers *)

(** The first row that holds the word in a frequency list, if any. *)
Definition first_row (idx : gmap pystr (list Z)) (word : pystr) : option Z :=
  rows ← idx !! word; head rows.

(** The test of [find_low_freq_words] on the rows of a word in the large
    and in the small list, with the thresholds as whole numbers. *)
Definition is_rare_row (google norvig : option Z) : bool :=
  match google with
  | None => true
  | Some i =>
      (30734 <=? i)
      || match norvig with
         | Some j => 27031 <=? j
         | None => false
         end
  end.

(** ** ContextualSearchEngine: helpers on strings *)

(** [first_last_concat(s)]; [None] is an IndexError. *)
Definition first_last_concat (s : pystr) : option pystr :=
  let words := split s in
  if len words >? 1 then
    first ← index words 0;
    last ← index words (-1);
    Some (first ++ [space] ++ last)
  else if len words =? 1 then index words 0
  else Some [].

(** [remove_banned_words(s, banned_words)] *)
Definition remove_banned_words (s : pystr) (banned_words : gset pystr)
  : pystr :=
  join [space]
    (map lower (List.filter (fun word => bool_decide (lower word ∉ banned_words))
                  (split s))).

(** The loop of [get_defined_terms_from_last_nseconds_for_user_device];
    [None] is the KeyError for a result with no timestamp. *)
Fixpoint recent_results (current_time n : Z) (consumed_results : list cse_result)
  : option (list cse_result) :=
  match consumed_results with
  | [] => Some []
  | result :: rest =>
      result_time ← result_timestamp result;
      previously_defined_terms ← recent_results current_time n rest;
      Some (if current_time - result_time <? n
            then result :: previously_defined_terms
            else previously_defined_terms)
  end.

(** [get_defined_terms_from_last_nseconds_for_user_device]; [current_time]
    is the value of [math.trunc(time.time())]. The store is returned as the
    call leaves it, also when the loop raises. *)
Definition get_defined_terms_from_last_nseconds_for_user_device
    (current_time : Z) (user_id : string) (n : Z) (db : results_store)
  : option (list cse_result) * results_store :=
  let '(consumed_results, db) :=
    get_cse_results_for_user_device user_id "" false true db in
  (recent_results current_time n consumed_results, db).

(** The user has no device yet. *)
Definition no_device (user_id : string) (db : results_store) : Prop :=
  match db !! user_id with
  | Some u => ui_list u = []
  | None => True
  end.

(** ** DatabaseHandler: the cache of summaries *)

(** A document of the cache collection; [None] is a document with no
    ['summary'] key. *)
Record cache_item : Type := {
  description : string;
  summary : option pystr
}.

(** The cache collection, in the order of insertion: nothing is deleted
    from it, and [find_one] returns the first document that matches. *)
Definition cache_collection : Type := list cache_item.

Section Cache.

(** [sha256(s.encode("utf-8")).hexdigest()] *)
Variable sha256 : pystr -> string.

(** [find_cached_summary]; [None] is the value [None]. *)
Definition find_cached_summary (long_description : pystr)
    (cache : cache_collection) : option pystr :=
  let description_hash := sha256 long_description in
  match List.find (fun item => bool_decide (description item = description_hash))
          cache with
  | Some item => summary item
  | None => None
  end.

(** [save_cached_summary] *)
Definition save_cached_summary (long_description summary : pystr)
    (cache : cache_collection) : cache_collection :=
  let description_hash := sha256 long_description in
  cache ++ [{| description := description_hash; summary := Some summary |}].

End Cache.

(** * Part II: properties *)

(** ** The word-boundary snap *)

(** The examples in the comment above the function. *)
Example find_closest_5 :
  find_closest_start_word_index (str "hello world, my name is alex!") 5 = 5.
Proof. reflexivity. Qed.

Example find_closest_11 :
  find_closest_start_word_index (str "hello world, my name is alex!") 11 = 5.
Proof. reflexivity. Qed.

Example find_closest_12 :
  find_closest_start_word_index (str "hello world, my name is alex!") 12 = 12.
Proof. reflexivity. Qed.

Lemma ascii_eqb_space (c : ascii) : Ascii.eqb c space = true <-> c = space.
Proof. apply Ascii.eqb_eq. Qed.

(** The loop, started at index [i] on the suffix [rest] with every space
    seen so far at or before [curr_index]. *)
Lemma find_closest_loop_spec (rest : pystr) :
  forall i latest k,
    latest <= k ->
    let r := find_closest_loop rest i latest k in
    ((forall n, rest !! n = Some space -> i + Z.of_nat n <= k) -> r = k)
    /\ ((exists n, rest !! n = Some space /\ k < i + Z.of_nat n) ->
        (r = latest /\ forall n, rest !! n = Some space -> k < i + Z.of_nat n)
        \/ (exists n, rest !! n = Some space /\ r = i + Z.of_nat n /\ r <= k
              /\ forall m, rest !! m = Some space -> i + Z.of_nat m <= k ->
                           (m <= n)%nat)).
Proof.
  induction rest as [|c rest IH]; intros i latest k Hl; cbn zeta.
  - split; [reflexivity|]. intros [n [Hn _]]. discriminate.
  - simpl. destruct (Ascii.eqb c space) eqn:Hc.
    + apply ascii_eqb_space in Hc. subst c.
      destruct (Z.gtb_spec i k) as [Hik|Hik].
      * split.
        -- intros Hall. specialize (Hall 0%nat eq_refl). lia.
        -- intros _. left. split; [reflexivity|].
           intros n _. lia.
      * destruct (IH (i + 1) i k Hik) as [IHa IHb]. split.
        -- intros Hall. apply IHa. intros n Hn.
           specialize (Hall (S n) Hn). lia.
        -- intros [n [Hn Hk]]. destruct n as [|n]; [lia|].
           destruct IHb as [[Hr Hnone]|[p [Hp [Hr [Hrk Hmax]]]]].
           { exists n. split; [exact Hn|lia]. }
           { right. exists 0%nat. split; [reflexivity|].
             split; [lia|]. split; [lia|].
             intros m Hm Hmk. destruct m as [|m]; [lia|].
             specialize (Hnone m Hm). lia. }
           { right. exists (S p). split; [exact Hp|].
             split; [lia|]. split; [lia|].
             intros m Hm Hmk. destruct m as [|m]; [lia|].
             specialize (Hmax m Hm). lia. }
    + assert (Hne : c <> space).
      { intros ->. rewrite (proj2 (ascii_eqb_space space) eq_refl) in Hc.
        discriminate. }
      destruct (IH (i + 1) latest k Hl) as [IHa IHb]. split.
      * intros Hall. apply IHa. intros n Hn.
        specialize (Hall (S n) Hn). lia.
      * intros [n [Hn Hk]]. destruct n as [|n].
        { simpl in Hn. congruence. }
        destruct IHb as [[Hr Hnone]|[p [Hp [Hr [Hrk Hmax]]]]].
        { exists n. split; [exact Hn|lia]. }
        { left. split; [exact Hr|].
          intros m Hm. destruct m as [|m].
          - simpl in Hm. congruence.
          - specialize (Hnone m Hm). lia. }
        { right. exists (S p). split; [exact Hp|].
          split; [lia|]. split; [lia|].
          intros m Hm Hmk. destruct m as [|m].
          - simpl in Hm. congruence.
          - specialize (Hmax m Hm). lia. }
Qed.

Lemma find_closest_loop_le (rest : pystr) :
  forall i latest k, latest <= k -> find_closest_loop rest i latest k <= k.
Proof.
  induction rest as [|c rest IH]; intros i latest k Hl; simpl; [lia|].
  destruct (Ascii.eqb c space); [|auto].
  destruct (Z.gtb_spec i k); [lia|]. apply IH. lia.
Qed.

(** The snap never moves forward. *)
Lemma find_closest_le (text : pystr) (k : Z) :
  0 <= k -> find_closest_start_word_index text k <= k.
Proof. intros Hk. apply find_closest_loop_le. exact Hk. Qed.

(** A target at or past the end of the text is returned unchanged. *)
Lemma find_closest_past_end (text : pystr) (k : Z) :
  len text <= k -> find_closest_start_word_index text k = k.
Proof.
  intros Hk. unfold find_closest_start_word_index.
  assert (H0 : 0 <= k) by (unfold len in Hk; lia).
  destruct (find_closest_loop_spec text 0 0 k H0) as [Ha _].
  apply Ha. intros n Hn. apply lookup_lt_Some in Hn.
  unfold len in Hk. lia.
Qed.

(** With a space after the target, the snap is the nearest space at or
    before the target, or 0. *)
Lemma find_closest_nearest (text : pystr) (k : Z) :
  0 <= k ->
  (exists j, k < j /\ space_at text j) ->
  nearest_preceding_space text k (find_closest_start_word_index text k).
Proof.
  intros Hk [j [Hkj [Hj0 Hj]]]. unfold find_closest_start_word_index.
  destruct (find_closest_loop_spec text 0 0 k Hk) as [_ Hb].
  destruct Hb as [[Hr Hnone]|[p [Hp [Hr [Hrk Hmax]]]]].
  - exists (Z.to_nat j). split; [exact Hj|lia].
  - right. split; [exact Hr|].
    intros m Hmk [Hm0 Hm]. specialize (Hnone _ Hm). lia.
  - left. rewrite Hr. split; [|split].
    + split; [lia|]. replace (Z.to_nat (0 + Z.of_nat p)) with p by lia.
      exact Hp.
    + lia.
    + intros m Hm [Hm0 Hmsp]. specialize (Hmax _ Hmsp). lia.
Qed.

(** C3, as the code has it. For every text and every non-negative target
    index, [find_closest_start_word_index] never returns an index past the
    target; when a space occurs after the target it returns the index of
    the nearest space at or before the target, or 0 when there is none, so
    the position is then never strictly inside a word; a target at or past
    the end of the text is returned unchanged. *)
Theorem find_closest_start_word_index_snap (text : pystr) (k : Z) :
  0 <= k ->
  find_closest_start_word_index text k <= k
  /\ ((exists j, k < j /\ space_at text j) ->
      nearest_preceding_space text k (find_closest_start_word_index text k))
  /\ (len text <= k -> find_closest_start_word_index text k = k).
Proof.
  intros Hk. split; [|split].
  - apply find_closest_le, Hk.
  - apply find_closest_nearest, Hk.
  - apply find_closest_past_end.
Qed.

Lemma find_closest_start_word_index_snap_witness :
  find_closest_start_word_index (str "hello world, my name") 8 <= 8
  /\ ((exists j, 8 < j /\ space_at (str "hello world, my name") j) ->
      nearest_preceding_space (str "hello world, my name") 8
        (find_closest_start_word_index (str "hello world, my name") 8))
  /\ (len (str "hello world, my name") <= 8 ->
      find_closest_start_word_index (str "hello world, my name") 8 = 8).
Proof.
  apply (find_closest_start_word_index_snap (str "hello world, my name") 8).
  lia.
Defined.

(** C3, as the specification words it, fails: for the text "hello world"
    and the target 11 the function returns 11, which is not the index of
    the nearest preceding space (5) and not 0. *)
Lemma find_closest_not_nearest_space :
  ~ nearest_preceding_space (str "hello world") 11
      (find_closest_start_word_index (str "hello world") 11).
Proof.
  change (find_closest_start_word_index (str "hello world") 11) with 11.
  intros [[[_ Hsp] _]|[H0 _]]; [|lia].
  vm_compute in Hsp. discriminate.
Qed.

(** The same happens inside the last word of a text, where the returned
    position is strictly inside the word. *)
Example find_closest_inside_last_word :
  find_closest_start_word_index (str "hello world") 8 = 8.
Proof. reflexivity. Qed.

(** ** Consuming twice in a row *)

Lemma find_closest_nil (k : Z) : find_closest_start_word_index [] k = k.
Proof. reflexivity. Qed.

Lemma new_index_nonneg (l : list transcript) : 0 <= new_index l 0.
Proof. unfold new_index, len. destruct (last l); lia. Qed.

(** A target in the last position or later is returned unchanged. *)
Lemma find_closest_last_position (txt : pystr) (k : Z) :
  0 <= k -> len txt - 1 <= k -> find_closest_start_word_index txt k = k.
Proof.
  intros H0 Hk. unfold find_closest_start_word_index.
  destruct (find_closest_loop_spec txt 0 0 k H0) as [Ha _].
  apply Ha. intros n Hn. apply lookup_lt_Some in Hn.
  unfold len in Hk. lia.
Qed.

(** With no consumed marker and the consumed index at the last position of
    the intermediate transcript or later, there is nothing to consume. *)
Lemma consume_user_nothing_new (u : user) :
  cse_consumed_transcript_id u = NoId ->
  0 <= cse_consumed_transcript_idx u ->
  len (text (latest_intermediate_transcript u)) - 1
    <= cse_consumed_transcript_idx u ->
  fst (consume_user u) = [].
Proof.
  intros Hid H0 Hk. unfold consume_user, unconsumed_of_user.
  rewrite Hid. destruct (decide (NoId <> NoId)) as [Hne|_]; [done|].
  rewrite find_closest_last_position by assumption.
  destruct (Z.gtb_spec (len (text (latest_intermediate_transcript u)) - 1)
              (cse_consumed_transcript_idx u)); [lia|reflexivity].
Qed.

(** When the consumed marker names a final transcript, a second consume
    with no ingestion in between returns nothing. *)
Lemma consume_user_twice_marker (u : user) :
  cse_consumed_transcript_id u <> NoId ->
  fst (consume_user (snd (consume_user u))) = [].
Proof.
  intros Hid. apply consume_user_nothing_new;
    unfold consume_user, unconsumed_of_user;
    destruct (decide (cse_consumed_transcript_id u <> NoId)) as [_|]; try done;
    cbn.
  - apply new_index_nonneg.
  - set (l := unconsumed_transcripts _).
    destruct (text (latest_intermediate_transcript u)) as [|c s] eqn:Ht.
    + pose proof (new_index_nonneg l). unfold len. simpl. lia.
    + unfold new_index. rewrite last_snoc, Ht. lia.
Qed.

(** A consume that returns nothing resets the consumed index to 0, also
    when the intermediate transcript is unchanged. *)
Lemma consume_user_nothing_resets (u : user) :
  fst (consume_user u) = [] ->
  cse_consumed_transcript_idx (snd (consume_user u)) = 0.
Proof.
  unfold consume_user. destruct (unconsumed_of_user u) as [l offset].
  simpl. intros ->. reflexivity.
Qed.

(** C1 fails on the code. The user's intermediate transcript "hello world"
    has been consumed once, which left the consumed index at 12. Two more
    consumes follow with no ingestion in between: the first returns nothing
    and resets the consumed index to 0, and the second returns the
    transcript again instead of nothing. *)
Theorem consume_after_empty_consume_returns_text :
  let u := get_user "u" hello_db in
  let '(first, db1) := get_new_cse_transcripts_for_user "u" hello_db in
  let '(second, db2) := get_new_cse_transcripts_for_user "u" db1 in
  text (latest_intermediate_transcript u) = str "hello world"
  /\ final_transcripts u = []
  /\ cse_consumed_transcript_id u = NoId
  /\ cse_consumed_transcript_idx u = 12
  /\ first = []
  /\ cse_consumed_transcript_idx (get_user "u" db1) = 0
  /\ map text second = [str " hello world"]
  /\ stringify second = str "hello world".
Proof. vm_compute. done. Qed.

(** A second way to the same failure: a new user's intermediate transcript
    "hello world   " is consumed twice with no ingestion in between. The
    first consume returns "hello world" and moves the consumed index to 12,
    the length of the returned text, which is before the end of the stored
    text; the second consume returns "hello world" again. *)
Example consume_twice_padded_intermediate :
  let '(first_text, db1) :=
    get_new_cse_transcripts_for_user_as_string "u" padded_db in
  let '(second, db2) := get_new_cse_transcripts_for_user "u" db1 in
  first_text = str "hello world"
  /\ cse_consumed_transcript_idx (get_user "u" db1) = 12
  /\ map text second = [str "hello world "]
  /\ stringify second = str "hello world".
Proof. vm_compute. done. Qed.

(** ** Backslide *)

(** What the slice
    [backslide_word_list[-(self.backslide-len(backslide_word_list)):]]
    keeps: the last four words, except that of exactly three words it keeps
    the last one only. *)
Lemma backslide_slice (l : list pystr) :
  slice_from l (- (backslide - len l))
  = if decide (length l = 3%nat) then drop 2 l else drop (length l - 4) l.
Proof.
  unfold slice_from, norm_index, backslide, len.
  destruct (decide (length l = 3%nat)) as [H3|H3].
  - rewrite H3. reflexivity.
  - f_equal. destruct (Z.ltb_spec (- (4 - Z.of_nat (length l))) 0); lia.
Qed.

(** Away from three words of context, the consumed text is the last
    [min 4 n] words of the context, a space, and the new text. *)
Lemma backslid_text_last_words (final_text txt : pystr) (start_index : Z) :
  let l := backslide_word_list final_text (slice_to txt start_index) in
  length l <> 3%nat ->
  backslid_text final_text txt start_index
  = join [space] (drop (length l - Nat.min 4 (length l)) l)
    ++ [space] ++ strip (slice_from txt start_index).
Proof.
  intros l Hl. unfold backslid_text, backslide_words. fold l.
  rewrite backslide_slice. destruct (decide (length l = 3%nat)); [done|].
  do 3 f_equal. lia.
Qed.

(** C2 fails on the code. With the three-word final transcript
    "quick brown fox" as the whole prior context, consuming the new
    intermediate transcript "jumps over the lazy dog" prepends the last word
    only, "fox", instead of the three words. In the scenario of the claim
    the consumed index 20 left by the final transcript is applied to the
    new intermediate transcript, and the returned text is the new text
    alone. *)
Theorem backslide_three_words_keeps_one :
  (let u := get_user "u" three_word_db in
   cse_consumed_transcript_id u = NoId
   /\ cse_consumed_transcript_idx u = 0
   /\ backslide_word_list (str "quick brown fox") (slice_to (str "jumps over the lazy dog") 0)
      = [str "quick"; str "brown"; str "fox"])
  /\ map text (fst (get_new_cse_transcripts_for_user "u" three_word_db))
     = [str "fox jumps over the lazy dog"]
  /\ cse_consumed_transcript_idx (get_user "u" fox_db) = 20
  /\ map text (fst (get_new_cse_transcripts_for_user "u" fox_db))
     = [str "jumps over the lazy dog"].
Proof. vm_compute. done. Qed.

(** ** Candidate windows *)

Lemma elem_of_range (a b x : Z) : x ∈ range a b <-> a <= x < b.
Proof. unfold range. rewrite elem_of_seqZ. lia. Qed.

(** Adding [f i] for every [i] of a list to a set. *)
Lemma elem_of_fold_add {A : Type} (f : A -> pystr) (l : list A) :
  forall (acc : gset pystr) (s : pystr),
    s ∈ fold_left (fun acc i => if decide (f i ∉ acc)
                                then acc ∪ {[ f i ]} else acc) l acc
    <-> s ∈ acc \/ exists i, i ∈ l /\ s = f i.
Proof.
  induction l as [|x l IH]; intros acc s; simpl.
  - split; [auto|]. intros [H|[i [Hi _]]]; [exact H|]. inversion Hi.
  - rewrite IH. split.
    + intros [H|[i [Hi ->]]].
      * destruct (decide (f x ∉ acc)); [|auto].
        apply elem_of_union in H as [H|H]; [auto|].
        apply elem_of_singleton in H. right. exists x. split; [left|exact H].
      * right. exists i. split; [right; exact Hi|reflexivity].
    + intros [H|[i [Hi ->]]].
      * left. destruct (decide (f x ∉ acc)); [|exact H].
        apply elem_of_union. left. exact H.
      * apply elem_of_cons in Hi as [->|Hi].
        -- left. destruct (decide (f x ∉ acc)) as [|Hin].
           ++ apply elem_of_union. right. apply elem_of_singleton. reflexivity.
           ++ destruct (decide (f x ∈ acc)); [assumption|contradiction].
        -- right. exists i. split; [exact Hi|reflexivity].
Qed.

Lemma elem_of_fold_windows {A B : Type} (f : A -> B -> pystr)
    (r : A -> list B) (l : list A) :
  forall (acc : gset pystr) (s : pystr),
    s ∈ fold_left
          (fun acc a =>
             fold_left (fun acc i => if decide (f a i ∉ acc)
                                     then acc ∪ {[ f a i ]} else acc)
               (r a) acc) l acc
    <-> s ∈ acc \/ exists a i, a ∈ l /\ i ∈ r a /\ s = f a i.
Proof.
  induction l as [|x l IH]; intros acc s; simpl.
  - split; [auto|]. intros [H|[a [i [Ha _]]]]; [exact H|]. inversion Ha.
  - rewrite IH, (elem_of_fold_add (f x)). split.
    + intros [[H|[i [Hi ->]]]|[a [i [Ha [Hi ->]]]]].
      * auto.
      * right. exists x, i. split; [left|auto].
      * right. exists a, i. split; [right; exact Ha|auto].
    + intros [H|[a [i [Ha [Hi ->]]]]]; [auto|].
      apply elem_of_cons in Ha as [->|Ha].
      * left. right. exists i. auto.
      * right. exists a, i. auto.
Qed.

(** A slice inside the list is the run that starts at [i]. *)
Lemma slice_in_range {A : Type} (l : list A) (i n : Z) :
  0 <= i -> 0 <= n -> i + n <= len l ->
  slice l i (i + n) = take (Z.to_nat n) (drop (Z.to_nat i) l).
Proof.
  intros Hi Hn Hl. unfold slice, norm_index.
  destruct (Z.ltb_spec i 0); [lia|]. destruct (Z.ltb_spec (i + n) 0); [lia|].
  f_equal; [lia|f_equal; lia].
Qed.

Lemma find_combinations_elem (words : list pystr) (max_size : Z) (s : pystr) :
  s ∈ find_combinations words max_size <-> is_window words max_size s.
Proof.
  unfold find_combinations.
  rewrite (elem_of_fold_windows
             (fun ws i => join [space] (slice words i (i + ws)))
             (fun ws => range 0 (len words - ws + 1))).
  split.
  - intros [H|[ws [i [Hws [Hi ->]]]]]; [by apply not_elem_of_empty in H|].
    apply elem_of_range in Hws. apply elem_of_range in Hi.
    rewrite slice_in_range by lia.
    exists (take (Z.to_nat ws) (drop (Z.to_nat i) words)).
    split; [|split; [|reflexivity]].
    + exists (take (Z.to_nat i) words),
        (drop (Z.to_nat ws) (drop (Z.to_nat i) words)).
      rewrite take_drop. rewrite take_drop. reflexivity.
    + unfold len in *. rewrite length_take, length_drop. lia.
  - intros [run [[before [after Hw]] [Hlen ->]]]. right.
    exists (len run), (len before). split; [|split].
    + apply elem_of_range. lia.
    + apply elem_of_range. subst words. unfold len.
      rewrite !length_app. lia.
    + f_equal. rewrite slice_in_range.
      * subst words. unfold len. rewrite !Nat2Z.id.
        rewrite drop_app_length. rewrite take_app_length. reflexivity.
      * unfold len. lia.
      * unfold len. lia.
      * subst words. unfold len. rewrite !length_app. lia.
Qed.

(** C4. For every word sequence and every [max_size >= 2],
    [find_combinations] returns exactly the set of the space-joined runs of
    2 to [max_size] consecutive words; on ["a"; "b"; "c"] and 3 it is
    {"a b", "b c", "a b c"}. *)
Theorem find_combinations_windows (words : list pystr) (max_size : Z) :
  2 <= max_size ->
  (forall s, s ∈ find_combinations words max_size
             <-> is_window words max_size s)
  /\ find_combinations [str "a"; str "b"; str "c"] 3
     = {[ str "a b"; str "b c"; str "a b c" ]}.
Proof.
  intros _. split.
  - intros s. apply find_combinations_elem.
  - vm_compute. reflexivity.
Qed.

Lemma find_combinations_windows_witness :
  2 <= 3
  /\ (forall s, s ∈ find_combinations [str "a"; str "b"; str "c"] 3
                <-> is_window [str "a"; str "b"; str "c"] 3 s)
  /\ find_combinations [str "a"; str "b"; str "c"] 3
     = {[ str "a b"; str "b c"; str "a b c" ]}.
Proof.
  split; [lia|].
  apply (find_combinations_windows [str "a"; str "b"; str "c"] 3). lia.
Defined.

(** ** Low-frequency words *)

Section WordFrequencyProperties.

Variable idx_google idx_norvig : gmap pystr (list Z).

(** [groupby] makes no empty group. *)
Hypothesis google_groups :
  map_Forall (fun _ rows => rows <> []) idx_google.
Hypothesis norvig_groups :
  map_Forall (fun _ rows => rows <> []) idx_norvig.

Lemma index_0_nonempty (rows : list Z) : rows <> [] -> is_Some (index rows 0).
Proof. destruct rows; [done|]. intros _. eexists. reflexivity. Qed.

Lemma is_low_freq_word_total (word : pystr) :
  is_Some (is_low_freq_word idx_google idx_norvig word).
Proof.
  unfold is_low_freq_word.
  destruct (idx_google !! word) as [rows|] eqn:Hg; [|by eexists].
  destruct (index_0_nonempty rows (google_groups _ _ Hg)) as [i ->]. simpl.
  destruct (idx_norvig !! word) as [rows'|] eqn:Hn; simpl.
  - destruct (index_0_nonempty rows' (norvig_groups _ _ Hn)) as [j ->].
    simpl. destruct (Qgtb _ _); by eexists.
  - destruct (Qgtb _ _); by eexists.
Qed.

Lemma is_low_freq_word_absent (word : pystr) :
  idx_google !! word = None ->
  is_low_freq_word idx_google idx_norvig word = Some true.
Proof. intros H. unfold is_low_freq_word. rewrite H. reflexivity. Qed.

(** C9. [find_low_freq_words] raises no exception, and every word whose
    lower-cased form is not in the large frequency list is in its
    output, lower-cased. *)
Theorem find_low_freq_words_absent (words : list pystr) :
  exists low_freq_words,
    find_low_freq_words idx_google idx_norvig words = Some low_freq_words
    /\ forall word, word ∈ words ->
                    idx_google !! lower word = None ->
                    lower word ∈ low_freq_words.
Proof.
  induction words as [|w words [out [Hout Hin]]]; simpl.
  - exists []. split; [reflexivity|]. intros word Hw. inversion Hw.
  - destruct (is_low_freq_word_total (lower w)) as [b Hb].
    rewrite Hb, Hout. simpl. eexists. split; [reflexivity|].
    intros word Hw Habs. apply elem_of_cons in Hw as [->|Hw].
    + rewrite is_low_freq_word_absent in Hb by exact Habs.
      injection Hb as <-. left.
    + specialize (Hin word Hw Habs). destruct b; [right|]; exact Hin.
Qed.

End WordFrequencyProperties.

Lemma sample_google_groups :
  map_Forall (fun _ (rows : list Z) => rows <> []) sample_google.
Proof.
  unfold sample_google.
  repeat (apply map_Forall_insert_2; [discriminate|]).
  apply map_Forall_empty.
Defined.

Lemma sample_norvig_groups :
  map_Forall (fun _ (rows : list Z) => rows <> []) sample_norvig.
Proof.
  unfold sample_norvig.
  repeat (apply map_Forall_insert_2; [discriminate|]).
  apply map_Forall_empty.
Defined.

Lemma find_low_freq_words_absent_witness :
  map_Forall (fun _ (rows : list Z) => rows <> []) sample_google
  /\ map_Forall (fun _ (rows : list Z) => rows <> []) sample_norvig
  /\ exists low_freq_words,
       find_low_freq_words sample_google sample_norvig
         [str "The"; str "Spectroscopy"] = Some low_freq_words
       /\ forall word, word ∈ [str "The"; str "Spectroscopy"] ->
                       sample_google !! lower word = None ->
                       lower word ∈ low_freq_words.
Proof.
  split; [exact sample_google_groups|].
  split; [exact sample_norvig_groups|].
  exact (find_low_freq_words_absent sample_google sample_norvig
           sample_google_groups sample_norvig_groups
           [str "The"; str "Spectroscopy"]).
Defined.

Example find_low_freq_words_sample :
  find_low_freq_words sample_google sample_norvig
    [str "The"; str "Spectroscopy"; str "of"; str "Bonsai"]
  = Some [str "spectroscopy"; str "bonsai"].
Proof. vm_compute. reflexivity. Qed.

(** ** The normalised title has no capital *)

Lemma span_spec (p : ascii -> bool) (s : pystr) :
  s = fst (span p s) ++ snd (span p s)
  /\ Forall (fun c => p c = true) (fst (span p s)).
Proof.
  induction s as [|c s [IHa IHb]]; simpl.
  - split; [reflexivity|constructor].
  - destruct (p c) eqn:Hc; [|split; [reflexivity|constructor]].
    destruct (span p s) as [run rest]. simpl in *. split.
    + f_equal. exact IHa.
    + constructor; assumption.
Qed.

Lemma span_length (p : ascii -> bool) (s run rest : pystr) :
  span p s = (run, rest) ->
  length s = (length run + length rest)%nat
  /\ Forall (fun c => p c = true) run.
Proof.
  intros H. pose proof (span_spec p s) as [H1 H2]. rewrite H in *. simpl in *.
  split; [|exact H2]. rewrite H1 at 1. apply length_app.
Qed.

(** A match of the pattern is made of letters and is not empty. *)
Lemma match_pascal_spec (s word rest : pystr) :
  match_pascal s = Some (word, rest) ->
  Forall (fun c => is_letter c = true) word
  /\ (length rest < length s)%nat.
Proof.
  unfold match_pascal.
  assert (Hlow : forall l, Forall (fun c => is_lower_az c = true) l ->
                           Forall (fun c => is_letter c = true) l).
  { intros l H. eapply Forall_impl; [exact H|]. intros c Hc. unfold is_letter. rewrite Hc. reflexivity. }
  assert (Hup : forall l, Forall (fun c => is_upper_AZ c = true) l ->
                          Forall (fun c => is_letter c = true) l).
  { intros l H. eapply Forall_impl; [exact H|]. intros c Hc. unfold is_letter. rewrite Hc. apply orb_true_r. }
  destruct s as [|c s']; [simpl; discriminate|].
  destruct (is_upper_AZ c) eqn:Hc.
  - destruct (span is_lower_az s') as [[|r run] rest'] eqn:Hsp.
    + cbn [mbind option_bind]. simpl. rewrite Hc.
      destruct (span is_upper_AZ s') as [run rest''] eqn:Hsu.
      apply span_length in Hsu as [Hlen Hall].
      destruct (at_end rest'').
      * intros [= <- <-]. split; [apply Hup; constructor; assumption|].
        simpl. lia.
      * destruct (rev (c :: run)) as [|lc [|c2 shorter]] eqn:Hrev;
          try discriminate.
        intros [= <- <-].
        assert (Hrun : c :: run = rev (c2 :: shorter) ++ [lc]).
        { rewrite <- (rev_involutive (c :: run)), Hrev. reflexivity. }
        split.
        -- apply Hup.
           assert (Hcr : Forall (fun c => is_upper_AZ c = true) (c :: run))
             by (constructor; assumption).
           rewrite Hrun in Hcr. apply Forall_app in Hcr as [Hcr _]. exact Hcr.
        -- apply (f_equal length) in Hrun.
           rewrite length_app, length_rev in Hrun. simpl in *. lia.
    + apply span_length in Hsp as [Hlen Hall]. simpl.
      intros [= <- <-]. split.
      * apply Forall_cons. split; [unfold is_letter; rewrite Hc; apply orb_true_r|apply Hlow, Hall].
      * simpl in *. lia.
  - destruct (span is_lower_az (c :: s')) as [[|r run] rest'] eqn:Hsp.
    + simpl. rewrite Hc. discriminate.
    + apply span_length in Hsp as [Hlen Hall].
      intros [= <- <-]. split; [apply Hlow, Hall|]. simpl in *. lia.
Qed.

Lemma findall_pascal_letters (fuel : nat) :
  forall s, Forall (Forall (fun c => is_letter c = true))
              (findall_pascal fuel s).
Proof.
  induction fuel as [|fuel IH]; intros s; simpl; [constructor|].
  destruct s as [|c s']; [constructor|].
  destruct (match_pascal (c :: s')) as [[word rest]|] eqn:Hm; [|apply IH].
  constructor; [|apply IH]. apply (match_pascal_spec _ _ _ Hm).
Qed.

(** More fuel than the length of the string changes nothing. *)
Lemma findall_pascal_fuel (n : nat) :
  forall m s, (length s <= n)%nat -> (length s <= m)%nat ->
              findall_pascal n s = findall_pascal m s.
Proof.
  induction n as [|n IH]; intros m s Hn Hm.
  - destruct s; [|simpl in Hn; lia]. destruct m; reflexivity.
  - destruct m as [|m]; [destruct s; [reflexivity|simpl in Hm; lia]|].
    simpl. destruct s as [|c s']; [reflexivity|].
    destruct (match_pascal (c :: s')) as [[word rest]|] eqn:Hmatch.
    + apply match_pascal_spec in Hmatch as [_ Hlt]. simpl in *.
      f_equal. apply IH; lia.
    + simpl in *. apply IH; lia.
Qed.

Lemma join_Forall (P : ascii -> Prop) (sep : pystr) (l : list pystr) :
  Forall P sep -> Forall (Forall P) l -> Forall P (join sep l).
Proof.
  intros Hsep Hl. induction Hl as [|w l Hw Hl IH]; simpl; [constructor|].
  destruct l as [|w' l]; [exact Hw|].
  apply Forall_app. split; [exact Hw|].
  apply Forall_app. split; [exact Hsep|exact IH].
Qed.

Lemma lower_char_small (c : ascii) :
  is_letter c = true \/ c = space -> small_or_space (lower_char c).
Proof.
  destruct c as [[] [] [] [] [] [] [] []]; vm_compute;
    intros [H|H]; try discriminate; auto.
Qed.

Lemma small_or_space_not_upper (c : ascii) :
  small_or_space c -> isupper c = false.
Proof.
  destruct c as [[] [] [] [] [] [] [] []]; vm_compute;
    intros [H|H]; try discriminate; auto.
Qed.

(** The normalised title is made of small ASCII letters and spaces. *)
Lemma searched_entity_small (entity : pystr) :
  Forall small_or_space (searched_entity_of entity).
Proof.
  unfold searched_entity_of, remove_char, lower, pascal_to_words.
  apply Forall_forall. intros c Hc.
  apply list_elem_of_filter in Hc as [_ Hc].
  apply list_elem_of_In, in_map_iff in Hc as [c' [<- Hc']].
  apply lower_char_small.
  assert (H : Forall (fun c => is_letter c = true \/ c = space)
                (join [space] (findall_pascal (length entity) entity))).
  { apply join_Forall.
    - constructor; [right; reflexivity|constructor].
    - eapply Forall_impl; [apply findall_pascal_letters|].
      intros w Hw. eapply Forall_impl; [exact Hw|].
      intros x Hx. left. exact Hx. }
  rewrite Forall_forall in H. apply H, list_elem_of_In, Hc'.
Qed.

(** ** The whole match is made of characters of the title *)

Lemma index_elem {A : Type} (l : list A) (i : Z) (x : A) :
  index l i = Some x -> x ∈ l.
Proof.
  unfold index. destruct (i <? 0).
  - destruct (len l + i <? 0); [discriminate|].
    intros H. eapply list_elem_of_lookup_2, H.
  - intros H. eapply list_elem_of_lookup_2, H.
Qed.

Lemma slice_Forall {A : Type} (P : A -> Prop) (l : list A) (a b : Z) :
  Forall P l -> Forall P (slice l a b).
Proof.
  intros H. unfold slice. apply Forall_take, Forall_drop, H.
Qed.

Lemma extend_left_Forall (P : ascii -> Prop) (full_string : pystr) :
  Forall P full_string ->
  forall start_idx substring whole,
    Forall P substring ->
    extend_left full_string start_idx substring = Some whole ->
    Forall P whole.
Proof.
  intros Hfull. induction start_idx as [|n IH]; simpl; intros sub whole Hsub.
  - intros [= <-]. exact Hsub.
  - destruct (full_string !! n) as [c|] eqn:Hc; [simpl|discriminate].
    destruct (is_separator c); [intros [= <-]; exact Hsub|].
    apply IH. constructor; [|exact Hsub].
    rewrite Forall_forall in Hfull. eapply Hfull, list_elem_of_lookup_2, Hc.
Qed.

Lemma extend_right_Forall (P : ascii -> Prop) (full_string : pystr) :
  Forall P full_string ->
  forall todo end_idx substring whole,
    Forall P substring ->
    extend_right todo full_string end_idx substring = Some whole ->
    Forall P whole.
Proof.
  intros Hfull. induction todo as [|n IH]; simpl;
    intros end_idx sub whole Hsub.
  - intros [= <-]. exact Hsub.
  - destruct (index full_string end_idx) as [c|] eqn:Hc; [simpl|discriminate].
    destruct (is_separator c); [intros [= <-]; exact Hsub|].
    apply IH. apply Forall_app. split; [exact Hsub|].
    constructor; [|constructor].
    rewrite Forall_forall in Hfull. eapply Hfull, index_elem, Hc.
Qed.

Lemma get_whole_match_Forall (P : ascii -> Prop) (m : Match)
    (full_string whole : pystr) :
  Forall P full_string ->
  get_whole_match m full_string = Some whole ->
  Forall P whole.
Proof.
  intros Hfull. unfold get_whole_match.
  destruct (extend_left _ _ _) as [sub|] eqn:Hleft; [simpl|discriminate].
  apply extend_right_Forall; [exact Hfull|].
  eapply extend_left_Forall; [exact Hfull| |exact Hleft].
  apply slice_Forall, Hfull.
Qed.

Lemma count_capitals_small (w : pystr) :
  Forall small_or_space w -> count_capitals w = 0.
Proof.
  intros H. unfold count_capitals, pystr.
  induction H as [|c w Hc _ IH]; [reflexivity|].
  rewrite filter_cons_False; [exact IH|].
  rewrite (small_or_space_not_upper c Hc). exact id.
Qed.

(** The whole match of a raw match in a normalised title has no capital. *)
Lemma whole_match_no_capital (entity : pystr) (m : Match) (whole : pystr) :
  get_whole_match m (searched_entity_of entity) = Some whole ->
  count_capitals whole = 0.
Proof.
  intros H. apply count_capitals_small.
  eapply get_whole_match_Forall; [apply searched_entity_small|exact H].
Qed.

(** ** The fuzzy search: cheap rejects *)

Section FuzzySearchProperties.

Variable find_near_matches : pystr -> pystr -> Z -> Z -> Z -> Z -> list Match.
Variable get_word_freq_index : pystr -> float.
Variable np_mean : list float -> float.
Variable banned : gset pystr.

Local Abbreviation cheap_reject_ :=
  (cheap_reject get_word_freq_index np_mean banned).
Local Abbreviation get_string_freq_ :=
  (get_string_freq get_word_freq_index np_mean).
Local Abbreviation accept_match_ := (accept_match get_word_freq_index np_mean).
Local Abbreviation search_entities_ :=
  (search_entities find_near_matches get_word_freq_index np_mean).
Local Abbreviation custom_fuzzy_search_ :=
  (custom_fuzzy_search find_near_matches get_word_freq_index np_mean banned).

Lemma custom_fuzzy_search_rejected to_search entities config :
  cheap_reject_ to_search = Some true ->
  custom_fuzzy_search_ to_search entities config = Some [].
Proof. intros H. unfold custom_fuzzy_search. rewrite H. reflexivity. Qed.

Lemma custom_fuzzy_search_not_rejected to_search entities config :
  cheap_reject_ to_search = Some false ->
  custom_fuzzy_search_ to_search entities config
  = search_entities_ to_search config entities.
Proof. intros H. unfold custom_fuzzy_search. rewrite H. reflexivity. Qed.

Lemma cheap_reject_short to_search :
  len to_search < 8 -> cheap_reject_ to_search = Some true.
Proof.
  intros H. unfold cheap_reject.
  destruct (Z.ltb_spec (len to_search) 8); [reflexivity|lia].
Qed.

Lemma cheap_reject_banned to_search fraction :
  banned_fraction banned to_search = Some fraction ->
  (4 # 10 <= fraction)%Q ->
  cheap_reject_ to_search = Some true.
Proof.
  intros Hf Hle. unfold cheap_reject.
  destruct (len to_search <? 8); [reflexivity|].
  rewrite Hf. simpl. apply Qle_bool_iff in Hle. rewrite Hle. reflexivity.
Qed.

(** A phrase whose mean frequency index is a number has a word. *)
Lemma banned_fraction_defined to_search :
  float_lt (get_string_freq_ to_search) float_0_04 = true ->
  is_Some (banned_fraction banned to_search).
Proof.
  unfold get_string_freq, banned_fraction.
  destruct (split to_search); [intros H; vm_compute in H; discriminate|].
  intros _. by eexists.
Qed.

Lemma cheap_reject_common to_search :
  float_lt (get_string_freq_ to_search) float_0_04 = true ->
  cheap_reject_ to_search = Some true.
Proof.
  intros H. destruct (banned_fraction_defined _ H) as [f Hf].
  unfold cheap_reject. destruct (len to_search <? 8); [reflexivity|].
  rewrite Hf. simpl. destruct (Qle_bool (4 # 10) f); [reflexivity|].
  rewrite H. reflexivity.
Qed.

Lemma cheap_reject_pass to_search fraction :
  8 <= len to_search ->
  banned_fraction banned to_search = Some fraction ->
  (fraction < 4 # 10)%Q ->
  float_lt (get_string_freq_ to_search) float_0_04 = false ->
  cheap_reject_ to_search = Some false.
Proof.
  intros Hlen Hf Hlt Hfreq. unfold cheap_reject.
  destruct (Z.ltb_spec (len to_search) 8); [lia|].
  rewrite Hf. simpl. destruct (Qle_bool (4 # 10) fraction) eqn:Hb.
  - apply Qle_bool_iff in Hb. apply Qlt_not_le in Hlt. contradiction.
  - rewrite Hfreq. reflexivity.
Qed.

(** C5, as the code has it. [custom_fuzzy_search] returns the empty list,
    whatever the titles, when the candidate has fewer than 8 characters,
    or when the fraction of its words that are banned words is 0.4 or
    more, or when its mean frequency index, the float that [numpy]
    computes, is below the float 0.04; a candidate of 8 characters or more
    whose fraction of banned words is below 0.4 and whose mean frequency
    index is not below the float 0.04 goes on to the search of the
    titles. *)
Theorem custom_fuzzy_search_cheap_rejects to_search entities config :
  (len to_search < 8 ->
   custom_fuzzy_search_ to_search entities config = Some [])
  /\ (forall fraction,
         banned_fraction banned to_search = Some fraction ->
         (4 # 10 <= fraction)%Q ->
         custom_fuzzy_search_ to_search entities config = Some [])
  /\ (float_lt (get_string_freq_ to_search) float_0_04 = true ->
      custom_fuzzy_search_ to_search entities config = Some [])
  /\ (forall fraction,
         8 <= len to_search ->
         banned_fraction banned to_search = Some fraction ->
         (fraction < 4 # 10)%Q ->
         float_lt (get_string_freq_ to_search) float_0_04 = false ->
         cheap_reject_ to_search = Some false
         /\ custom_fuzzy_search_ to_search entities config
            = search_entities_ to_search config entities).
Proof.
  split; [|split; [|split]].
  - intros H. apply custom_fuzzy_search_rejected, cheap_reject_short, H.
  - intros f Hf Hle. apply custom_fuzzy_search_rejected.
    eapply cheap_reject_banned; eassumption.
  - intros H. apply custom_fuzzy_search_rejected, cheap_reject_common, H.
  - intros f Hlen Hf Hlt Hfreq.
    pose proof (cheap_reject_pass _ _ Hlen Hf Hlt Hfreq) as Hpass.
    split; [exact Hpass|].
    apply custom_fuzzy_search_not_rejected, Hpass.
Qed.

(** ** The fuzzy search: where the ids come from *)

Lemma accept_match_anchored to_search searched_entity m :
  accept_match_ to_search searched_entity m = Some true ->
  anchored searched_entity m.
Proof.
  unfold accept_match, anchored.
  destruct (get_whole_match m searched_entity) as [w|]; [simpl|discriminate].
  destruct (_ >=? 2); [discriminate|].
  destruct (_ && _); [discriminate|].
  destruct (_ && _); [discriminate|].
  destruct (Z.eqb_spec (m_start m) 0) as [H0|H0]; simpl; [auto|].
  destruct (index searched_entity (m_start m - 1)) as [c|];
    [simpl|discriminate].
  destruct (Ascii.eqb c space) eqn:Hc; simpl; [|discriminate].
  apply Ascii.eqb_eq in Hc. subst c. auto.
Qed.

Lemma accept_match_whole_match to_search searched_entity m :
  accept_match_ to_search searched_entity m = Some true ->
  exists whole_match,
    get_whole_match m searched_entity = Some whole_match
    /\ (contains space whole_match = true
        \/ 2 <= count_capitals whole_match).
Proof.
  unfold accept_match.
  destruct (get_whole_match m searched_entity) as [w|]; [simpl|discriminate].
  intros H. exists w. split; [reflexivity|].
  destruct (_ >=? 2); [discriminate|].
  destruct (_ && _); [discriminate|].
  destruct (contains space w); [auto|]. simpl in H.
  destruct (Z.ltb_spec (count_capitals w) 2); [discriminate|auto].
Qed.

Lemma accepted_matches_elem to_search searched_entity idx ms :
  forall ids,
    accepted_matches get_word_freq_index np_mean to_search searched_entity
      idx ms = Some ids ->
    forall i, i ∈ ids ->
      i = idx /\ exists m, m ∈ ms
                  /\ accept_match_ to_search searched_entity m = Some true.
Proof.
  induction ms as [|m ms IH]; simpl; intros ids Hids i Hi.
  - injection Hids as <-. inversion Hi.
  - destruct (accept_match_ to_search searched_entity m) as [ok|] eqn:Hok;
      [simpl in Hids|discriminate].
    destruct (accepted_matches _ _ _ _ _ ms) as [rest|];
      [simpl in Hids|discriminate].
    injection Hids as <-. specialize (IH rest eq_refl).
    destruct ok.
    + apply elem_of_cons in Hi as [->|Hi].
      * split; [reflexivity|]. exists m. split; [left|exact Hok].
      * destruct (IH i Hi) as [-> [m' [Hm' Hacc]]].
        split; [reflexivity|]. exists m'. split; [right; exact Hm'|exact Hacc].
    + destruct (IH i Hi) as [-> [m' [Hm' Hacc]]].
      split; [reflexivity|]. exists m'. split; [right; exact Hm'|exact Hacc].
Qed.

(** Every id of the result is the index of a title with an accepted raw
    match. *)
Lemma custom_fuzzy_search_elem to_search entities config ids :
  custom_fuzzy_search_ to_search entities config = Some ids ->
  forall idx, idx ∈ ids ->
    exists entity m,
      (idx, Text entity) ∈ entities
      /\ m ∈ near_matches find_near_matches to_search config entity
      /\ accept_match_ to_search (searched_entity_of entity) m = Some true.
Proof.
  unfold custom_fuzzy_search.
  destruct (cheap_reject_ to_search) as [[|]|]; simpl; [| |discriminate].
  { intros [= <-] idx Hidx. inversion Hidx. }
  revert ids. induction entities as [|[i e] entities IH]; simpl;
    intros ids Hids idx Hidx.
  - injection Hids as <-. inversion Hidx.
  - destruct e as [e|other]; [simpl in Hids|discriminate].
    destruct (accepted_matches _ _ _ _ _ _) as [here|] eqn:Hhere;
      [simpl in Hids|discriminate].
    destruct (search_entities_ to_search config entities) as [more|];
      [simpl in Hids|discriminate].
    injection Hids as <-. apply elem_of_app in Hidx as [Hidx|Hidx].
    + destruct (accepted_matches_elem _ _ _ _ _ Hhere _ Hidx)
        as [-> [m [Hm Hacc]]].
      exists e, m. split; [left|]. split; assumption.
    + destruct (IH more eq_refl idx Hidx) as [e' [m [He' H]]].
      exists e', m. split; [right; exact He'|exact H].
Qed.

(** C8. Every id returned by [custom_fuzzy_search] comes from a raw match
    that passed the filters and starts at position 0 of the normalised
    title or right after a space; a raw match that starts elsewhere does
    not pass the filters. *)
Theorem custom_fuzzy_search_start_of_word to_search entities config ids :
  custom_fuzzy_search_ to_search entities config = Some ids ->
  (forall idx, idx ∈ ids ->
     exists entity m,
       (idx, Text entity) ∈ entities
       /\ m ∈ near_matches find_near_matches to_search config entity
       /\ accept_match_ to_search (searched_entity_of entity) m = Some true
       /\ anchored (searched_entity_of entity) m)
  /\ (forall searched_entity m,
        ~ anchored searched_entity m ->
        accept_match_ to_search searched_entity m <> Some true).
Proof.
  intros Hids. split.
  - intros idx Hidx.
    destruct (custom_fuzzy_search_elem _ _ _ _ Hids idx Hidx)
      as [e [m [He [Hm Hacc]]]].
    exists e, m. repeat split; try assumption.
    eapply accept_match_anchored, Hacc.
  - intros se m Hna Hacc. apply Hna.
    eapply accept_match_anchored, Hacc.
Qed.

(** ** The fuzzy search: single words *)

Lemma accept_match_single_word to_search entity m whole :
  get_whole_match m (searched_entity_of entity) = Some whole ->
  contains space whole = false ->
  accept_match_ to_search (searched_entity_of entity) m = Some false.
Proof.
  intros Hw Hsp. unfold accept_match. rewrite Hw. simpl.
  destruct (_ >=? 2); [reflexivity|].
  destruct (_ && _); [reflexivity|].
  rewrite Hsp, (whole_match_no_capital _ _ _ Hw). reflexivity.
Qed.

(** C10. The whole match of a raw match in a normalised title has no
    capital letter, so the exemption of the single-word filter never
    applies: every id returned by [custom_fuzzy_search] comes from a raw
    match whose whole match contains a space, and a raw match whose whole
    match is a single word is rejected. *)
Theorem custom_fuzzy_search_no_single_word to_search entities config ids :
  custom_fuzzy_search_ to_search entities config = Some ids ->
  (forall entity m whole,
      get_whole_match m (searched_entity_of entity) = Some whole ->
      count_capitals whole = 0)
  /\ (forall idx, idx ∈ ids ->
        exists entity m whole,
          (idx, Text entity) ∈ entities
          /\ m ∈ near_matches find_near_matches to_search config entity
          /\ accept_match_ to_search (searched_entity_of entity) m
             = Some true
          /\ get_whole_match m (searched_entity_of entity) = Some whole
          /\ contains space whole = true)
  /\ (forall entity m whole,
        get_whole_match m (searched_entity_of entity) = Some whole ->
        contains space whole = false ->
        accept_match_ to_search (searched_entity_of entity) m = Some false).
Proof.
  intros Hids. split; [|split].
  - apply whole_match_no_capital.
  - intros idx Hidx.
    destruct (custom_fuzzy_search_elem _ _ _ _ Hids idx Hidx)
      as [e [m [He [Hm Hacc]]]].
    destruct (accept_match_whole_match _ _ _ Hacc) as [w [Hw Hsp]].
    exists e, m, w. repeat split; try assumption.
    destruct Hsp as [Hsp|Hcap]; [exact Hsp|].
    rewrite (whole_match_no_capital _ _ _ Hw) in Hcap. lia.
  - intros entity m whole. apply accept_match_single_word.
Qed.

End FuzzySearchProperties.

(** ** The cap on the number of matches *)

Lemma choice_elem {A : Type} (g g' : rng) (seq : list A) (x : A) :
  choice g seq = (Some x, g') -> x ∈ seq.
Proof.
  unfold choice. intros H. apply (f_equal fst) in H. simpl in H.
  eapply list_elem_of_lookup_2, H.
Qed.

Lemma choice_nonempty {A : Type} (g : rng) (seq : list A) :
  seq <> [] -> exists x, choice g seq = (Some x, fun i => g (S i)).
Proof.
  intros Hne. unfold choice.
  destruct (lookup_lt_is_Some_2 seq (g 0%nat mod length seq)%nat) as [x Hx].
  - apply Nat.mod_upper_bound. destruct seq; [done|simpl; lia].
  - exists x. rewrite Hx. reflexivity.
Qed.

Lemma dict_pop_shorter {V : Type} (k : cell) (d : dict V) :
  k ∈ keys d -> (length (dict_pop k d) < length d)%nat.
Proof.
  intros Hk. unfold keys in Hk.
  apply list_elem_of_In, in_map_iff in Hk as [[k' v] [Hfst Hin]].
  simpl in Hfst. subst k'. unfold dict_pop, dict.
  apply (length_filter_lt _ _ (k, v)).
  - apply list_elem_of_In, Hin.
  - simpl. intros H. apply H. reflexivity.
Qed.

Lemma dict_pop_sublist {V : Type} (k : cell) (d : dict V) :
  dict_pop k d `sublist_of` d.
Proof. unfold dict_pop, dict. apply sublist_filter. Qed.

(** The loop stops with at most [max_keys] entries. *)
Lemma remove_loop_cap {V : Type} (max_keys : Z) (fuel : nat) :
  forall (d d' : dict V) (g g' : rng),
    len d <= max_keys + Z.of_nat fuel ->
    remove_loop fuel d max_keys g = Some (d', g') ->
    len d' <= max_keys.
Proof.
  induction fuel as [|fuel IH]; cbn [remove_loop]; intros d d' g g' Hlen.
  - intros [= <- <-]. lia.
  - destruct (Z.gtb_spec (len d) max_keys) as [Hgt|Hle].
    + destruct (choice g (keys d)) as [[k|] g1] eqn:Hch; [|discriminate].
      apply IH. apply choice_elem, dict_pop_shorter in Hch.
      unfold len in *. lia.
    + intros [= <- <-]. exact Hle.
Qed.

(** The loop keeps entries of the dictionary, in their order. *)
Lemma remove_loop_sublist {V : Type} (max_keys : Z) (fuel : nat) :
  forall (d d' : dict V) (g g' : rng),
    remove_loop fuel d max_keys g = Some (d', g') ->
    d' `sublist_of` d.
Proof.
  induction fuel as [|fuel IH]; cbn [remove_loop]; intros d d' g g'.
  - intros [= <- <-]. reflexivity.
  - destruct (len d >? max_keys).
    + destruct (choice g (keys d)) as [[k|] g1]; [|discriminate].
      intros H. etrans; [eapply IH, H|apply dict_pop_sublist].
    + intros [= <- <-]. reflexivity.
Qed.

(** With a cap that is not negative the loop raises no exception. *)
Lemma remove_loop_total {V : Type} (max_keys : Z) (fuel : nat) :
  0 <= max_keys ->
  forall (d : dict V) (g : rng), is_Some (remove_loop fuel d max_keys g).
Proof.
  intros Hmax. induction fuel as [|fuel IH]; cbn [remove_loop]; intros d g.
  - by eexists.
  - destruct (Z.gtb_spec (len d) max_keys) as [Hgt|Hle]; [|by eexists].
    destruct (choice_nonempty g (keys d)) as [k Hk].
    + destruct d; [unfold len in Hgt; simpl in Hgt; lia|discriminate].
    + rewrite Hk. apply IH.
Qed.

(** A dictionary within the cap is returned as it is, and no value is
    drawn. *)
Lemma remove_random_within_cap {V : Type} (d : dict V) (max_keys : Z)
    (g : rng) :
  len d <= max_keys ->
  remove_random_false_positives d max_keys g = Some (d, g).
Proof.
  intros Hle. unfold remove_random_false_positives.
  destruct (length d) as [|n] eqn:Hn; cbn [remove_loop]; [reflexivity|].
  destruct (Z.gtb_spec (len d) max_keys); [lia|reflexivity].
Qed.

Section CustomDataProperties.

Variable find_near_matches : pystr -> pystr -> Z -> Z -> Z -> Z -> list Match.
Variable get_word_freq_index : pystr -> float.
Variable np_mean : list float -> float.
Variable set_order : gset pystr -> list pystr.
Variable self : ContextualSearchEngine.

Local Abbreviation uncapped_matches_ :=
  (uncapped_matches find_near_matches get_word_freq_index np_mean set_order
     self).
Local Abbreviation fuzzy_search_ :=
  (fuzzy_search_on_user_custom_data find_near_matches get_word_freq_index
     np_mean set_order self).

(** C7. The dictionary returned by [fuzzy_search_on_user_custom_data] has
    at most 4 entries. *)
Theorem fuzzy_search_at_most_four user_id talk g matches g' :
  fuzzy_search_ user_id talk g = Some (matches, g') ->
  len matches <= 4.
Proof.
  unfold fuzzy_search_on_user_custom_data.
  destruct (does_user_have_custom_data_loaded self user_id); simpl.
  - destruct (uncapped_matches_ user_id talk) as [d|]; [simpl|discriminate].
    unfold remove_random_false_positives. apply remove_loop_cap.
    unfold unreasonable_num, len. lia.
  - intros [= <- <-]. unfold len. simpl. lia.
Qed.

(** The cap itself raises no exception. *)
Lemma fuzzy_search_returns user_id talk g uncapped :
  uncapped_matches_ user_id talk = Some uncapped ->
  is_Some (fuzzy_search_ user_id talk g).
Proof.
  intros H. unfold fuzzy_search_on_user_custom_data.
  destruct (does_user_have_custom_data_loaded self user_id); simpl;
    [|by eexists].
  rewrite H. simpl. apply remove_loop_total. unfold unreasonable_num. lia.
Qed.

(** C6, as the code has it. For a user with custom data, the matches
    gathered before the cap do not depend on the random generator. When
    they are at most 4, every invocation returns them unchanged and draws
    nothing; in all cases the result is made of at most 4 of these
    entries, in their order, picked by the draws of the generator. *)
Theorem fuzzy_search_deterministic_within_cap user_id talk uncapped :
  does_user_have_custom_data_loaded self user_id = true ->
  uncapped_matches_ user_id talk = Some uncapped ->
  (len uncapped <= unreasonable_num ->
   forall g, fuzzy_search_ user_id talk g = Some (uncapped, g))
  /\ (forall g, exists matches g',
         fuzzy_search_ user_id talk g = Some (matches, g')
         /\ matches `sublist_of` uncapped
         /\ len matches <= unreasonable_num).
Proof.
  intros Hloaded Hunc. split.
  - intros Hle g. unfold fuzzy_search_on_user_custom_data.
    rewrite Hloaded, Hunc. simpl. apply remove_random_within_cap, Hle.
  - intros g. destruct (fuzzy_search_returns user_id talk g _ Hunc)
      as [[matches g'] Hres].
    exists matches, g'. split; [exact Hres|].
    unfold fuzzy_search_on_user_custom_data in Hres.
    rewrite Hloaded, Hunc in Hres. simpl in Hres. split.
    + eapply remove_loop_sublist, Hres.
    + eapply remove_loop_cap; [|exact Hres].
  unfold unreasonable_num, len. lia.
Qed.

(** Without custom data the result is the empty dictionary. *)
Lemma fuzzy_search_no_data user_id talk g :
  does_user_have_custom_data_loaded self user_id = false ->
  fuzzy_search_ user_id talk g = Some ([], g).
Proof.
  intros H. unfold fuzzy_search_on_user_custom_data. rewrite H. reflexivity.
Qed.

End CustomDataProperties.

(** ** The properties on the search scenarios *)

Lemma custom_fuzzy_search_cheap_rejects_witness :
  custom_fuzzy_search exact_matcher all_rare simple_mean
    sample_banned_words (str "the") tips_entities default_config = Some []
  /\ custom_fuzzy_search exact_matcher all_rare simple_mean
       sample_banned_words (str "the fedora and tips") tips_entities
       default_config = Some []
  /\ custom_fuzzy_search exact_matcher all_common simple_mean
       sample_banned_words (str "fedora tip") tips_entities default_config
     = Some []
  /\ (cheap_reject all_rare simple_mean sample_banned_words
        (str "fedora tip") = Some false
      /\ custom_fuzzy_search exact_matcher all_rare simple_mean
           sample_banned_words (str "fedora tip") tips_entities
           default_config
         = search_entities exact_matcher all_rare simple_mean
             (str "fedora tip") default_config tips_entities).
Proof.
  split; [|split; [|split]].
  - apply (proj1 (custom_fuzzy_search_cheap_rejects exact_matcher all_rare
             simple_mean sample_banned_words (str "the") tips_entities
             default_config)).
    vm_compute. reflexivity.
  - apply (proj1 (proj2 (custom_fuzzy_search_cheap_rejects exact_matcher
             all_rare simple_mean sample_banned_words
             (str "the fedora and tips") tips_entities default_config))
             (2 # 4)).
    + vm_compute. reflexivity.
    + vm_compute. discriminate.
  - apply (proj1 (proj2 (proj2 (custom_fuzzy_search_cheap_rejects
             exact_matcher all_common simple_mean sample_banned_words
             (str "fedora tip") tips_entities default_config)))).
    vm_compute. reflexivity.
  - apply (proj2 (proj2 (proj2 (custom_fuzzy_search_cheap_rejects
             exact_matcher all_rare simple_mean sample_banned_words
             (str "fedora tip") tips_entities default_config))) (0 # 2)).
    + vm_compute. discriminate.
    + vm_compute. reflexivity.
    + vm_compute. reflexivity.
    + vm_compute. reflexivity.
Defined.

(** C5, as the specification words it, fails: the candidate
    "the quick fox and hound" has 23 characters, its fraction of banned
    words is exactly 0.4 and its mean frequency index is not below 0.04,
    and it is rejected before any title is searched. *)
Lemma banned_fraction_of_two_fifths_rejected :
  8 <= len two_banned_of_five
  /\ (exists fraction,
         banned_fraction sample_banned_words two_banned_of_five = Some fraction
         /\ (fraction == 4 # 10)%Q)
  /\ float_lt (get_string_freq all_rare simple_mean two_banned_of_five)
       float_0_04 = false
  /\ cheap_reject all_rare simple_mean sample_banned_words two_banned_of_five
     = Some true
  /\ forall find_near_matches entities config,
       custom_fuzzy_search find_near_matches all_rare simple_mean
         sample_banned_words two_banned_of_five entities config = Some [].
Proof.
  split; [vm_compute; discriminate|].
  split; [exists (2 # 5); split; [vm_compute; reflexivity|reflexivity]|].
  split; [vm_compute; reflexivity|].
  split; [vm_compute; reflexivity|].
  intros fnm entities config. apply custom_fuzzy_search_rejected.
  vm_compute. reflexivity.
Qed.

(** The thresholds are compared as floats. The mean of the floats
    0.06779469895497861 and 0.012205301045021386 is the float 0.04, which
    is not below 0.04: the candidate is not rejected. A whole match whose
    words all have the float 0.06 as their index is not below 0.06: a raw
    match of distance 2 is accepted. *)
Example mean_at_threshold_not_rejected :
  get_string_freq at_threshold_index simple_mean (str "fedora tip")
  = float_0_04
  /\ cheap_reject at_threshold_index simple_mean sample_banned_words
       (str "fedora tip") = Some false
  /\ accept_match (fun _ => float_0_06) simple_mean (str "fedora tip")
       (str "fedora tips and tricks") (MkMatch 0 10 2) = Some true.
Proof. vm_compute. repeat split; reflexivity. Qed.

Lemma custom_fuzzy_search_start_of_word_witness :
  custom_fuzzy_search exact_matcher all_rare simple_mean sample_banned_words
    (str "fedora tip") tips_entities default_config = Some [0]
  /\ (forall idx, idx ∈ [0] ->
        exists entity m,
          (idx, Text entity) ∈ tips_entities
          /\ m ∈ near_matches exact_matcher (str "fedora tip") default_config
                 entity
          /\ accept_match all_rare simple_mean (str "fedora tip")
               (searched_entity_of entity) m = Some true
          /\ anchored (searched_entity_of entity) m)
  /\ (forall searched_entity m,
        ~ anchored searched_entity m ->
        accept_match all_rare simple_mean (str "fedora tip") searched_entity m
        <> Some true).
Proof.
  assert (H : custom_fuzzy_search exact_matcher all_rare simple_mean
                sample_banned_words (str "fedora tip") tips_entities
                default_config = Some [0])
    by (vm_compute; reflexivity).
  split; [exact H|].
  exact (custom_fuzzy_search_start_of_word exact_matcher all_rare simple_mean
           sample_banned_words (str "fedora tip") tips_entities
           default_config [0] H).
Defined.

(** A raw match that starts inside a word is dropped: "edora tips" occurs
    in "fedora tips and tricks" at position 1. *)
Example mid_word_match_dropped :
  near_matches exact_matcher (str "edora tips") default_config
    (str "Fedora Tips and Tricks") = [MkMatch 1 11 0]
  /\ custom_fuzzy_search exact_matcher all_rare simple_mean
       sample_banned_words (str "edora tips") tips_entities default_config
     = Some [].
Proof. vm_compute. split; reflexivity. Qed.

Lemma custom_fuzzy_search_no_single_word_witness :
  custom_fuzzy_search exact_matcher all_rare simple_mean sample_banned_words
    (str "fedora tip") tips_entities default_config = Some [0]
  /\ (forall entity m whole,
        get_whole_match m (searched_entity_of entity) = Some whole ->
        count_capitals whole = 0)
  /\ (forall idx, idx ∈ [0] ->
        exists entity m whole,
          (idx, Text entity) ∈ tips_entities
          /\ m ∈ near_matches exact_matcher (str "fedora tip") default_config
                 entity
          /\ accept_match all_rare simple_mean (str "fedora tip")
               (searched_entity_of entity) m = Some true
          /\ get_whole_match m (searched_entity_of entity) = Some whole
          /\ contains space whole = true)
  /\ (forall entity m whole,
        get_whole_match m (searched_entity_of entity) = Some whole ->
        contains space whole = false ->
        accept_match all_rare simple_mean (str "fedora tip")
          (searched_entity_of entity) m
        = Some false).
Proof.
  assert (H : custom_fuzzy_search exact_matcher all_rare simple_mean
                sample_banned_words (str "fedora tip") tips_entities
                default_config = Some [0])
    by (vm_compute; reflexivity).
  split; [exact H|].
  exact (custom_fuzzy_search_no_single_word exact_matcher all_rare
           simple_mean sample_banned_words (str "fedora tip") tips_entities
           default_config [0] H).
Defined.

(** A PascalCase title is split and lower-cased before the search, so a
    candidate that names it as one word is rejected as a single word. *)
Example pascal_case_title_single_word :
  searched_entity_of (str "FedoraTips") = str "fedora tips"
  /\ custom_fuzzy_search exact_matcher all_rare simple_mean
       sample_banned_words (str "fedoratips")
       (enumerate [Text (str "FedoraTips")]) default_config
     = Some [].
Proof. vm_compute. split; reflexivity. Qed.

Lemma fuzzy_search_at_most_four_witness :
  exists matches g',
    fuzzy_search_on_user_custom_data exact_matcher all_rare simple_mean
      elements sample_engine "u" sample_talk (constant_rng 0)
    = Some (matches, g')
    /\ len matches <= 4.
Proof.
  destruct (fuzzy_search_on_user_custom_data exact_matcher all_rare
              simple_mean elements sample_engine "u" sample_talk
              (constant_rng 0))
    as [[matches g']|] eqn:H.
  - exists matches, g'. split; [reflexivity|].
    exact (fuzzy_search_at_most_four exact_matcher all_rare simple_mean
             elements sample_engine "u" sample_talk (constant_rng 0) matches
             g' H).
  - vm_compute in H. discriminate H.
Defined.

Lemma fuzzy_search_deterministic_within_cap_witness :
  exists uncapped,
    does_user_have_custom_data_loaded sample_engine "u" = true
    /\ uncapped_matches exact_matcher all_rare simple_mean elements
         sample_engine "u" short_talk = Some uncapped
    /\ len uncapped <= unreasonable_num
    /\ (forall g,
           fuzzy_search_on_user_custom_data exact_matcher all_rare
             simple_mean elements sample_engine "u" short_talk g
           = Some (uncapped, g)).
Proof.
  eexists. split; [vm_compute; reflexivity|].
  split; [vm_compute; reflexivity|].
  split; [vm_compute; discriminate|].
  apply (fuzzy_search_deterministic_within_cap exact_matcher all_rare
           simple_mean elements sample_engine "u" short_talk).
  - vm_compute. reflexivity.
  - vm_compute. reflexivity.
  - vm_compute. discriminate.
Defined.

(** C6, as the specification words it, fails: on the sample catalog and a
    text that names its five titles, the invocation whose draws are all 0
    discards "Fedora Tips" and the invocation whose draws are all 1
    discards "Velvet Anchor". *)
Lemma random_discard_depends_on_draws :
  let run g :=
    fuzzy_search_on_user_custom_data exact_matcher all_rare simple_mean
      elements sample_engine "u" sample_talk g in
  (keys ∘ fst) <$> run (constant_rng 0)
  = Some [Text (str "Velvet Anchor"); Text (str "Silent Harbor");
          Text (str "Copper Lantern"); Text (str "Quantum Garden")]
  /\ (keys ∘ fst) <$> run (constant_rng 1)
     = Some [Text (str "Fedora Tips"); Text (str "Silent Harbor");
             Text (str "Copper Lantern"); Text (str "Quantum Garden")]
  /\ fst <$> run (constant_rng 0) <> fst <$> run (constant_rng 1).
Proof.
  split; [vm_compute; reflexivity|].
  split; [vm_compute; reflexivity|].
  vm_compute. discriminate.
Qed.

(** * Part III: further properties of the code *)

(** ** Splitting and stripping *)

Lemma split_go_words (s : pystr) :
  forall cur, Forall (fun c => isspace c = false) cur ->
              Forall is_word (split_go cur s).
Proof.
  induction s as [|c s IH]; intros cur Hcur; simpl.
  - destruct cur as [|x cur]; [constructor|].
    constructor; [|constructor]. split.
    + intros H. apply (f_equal (@length ascii)) in H.
      rewrite length_rev in H. discriminate.
    + apply Forall_rev, Hcur.
  - destruct (isspace c) eqn:Hc.
    + destruct cur as [|x cur]; [apply IH; constructor|].
      constructor; [|apply IH; constructor]. split.
      * intros H. apply (f_equal (@length ascii)) in H.
        rewrite length_rev in H. discriminate.
      * apply Forall_rev, Hcur.
    + apply IH. constructor; assumption.
Qed.

Lemma split_words (s : pystr) : Forall is_word (split s).
Proof. apply split_go_words. constructor. Qed.

Lemma split_go_run (w : pystr) :
  Forall (fun c => isspace c = false) w ->
  forall cur rest, split_go cur (w ++ rest) = split_go (rev w ++ cur) rest.
Proof.
  induction 1 as [|c w Hc Hw IH]; intros cur rest; simpl; [reflexivity|].
  rewrite Hc, IH. rewrite <- app_assoc. reflexivity.
Qed.

Lemma split_go_word_end (w : pystr) :
  is_word w -> split_go [] w = [w].
Proof.
  intros [Hne Hw]. rewrite <- (app_nil_r w) at 1.
  rewrite (split_go_run w Hw), app_nil_r. simpl.
  destruct (rev w) as [|x r] eqn:Hr.
  - apply (f_equal (@rev ascii)) in Hr. rewrite rev_involutive in Hr. done.
  - rewrite <- Hr, rev_involutive. reflexivity.
Qed.

Lemma split_go_word_space (w rest : pystr) :
  is_word w -> split_go [] (w ++ space :: rest) = w :: split_go [] rest.
Proof.
  intros [Hne Hw]. rewrite (split_go_run w Hw), app_nil_r. simpl.
  destruct (rev w) as [|x r] eqn:Hr.
  - apply (f_equal (@rev ascii)) in Hr. rewrite rev_involutive in Hr. done.
  - rewrite <- Hr, rev_involutive. reflexivity.
Qed.

(** Splitting the space-joined words gives the words back. *)
Lemma split_join (ws : list pystr) :
  Forall is_word ws -> split (join [space] ws) = ws.
Proof.
  unfold split. induction 1 as [|w ws Hw Hws IH]; [reflexivity|].
  destruct ws as [|w' ws].
  - simpl. apply split_go_word_end, Hw.
  - change (join [space] (w :: w' :: ws))
      with (w ++ space :: join [space] (w' :: ws)).
    rewrite (split_go_word_space _ _ Hw), IH. reflexivity.
Qed.

Lemma lstrip_head (s : pystr) :
  forall c r, lstrip s = c :: r -> isspace c = false.
Proof.
  induction s as [|x s IH]; intros c r; simpl; [discriminate|].
  destruct (isspace x) eqn:Hx; [apply IH|].
  intros [= <- <-]. exact Hx.
Qed.

Lemma lstrip_id (s : pystr) :
  (forall c r, s = c :: r -> isspace c = false) -> lstrip s = s.
Proof.
  destruct s as [|x s]; [reflexivity|]. intros H. simpl.
  rewrite (H x s eq_refl). reflexivity.
Qed.

Lemma lstrip_suffix (s : pystr) : exists ws, s = ws ++ lstrip s.
Proof.
  induction s as [|x s [ws IH]]; [exists []; reflexivity|]. simpl.
  destruct (isspace x); [|exists []; reflexivity].
  exists (x :: ws). simpl. f_equal. exact IH.
Qed.

Lemma last_char_rev (s r : pystr) (c : ascii) :
  s = r ++ [c] -> rev s = c :: rev r.
Proof. intros ->. rewrite rev_app_distr. reflexivity. Qed.

(** The end of a string is not touched by [lstrip], unless the string is
    all whitespace. *)
Lemma lstrip_last (s r : pystr) (c : ascii) :
  lstrip s = r ++ [c] -> exists r', s = r' ++ [c].
Proof.
  intros H. destruct (lstrip_suffix s) as [ws Hs].
  exists (ws ++ r). rewrite Hs at 1. rewrite H, app_assoc. reflexivity.
Qed.

Lemma strip_is_stripped (s : pystr) : is_stripped (strip s).
Proof.
  unfold strip, rstrip. split.
  - intros c r H.
    assert (Hrev : rev (lstrip (rev (lstrip s))) = c :: r) by exact H.
    apply (f_equal (@rev ascii)) in Hrev. rewrite rev_involutive in Hrev.
    simpl in Hrev. apply lstrip_last in Hrev as [r' Hr'].
    apply (f_equal (@rev ascii)) in Hr'.
    rewrite rev_involutive, rev_app_distr in Hr'. simpl in Hr'.
    eapply lstrip_head, Hr'.
  - intros c r H.
    assert (Hrev : rev (lstrip (rev (lstrip s))) = r ++ [c]) by exact H.
    apply (f_equal (@rev ascii)) in Hrev.
    rewrite rev_involutive, rev_app_distr in Hrev. simpl in Hrev.
    eapply lstrip_head, Hrev.
Qed.

Lemma strip_id (s : pystr) : is_stripped s -> strip s = s.
Proof.
  intros [Hh Hl]. unfold strip, rstrip. rewrite (lstrip_id s Hh).
  rewrite lstrip_id; [apply rev_involutive|].
  intros c r Hr. apply (f_equal (@rev ascii)) in Hr.
  rewrite rev_involutive in Hr. simpl in Hr. eapply Hl, Hr.
Qed.

(** A stripped string between two spaces strips back to itself. *)
Lemma strip_padded (s : pystr) :
  is_stripped s -> strip (space :: s ++ [space]) = s.
Proof.
  intros Hs. destruct s as [|c s]; [reflexivity|].
  assert (Hc : isspace c = false) by (eapply (proj1 Hs); reflexivity).
  unfold strip. change (lstrip (space :: (c :: s) ++ [space]))
    with (lstrip ((c :: s) ++ [space])).
  rewrite lstrip_id.
  - unfold rstrip. rewrite rev_app_distr.
    change (lstrip (rev [space] ++ rev (c :: s)))
      with (lstrip (rev (c :: s))).
    rewrite lstrip_id; [apply rev_involutive|].
    intros x r Hr. apply (f_equal (@rev ascii)) in Hr.
    rewrite rev_involutive in Hr. simpl in Hr. eapply (proj2 Hs), Hr.
  - intros x r [= <- _]. exact Hc.
Qed.

(** ** The snap, again *)

Lemma find_closest_loop_nonneg (rest : pystr) :
  forall i latest k, 0 <= i -> 0 <= latest -> 0 <= k ->
                     0 <= find_closest_loop rest i latest k.
Proof.
  induction rest as [|c rest IH]; intros i latest k Hi Hl Hk; simpl; [lia|].
  destruct (Ascii.eqb c space); [|apply IH; lia].
  destruct (Z.gtb_spec i k); [lia|]. apply IH; lia.
Qed.

Lemma find_closest_nonneg (txt : pystr) (k : Z) :
  0 <= k -> 0 <= find_closest_start_word_index txt k.
Proof. intros Hk. apply find_closest_loop_nonneg; lia. Qed.

Lemma find_closest_zero (txt : pystr) :
  find_closest_start_word_index txt 0 = 0.
Proof.
  pose proof (find_closest_le txt 0 ltac:(lia)).
  pose proof (find_closest_nonneg txt 0 ltac:(lia)). lia.
Qed.

Lemma space_after_dec (rest : pystr) (i k : Z) :
  (exists n, rest !! n = Some space /\ k < i + Z.of_nat n)
  \/ (forall n, rest !! n = Some space -> i + Z.of_nat n <= k).
Proof.
  revert i. induction rest as [|c rest IH]; intros i.
  - right. intros n Hn. discriminate.
  - destruct (IH (i + 1)) as [[n [Hn Hk]]|Hnone].
    + left. exists (S n). split; [exact Hn|lia].
    + destruct (decide (c = space /\ k < i)) as [[-> Hki]|Hno].
      * left. exists 0%nat. split; [reflexivity|lia].
      * right. intros [|n] Hn.
        -- simpl in Hn. injection Hn as ->.
           destruct (Z.le_gt_cases (i + Z.of_nat 0) k); [assumption|].
           exfalso. apply Hno. split; [reflexivity|lia].
        -- specialize (Hnone n Hn). lia.
Qed.

(** Snapping an index that was already snapped changes nothing. *)
Theorem find_closest_idempotent (txt : pystr) (k : Z) :
  0 <= k ->
  find_closest_start_word_index txt (find_closest_start_word_index txt k)
  = find_closest_start_word_index txt k.
Proof.
  intros Hk. set (r := find_closest_start_word_index txt k).
  assert (Hr0 : 0 <= r) by (apply find_closest_nonneg, Hk).
  destruct (find_closest_loop_spec txt 0 0 k Hk) as [Ha Hb].
  destruct (find_closest_loop_spec txt 0 0 r Hr0) as [_ Hb'].
  fold (find_closest_start_word_index txt k) in Ha, Hb. fold r in Ha, Hb.
  fold (find_closest_start_word_index txt r) in Hb'.
  destruct (space_after_dec txt 0 k) as [Hex|Hnone].
  - destruct (Hb Hex) as [[Hr Hall]|[n [Hn [Hr [Hrk Hmax]]]]].
    + rewrite Hr. apply find_closest_zero.
    + assert (Hex' : exists m, txt !! m = Some space /\ r < 0 + Z.of_nat m).
      { destruct Hex as [m [Hm Hkm]]. exists m. split; [exact Hm|lia]. }
      destruct (Hb' Hex') as [[_ Hall']|[p [Hp [Hrp [Hple Hmax']]]]].
      * specialize (Hall' n Hn). lia.
      * assert (n <= p)%nat by (apply Hmax'; [exact Hn|lia]). lia.
  - assert (Hrk : r = k) by (apply Ha, Hnone).
    rewrite Hrk. apply Ha, Hnone.
Qed.

Lemma find_closest_idempotent_witness :
  0 <= 8
  /\ find_closest_start_word_index (str "hello world")
       (find_closest_start_word_index (str "hello world") 8)
     = find_closest_start_word_index (str "hello world") 8.
Proof.
  split; [lia|]. apply (find_closest_idempotent (str "hello world") 8). lia.
Defined.

(** ** What a consume returns *)

Lemma backslid_text_nonempty (final_text txt : pystr) (start_index : Z) :
  backslid_text final_text txt start_index <> [].
Proof.
  unfold backslid_text. intros H. apply app_eq_nil in H as [_ H].
  discriminate H.
Qed.

(** The loop over the final transcripts, on transcripts that are not the
    consumed one. *)
Lemma scan_no_match (id : transcript_id) (idx : Z) (l : list transcript) :
  Forall (fun t => uuid t <> id) l ->
  forall st,
    fold_left (scan_step id idx) l st
    = {| prev_text := match last l with
                      | Some t => Some (text t)
                      | None => prev_text st
                      end;
         first_transcript := first_transcript st;
         unconsumed_transcripts :=
           match first_transcript st with
           | Some _ => unconsumed_transcripts st ++ l
           | None => unconsumed_transcripts st
           end |}.
Proof.
  induction 1 as [|t l Ht Hl IH]; intros st.
  - simpl. destruct st as [p [f|] un]; simpl; [rewrite app_nil_r|]; reflexivity.
  - cbn [fold_left]. rewrite IH. unfold scan_step.
    destruct (decide (uuid t = id)) as [Heq|_]; [contradiction|]. simpl.
    f_equal.
    + destruct l as [|t' l]; [reflexivity|]. simpl.
      destruct (last (t' :: l)) eqn:Hlast; [reflexivity|].
      apply last_None in Hlast. discriminate.
    + destruct (first_transcript st); [|reflexivity].
      rewrite <- app_assoc. reflexivity.
Qed.

Lemma last_text_prev (l : list transcript) :
  default [] (match last l with
              | Some t => Some (text t)
              | None => None
              end) = last_text l.
Proof. unfold last_text. destruct (last l); reflexivity. Qed.

(** The step of the loop on the consumed transcript. *)
Lemma scan_step_marked (id : transcript_id) (idx : Z) (st : scan_state)
    (m : transcript) :
  uuid m = id ->
  let m' := set_text m
              (backslid_text (default [] (prev_text st)) (text m)
                 (find_closest_start_word_index (text m) idx)) in
  scan_step id idx st m
  = {| prev_text := Some (text m');
       first_transcript := Some m';
       unconsumed_transcripts := unconsumed_transcripts st ++ [m'] |}.
Proof.
  intros Hm m'. unfold scan_step.
  destruct (decide (uuid m = id)) as [_|]; [|done]. fold m'.
  destruct (text m') as [|c s] eqn:Ht; [|reflexivity].
  exfalso. eapply backslid_text_nonempty. exact Ht.
Qed.

(** The consumed marker names a stored final transcript: the transcripts
    before it are not returned, the marked one is returned from the snapped
    index on behind the backslide words, the later ones and the intermediate
    transcript are returned whole. *)
Theorem consume_from_marker (u : user) (before after : list transcript)
    (m : transcript) :
  cse_consumed_transcript_id u <> NoId ->
  final_transcripts u = before ++ m :: after ->
  uuid m = cse_consumed_transcript_id u ->
  Forall (fun t => uuid t <> cse_consumed_transcript_id u) (before ++ after) ->
  fst (consume_user u)
  = set_text m
      (backslid_text (last_text before) (text m)
         (find_closest_start_word_index (text m)
            (cse_consumed_transcript_idx u)))
    :: after ++ intermediate_if_any u.
Proof.
  intros Hid Hfin Hm Hothers. apply Forall_app in Hothers as [Hb Ha].
  unfold consume_user, unconsumed_of_user.
  destruct (decide (cse_consumed_transcript_id u <> NoId)) as [_|]; [|done].
  cbn [fst]. unfold scan_finals. rewrite Hfin, fold_left_app.
  rewrite (scan_no_match _ _ before Hb). cbn [fold_left].
  rewrite (scan_step_marked _ _ _ m Hm).
  rewrite (scan_no_match _ _ after Ha).
  cbn [first_transcript unconsumed_transcripts prev_text app].
  rewrite last_text_prev. unfold intermediate_if_any.
  destruct (text (latest_intermediate_transcript u));
    [rewrite app_nil_r|]; reflexivity.
Qed.

Lemma consume_from_marker_witness :
  cse_consumed_transcript_id marked_user <> NoId
  /\ final_transcripts marked_user = [] ++ sample_final :: []
  /\ uuid sample_final = cse_consumed_transcript_id marked_user
  /\ Forall (fun t => uuid t <> cse_consumed_transcript_id marked_user) ([] ++ [])
  /\ fst (consume_user marked_user)
     = set_text sample_final
         (backslid_text (last_text []) (text sample_final)
            (find_closest_start_word_index (text sample_final)
               (cse_consumed_transcript_idx marked_user)))
       :: [] ++ intermediate_if_any marked_user.
Proof.
  assert (H1 : cse_consumed_transcript_id marked_user <> NoId) by discriminate.
  assert (H2 : final_transcripts marked_user = [] ++ sample_final :: [])
    by reflexivity.
  assert (H3 : uuid sample_final = cse_consumed_transcript_id marked_user)
    by reflexivity.
  assert (H4 : Forall (fun t => uuid t <> cse_consumed_transcript_id marked_user)
                 ([] ++ [])) by constructor.
  repeat (split; [assumption|]).
  exact (consume_from_marker marked_user [] [] sample_final H1 H2 H3 H4).
Defined.

(** The consumed marker names no stored final transcript: the intermediate
    transcript is returned whole, whatever the consumed index, and the index
    moves to its end. *)
Theorem consume_stale_marker (u : user) :
  cse_consumed_transcript_id u <> NoId ->
  Forall (fun t => uuid t <> cse_consumed_transcript_id u)
    (final_transcripts u) ->
  fst (consume_user u) = intermediate_if_any u
  /\ cse_consumed_transcript_id (snd (consume_user u)) = NoId
  /\ cse_consumed_transcript_idx (snd (consume_user u))
     = len (text (latest_intermediate_transcript u)).
Proof.
  intros Hid Hnone. unfold consume_user, unconsumed_of_user.
  destruct (decide (cse_consumed_transcript_id u <> NoId)) as [_|]; [|done].
  unfold scan_finals. rewrite (scan_no_match _ _ _ Hnone).
  cbn. unfold intermediate_if_any, new_index.
  destruct (text (latest_intermediate_transcript u)) as [|c s] eqn:Ht.
  - repeat split; reflexivity.
  - simpl. rewrite Ht. repeat split; reflexivity.
Qed.

Lemma consume_stale_marker_witness :
  cse_consumed_transcript_id stale_user <> NoId
  /\ Forall (fun t => uuid t <> cse_consumed_transcript_id stale_user)
       (final_transcripts stale_user)
  /\ fst (consume_user stale_user) = intermediate_if_any stale_user
  /\ cse_consumed_transcript_id (snd (consume_user stale_user)) = NoId
  /\ cse_consumed_transcript_idx (snd (consume_user stale_user))
     = len (text (latest_intermediate_transcript stale_user)).
Proof.
  assert (H1 : cse_consumed_transcript_id stale_user <> NoId) by discriminate.
  assert (H2 : Forall (fun t => uuid t <> cse_consumed_transcript_id stale_user)
                 (final_transcripts stale_user))
    by (repeat constructor; discriminate).
  repeat (split; [assumption|]).
  exact (consume_stale_marker stale_user H1 H2).
Defined.

(** ** The cursor stays well formed *)

Lemma cursor_ok_new_user : cursor_ok new_user.
Proof. split; [simpl; lia|left; reflexivity]. Qed.

Lemma cursor_ok_get_user (user_id : string) (db : users) :
  map_Forall (fun _ => cursor_ok) db -> cursor_ok (get_user user_id db).
Proof.
  intros H. unfold get_user. destruct (db !! user_id) as [u|] eqn:Hu.
  - exact (H _ _ Hu).
  - apply cursor_ok_new_user.
Qed.

Lemma cursor_ok_create (user_id : string) (db : users) :
  map_Forall (fun _ => cursor_ok) db ->
  map_Forall (fun _ => cursor_ok) (create_user_if_not_exists user_id db).
Proof.
  intros H. unfold create_user_if_not_exists.
  destruct (db !! user_id); [exact H|].
  apply map_Forall_insert_2; [apply cursor_ok_new_user|exact H].
Qed.

Lemma cursor_ok_consume_user (u : user) :
  cursor_ok u -> cursor_ok (snd (consume_user u)).
Proof.
  intros [Hidx _]. unfold consume_user, unconsumed_of_user.
  destruct (decide (cse_consumed_transcript_id u <> NoId)).
  - split; [apply new_index_nonneg|left; reflexivity].
  - pose proof (find_closest_nonneg
                  (text (latest_intermediate_transcript u)) _ Hidx) as Hs.
    destruct (_ >? _); (split; [|left; reflexivity]); cbn.
    + unfold new_index, len. simpl. lia.
    + lia.
Qed.

(** A consumed index that is not negative and a consumed marker that names
    a stored final transcript are kept, for every user, by saving a
    transcript and by consuming. *)
Theorem cursor_ok_preserved (user_id : string) (txt : pystr) (ts : Z)
    (final : bool) (fresh : N) (db : users) :
  map_Forall (fun _ => cursor_ok) db ->
  map_Forall (fun _ => cursor_ok)
    (save_transcript_for_user user_id txt ts final fresh db)
  /\ map_Forall (fun _ => cursor_ok)
       (snd (get_new_cse_transcripts_for_user user_id db)).
Proof.
  intros Hdb. split.
  - unfold save_transcript_for_user. destruct txt as [|c txt]; [exact Hdb|].
    pose proof (cursor_ok_create user_id db Hdb) as Hdb'.
    pose proof (cursor_ok_get_user user_id _ Hdb') as [Hidx Hmark].
    set (u := get_user user_id (create_user_if_not_exists user_id db)) in *.
    destruct final.
    + apply map_Forall_insert_2; [|exact Hdb']. cbn.
      destruct (decide (cse_consumed_transcript_id u = NoId)) as [Hno|Hyes].
      * split; [exact Hidx|]. right.
        exists {| t_user_id := Some user_id; text := c :: txt;
                  timestamp := ts; is_final := true; uuid := Uuid fresh |}.
        split; [|reflexivity].
        apply elem_of_app. right. apply list_elem_of_singleton. reflexivity.
      * split; [exact Hidx|]. destruct Hmark as [Hno|[t [Ht Hu]]]; [done|].
        right. exists t. split; [|exact Hu].
        apply elem_of_app. left. exact Ht.
    + apply map_Forall_insert_2; [|exact Hdb']. split; assumption.
  - unfold get_new_cse_transcripts_for_user.
    pose proof (cursor_ok_create user_id db Hdb) as Hdb'.
    pose proof (cursor_ok_get_user user_id _ Hdb') as Hu.
    destruct (consume_user _) as [unconsumed u'] eqn:Hc. cbn.
    apply map_Forall_insert_2; [|exact Hdb'].
    apply cursor_ok_consume_user in Hu. rewrite Hc in Hu. exact Hu.
Qed.

Lemma cursor_ok_preserved_witness :
  map_Forall (fun _ => cursor_ok) ({[ "u"%string := marked_user ]} : users)
  /\ map_Forall (fun _ => cursor_ok)
       (save_transcript_for_user "u" (str "hello again") 1000 true 3
          {[ "u"%string := marked_user ]})
  /\ map_Forall (fun _ => cursor_ok)
       (snd (get_new_cse_transcripts_for_user "u"
               {[ "u"%string := marked_user ]})).
Proof.
  assert (H : map_Forall (fun _ => cursor_ok)
                ({[ "u"%string := marked_user ]} : users)).
  { apply map_Forall_singleton. split; [simpl; lia|].
    right. exists sample_final. split; [|reflexivity].
    apply list_elem_of_singleton. reflexivity. }
  split; [exact H|].
  exact (cursor_ok_preserved "u" (str "hello again") 1000 true 3 _ H).
Defined.

(** [delete_all_transcripts_for_user] does not keep it: the marker of the
    deleted transcript stays behind. *)
Example delete_all_leaves_stale_marker :
  let db := save_transcript_for_user "u" (str "hello world") 1000 true 1 ∅ in
  let u := get_user "u" (delete_all_transcripts_for_user "u" db) in
  final_transcripts u = [] /\ cse_consumed_transcript_id u = Uuid 1.
Proof. vm_compute. split; reflexivity. Qed.

(** ** What a consume and a save leave alone *)

(** A consume changes nothing in the store but the consumed marker and the
    consumed index of the user: the texts it rewrites are those of the
    returned copies. *)
Theorem consume_keeps_stored_transcripts (user_id : string) (db : users) :
  let db' := snd (get_new_cse_transcripts_for_user user_id db) in
  let u := default new_user (db !! user_id) in
  (forall other, other <> user_id -> db' !! other = db !! other)
  /\ latest_intermediate_transcript (get_user user_id db')
     = latest_intermediate_transcript u
  /\ final_transcripts (get_user user_id db') = final_transcripts u
  /\ cse_consumed_transcript_id (get_user user_id db') = NoId.
Proof.
  cbn zeta. unfold get_new_cse_transcripts_for_user.
  assert (Hu : get_user user_id (create_user_if_not_exists user_id db)
               = default new_user (db !! user_id)).
  { unfold get_user, create_user_if_not_exists.
    destruct (db !! user_id) as [u|] eqn:Hdb; [rewrite Hdb; reflexivity|].
    rewrite lookup_insert_eq. reflexivity. }
  rewrite Hu. unfold consume_user.
  destruct (unconsumed_of_user _) as [l offset]. cbn [snd].
  split.
  - intros other Hne. rewrite lookup_insert_ne by congruence.
    unfold create_user_if_not_exists.
    destruct (db !! user_id); [reflexivity|].
    rewrite lookup_insert_ne by congruence. reflexivity.
  - unfold get_user. rewrite lookup_insert_eq. cbn. repeat split.
Qed.

(** Saving a transcript never changes the consumed index, keeps the final
    transcripts already stored as a prefix of the stored ones, and leaves
    the other users alone. *)
Theorem save_appends (user_id : string) (txt : pystr) (ts : Z)
    (final : bool) (fresh : N) (db : users) :
  let db' := save_transcript_for_user user_id txt ts final fresh db in
  let u := default new_user (db !! user_id) in
  (forall other, other <> user_id -> db' !! other = db !! other)
  /\ final_transcripts u `prefix_of` final_transcripts (get_user user_id db')
  /\ cse_consumed_transcript_idx (get_user user_id db')
     = cse_consumed_transcript_idx u.
Proof.
  cbn zeta. unfold save_transcript_for_user.
  destruct txt as [|c txt].
  { split; [reflexivity|]. unfold get_user. split; reflexivity. }
  assert (Hu : get_user user_id (create_user_if_not_exists user_id db)
               = default new_user (db !! user_id)).
  { unfold get_user, create_user_if_not_exists.
    destruct (db !! user_id) as [u|] eqn:Hdb; [rewrite Hdb; reflexivity|].
    rewrite lookup_insert_eq. reflexivity. }
  rewrite Hu. set (u := default new_user (db !! user_id)).
  assert (Hother : forall other, other <> user_id ->
            create_user_if_not_exists user_id db !! other = db !! other).
  { intros other Hne. unfold create_user_if_not_exists.
    destruct (db !! user_id); [reflexivity|].
    rewrite lookup_insert_ne by congruence. reflexivity. }
  destruct final.
  - split; [|split].
    + intros other Hne. rewrite lookup_insert_ne by congruence.
      apply Hother, Hne.
    + unfold get_user. rewrite lookup_insert_eq. cbn.
      destruct (decide (cse_consumed_transcript_id u = NoId));
        cbn; apply prefix_app_r; reflexivity.
    + unfold get_user. rewrite lookup_insert_eq. cbn.
      destruct (decide (cse_consumed_transcript_id u = NoId)); reflexivity.
  - split; [|split].
    + intros other Hne. rewrite lookup_insert_ne by congruence.
      apply Hother, Hne.
    + unfold get_user. rewrite lookup_insert_eq. reflexivity.
    + unfold get_user. rewrite lookup_insert_eq. reflexivity.
Qed.

(** ** The first consume of a new user *)

Lemma backslid_text_start (txt : pystr) :
  backslid_text [] txt 0 = space :: strip txt.
Proof.
  assert (Hmin : Z.to_nat (Z.min 0 (len txt)) = 0%nat) by (unfold len; lia).
  unfold backslid_text, slice_from, slice_to, norm_index.
  change (0 <? 0) with false. cbv iota. rewrite Hmin. reflexivity.
Qed.

Lemma stringify_one (t : transcript) (s : pystr) :
  text t = space :: strip s -> stringify [t] = strip s.
Proof.
  intros Ht. unfold stringify. simpl. rewrite Ht.
  apply (strip_padded (strip s)), strip_is_stripped.
Qed.

Lemma consume_user_first_final (t : transcript) :
  uuid t <> NoId ->
  fst (consume_user
         {| latest_intermediate_transcript := empty_transcript;
            final_transcripts := [t];
            cse_consumed_transcript_id := uuid t;
            cse_consumed_transcript_idx := 0 |})
  = [set_text t (space :: strip (text t))].
Proof.
  intros Hid. unfold consume_user, unconsumed_of_user.
  cbn [cse_consumed_transcript_id cse_consumed_transcript_idx
       final_transcripts latest_intermediate_transcript].
  destruct (decide (uuid t <> NoId)) as [_|]; [|done].
  unfold scan_finals. cbn [fold_left fst].
  rewrite (scan_step_marked _ _ _ t eq_refl).
  cbn [unconsumed_transcripts prev_text default app empty_transcript text].
  rewrite find_closest_zero, backslid_text_start. reflexivity.
Qed.

Lemma consume_user_first_intermediate (t : transcript) :
  fst (consume_user
         {| latest_intermediate_transcript := t;
            final_transcripts := [];
            cse_consumed_transcript_id := NoId;
            cse_consumed_transcript_idx := 0 |})
  = if 2 <=? len (text t) then [set_text t (space :: strip (text t))] else [].
Proof.
  unfold consume_user, unconsumed_of_user.
  cbn [cse_consumed_transcript_id cse_consumed_transcript_idx
       final_transcripts latest_intermediate_transcript].
  destruct (decide (NoId <> NoId)) as [|_]; [done|].
  rewrite find_closest_zero.
  destruct (Z.gtb_spec (len (text t) - 1) 0);
    destruct (Z.leb_spec 2 (len (text t))); try lia; [|reflexivity].
  cbn [last final_transcripts fst]. rewrite backslid_text_start. reflexivity.
Qed.

Lemma consume_as_string_stored (user_id : string) (db : users) (u : user) :
  db !! user_id = Some u ->
  fst (get_new_cse_transcripts_for_user_as_string user_id db)
  = stringify (fst (consume_user u)).
Proof.
  intros Hu. unfold get_new_cse_transcripts_for_user_as_string,
    get_new_cse_transcripts_for_user, create_user_if_not_exists, get_user.
  rewrite Hu. cbv beta iota. rewrite Hu.
  change (default new_user (Some u)) with u.
  destruct (consume_user u) as [l u']. reflexivity.
Qed.

(** A user with no document saves a first transcript and consumes, as a
    string: a final transcript comes back stripped; so does an intermediate
    transcript of two characters or more, and an intermediate transcript of
    one character is not handed out. *)
Theorem first_consume_as_string (user_id : string) (txt : pystr) (ts : Z)
    (final : bool) (fresh : N) (db : users) :
  db !! user_id = None ->
  txt <> [] ->
  fst (get_new_cse_transcripts_for_user_as_string user_id
         (save_transcript_for_user user_id txt ts final fresh db))
  = if final || (2 <=? len txt) then strip txt else [].
Proof.
  intros Hnew Hne. destruct txt as [|c txt]; [done|].
  set (t := {| t_user_id := Some user_id; text := c :: txt; timestamp := ts;
               is_final := final; uuid := Uuid fresh |}).
  assert (Hsaved :
    save_transcript_for_user user_id (c :: txt) ts final fresh db
    = <[user_id :=
          if final
          then {| latest_intermediate_transcript := empty_transcript;
                  final_transcripts := [t];
                  cse_consumed_transcript_id := uuid t;
                  cse_consumed_transcript_idx := 0 |}
          else {| latest_intermediate_transcript := t;
                  final_transcripts := [];
                  cse_consumed_transcript_id := NoId;
                  cse_consumed_transcript_idx := 0 |} ]>
        (<[user_id := new_user]> db)).
  { unfold save_transcript_for_user, create_user_if_not_exists, get_user.
    rewrite Hnew, lookup_insert_eq. subst t. destruct final; reflexivity. }
  rewrite Hsaved.
  rewrite (consume_as_string_stored _ _ _ (lookup_insert_eq _ _ _)).
  destruct final; cbn [orb].
  - rewrite (consume_user_first_final t) by discriminate.
    apply stringify_one. reflexivity.
  - rewrite (consume_user_first_intermediate t).
    change (text t) with (c :: txt).
    destruct (2 <=? len (c :: txt)); [|reflexivity].
    apply stringify_one. reflexivity.
Qed.

Lemma first_consume_as_string_witness :
  (∅ : users) !! "u"%string = None
  /\ str " hello world " <> []
  /\ fst (get_new_cse_transcripts_for_user_as_string "u"
            (save_transcript_for_user "u" (str " hello world ") 1000 true 1 ∅))
     = strip (str " hello world ").
Proof.
  split; [reflexivity|]. split; [discriminate|].
  apply (first_consume_as_string "u" (str " hello world ") 1000 true 1 ∅);
    [reflexivity|discriminate].
Defined.

(** ** Stringifying a list of transcripts *)

Lemma enumerate_snoc {A : Type} (l : list A) (x : A) :
  enumerate (l ++ [x]) = enumerate l ++ [(len l, x)].
Proof.
  unfold enumerate. rewrite imap_app. simpl.
  rewrite Nat.add_0_r. reflexivity.
Qed.

Lemma stringify_finals_snoc (l : list transcript) (x : transcript) :
  stringify_finals (l ++ [x])
  = if is_final x
    then (fst (stringify_finals l) ++ text x ++ [space], len l)
    else stringify_finals l.
Proof.
  unfold stringify_finals. rewrite enumerate_snoc, fold_left_app.
  destruct (fold_left _ (enumerate l) _) as [output lf].
  simpl. destruct (is_final x); reflexivity.
Qed.

Lemma finals_text_snoc (l : list transcript) (x : transcript) :
  finals_text (l ++ [x])
  = finals_text l ++ (if is_final x then text x ++ [space] else []).
Proof.
  unfold finals_text. rewrite filter_app, flat_map_app. f_equal.
  destruct (is_final x) eqn:Hx.
  - rewrite filter_cons_True by (rewrite Hx; exact I).
    simpl. rewrite app_nil_r. reflexivity.
  - rewrite filter_cons_False by (rewrite Hx; exact id). reflexivity.
Qed.

Lemma stringify_finals_output (l : list transcript) :
  fst (stringify_finals l) = finals_text l.
Proof.
  induction l as [|x l IH] using rev_ind; [reflexivity|].
  rewrite stringify_finals_snoc, finals_text_snoc.
  destruct (is_final x); simpl.
  - rewrite IH. reflexivity.
  - rewrite IH, app_nil_r. reflexivity.
Qed.

Lemma stringify_finals_no_final (l : list transcript) :
  Forall (fun t => is_final t = false) l ->
  stringify_finals l = ([], 99999999).
Proof.
  induction l as [|x l IH] using rev_ind; intros H; [reflexivity|].
  apply Forall_app in H as [Hl Hx]. apply Forall_inv in Hx.
  rewrite stringify_finals_snoc, Hx. apply IH, Hl.
Qed.

Lemma stringify_finals_last_final (l1 l2 : list transcript) (f : transcript) :
  is_final f = true ->
  Forall (fun t => is_final t = false) l2 ->
  snd (stringify_finals (l1 ++ f :: l2)) = len l1.
Proof.
  intros Hf. induction l2 as [|x l2 IH] using rev_ind; intros H.
  - rewrite stringify_finals_snoc, Hf. reflexivity.
  - apply Forall_app in H as [Hl Hx]. apply Forall_inv in Hx.
    change (l1 ++ f :: l2 ++ [x]) with (l1 ++ (f :: l2) ++ [x]).
    rewrite app_assoc, stringify_finals_snoc, Hx. apply IH, Hl.
Qed.

(** The second loop reads the transcripts from the index on. *)
Lemma last_intermediate_from_suffix (suffix : list transcript) :
  forall (before : list transcript) (acc : option pystr),
    fold_left
      (fun last_intermediate_text i =>
         last_intermediate_text ← last_intermediate_text;
         t ← index (before ++ suffix) i;
         Some (if is_final t then last_intermediate_text else text t))
      (range (len before) (len (before ++ suffix))) acc
    = fold_left
        (fun last_intermediate_text t =>
           last_intermediate_text ← last_intermediate_text;
           Some (if is_final t then last_intermediate_text else text t))
        suffix acc.
Proof.
  induction suffix as [|x suffix IH]; intros before acc.
  - rewrite app_nil_r. unfold range. rewrite seqZ_nil by lia. reflexivity.
  - unfold range. rewrite seqZ_cons
      by (unfold len; rewrite length_app; simpl; lia).
    cbn [fold_left].
    assert (Hidx : index (before ++ x :: suffix) (len before) = Some x).
    { unfold index, len. destruct (Z.ltb_spec (Z.of_nat (length before)) 0);
        [lia|]. rewrite Nat2Z.id. apply list_lookup_middle. reflexivity. }
    rewrite Hidx.
    specialize (IH (before ++ [x])).
    rewrite <- app_assoc in IH. cbn [app] in IH.
    replace (Z.succ (len before)) with (len (before ++ [x]))
      by (unfold len; rewrite length_app; simpl; lia).
    replace (Z.pred (len (before ++ x :: suffix) - len before))
      with (len (before ++ x :: suffix) - len (before ++ [x]))
      by (unfold len; rewrite !length_app; simpl; lia).
    unfold range in IH. rewrite IH.
    destruct acc; reflexivity.
Qed.

Lemma last_intermediate_no_final (l : list transcript) :
  Forall (fun t => is_final t = false) l ->
  forall acc,
    fold_left
      (fun last_intermediate_text t =>
         last_intermediate_text ← last_intermediate_text;
         Some (if is_final t then last_intermediate_text else text t))
      l (Some acc)
    = Some (match last l with Some t => text t | None => acc end).
Proof.
  induction 1 as [|x l Hx Hl IH]; intros acc; [reflexivity|].
  cbn [fold_left]. cbn [mbind option_bind]. rewrite Hx, IH.
  destruct l as [|y l]; [reflexivity|].
  destruct (last (y :: l)) eqn:Hlast.
  - rewrite last_cons, Hlast. reflexivity.
  - apply last_None in Hlast. discriminate.
Qed.

(** With no final transcript in the list, the output is the empty string,
    whatever the intermediate transcripts say. *)
Theorem stringify_transcripts_no_final (l : list transcript) :
  Forall (fun t => is_final t = false) l ->
  len l <= 99999999 ->
  stringify_transcripts l = Some [].
Proof.
  intros Hno Hlen. unfold stringify_transcripts.
  destruct l as [|x l]; [reflexivity|].
  rewrite (stringify_finals_no_final _ Hno).
  unfold last_intermediate_from, range. rewrite seqZ_nil by lia.
  reflexivity.
Qed.

Lemma stringify_transcripts_no_final_witness :
  Forall (fun t => is_final t = false) [sample_intermediate]
  /\ len [sample_intermediate] <= 99999999
  /\ stringify_transcripts [sample_intermediate] = Some [].
Proof.
  assert (H1 : Forall (fun t => is_final t = false) [sample_intermediate])
    by (constructor; [reflexivity|constructor]).
  assert (H2 : len [sample_intermediate] <= 99999999)
    by (vm_compute; discriminate).
  split; [exact H1|]. split; [exact H2|].
  exact (stringify_transcripts_no_final _ H1 H2).
Defined.

(** With a final transcript in the list, the output is made of the texts of
    the final transcripts and of the text of the last intermediate
    transcript that follows the last final one: an intermediate transcript
    that comes before a final one does not show. *)
Theorem stringify_transcripts_after_last_final
    (l1 l2 : list transcript) (f : transcript) :
  is_final f = true ->
  Forall (fun t => is_final t = false) l2 ->
  stringify_transcripts (l1 ++ f :: l2)
  = Some (strip (finals_text l1 ++ (text f ++ [space])
                 ++ [space] ++ last_text l2)).
Proof.
  intros Hf Hl2. unfold stringify_transcripts.
  destruct (l1 ++ f :: l2) as [|x l] eqn:Hl.
  { destruct l1; discriminate. }
  rewrite <- Hl. clear x l Hl.
  pose proof (stringify_finals_output (l1 ++ f :: l2)) as Hout.
  pose proof (stringify_finals_last_final l1 l2 f Hf Hl2) as Hidx.
  destruct (stringify_finals (l1 ++ f :: l2)) as [output lf].
  cbn [fst snd] in Hout, Hidx. subst output lf.
  unfold last_intermediate_from.
  rewrite (last_intermediate_from_suffix (f :: l2) l1).
  cbn [fold_left]. cbn [mbind option_bind]. rewrite Hf.
  rewrite (last_intermediate_no_final l2 Hl2). cbn [mbind option_bind].
  f_equal. f_equal.
  change (l1 ++ f :: l2) with (l1 ++ [f] ++ l2).
  unfold finals_text. rewrite !filter_app, !flat_map_app.
  rewrite filter_cons_True by (rewrite Hf; exact I).
  rewrite filter_nil. cbn [flat_map].
  assert (Hnone : filter (fun t => is_final t) l2 = []).
  { clear -Hl2. induction Hl2 as [|x l Hx _ IH]; [reflexivity|].
    rewrite filter_cons_False by (rewrite Hx; exact id). exact IH. }
  rewrite Hnone. cbn [flat_map]. unfold last_text.
  rewrite !app_nil_r, <- !app_assoc. reflexivity.
Qed.

Lemma stringify_transcripts_after_last_final_witness :
  is_final sample_final = true
  /\ Forall (fun t => is_final t = false) ([] : list transcript)
  /\ stringify_transcripts ([sample_intermediate] ++ sample_final :: [])
     = Some (strip (finals_text [sample_intermediate]
                    ++ (text sample_final ++ [space])
                    ++ [space] ++ last_text [])).
Proof.
  split; [reflexivity|]. split; [constructor|].
  apply (stringify_transcripts_after_last_final [sample_intermediate] []
           sample_final); [reflexivity|constructor].
Defined.

(** The intermediate transcript "hello world" that precedes the final
    transcript "good morning" is left out. *)
Example stringify_transcripts_drops_earlier_intermediate :
  stringify_transcripts [sample_intermediate; sample_final]
  = Some (str "good morning").
Proof. vm_compute. reflexivity. Qed.

(** ** Results and devices *)

Lemma collect_new_results_fst (user_id device : string) (should_consume : bool)
    (already : list string) (results : list cse_result) :
  forall (acc : list cse_result) (db : results_store),
    fst (fold_left
           (fun '(new_results, db) res =>
              match result_uuid res with
              | Some id =>
                  if decide (id ∈ already) then (new_results, db)
                  else
                    (new_results ++ [res],
                     if should_consume
                     then add_consumed_cse_result_id_for_user_device user_id
                            device id db
                     else db)
              | None => (new_results, db)
              end)
           results (acc, db))
    = acc ++ unconsumed_results already results.
Proof.
  induction results as [|res results IH]; intros acc db; simpl.
  - rewrite app_nil_r. reflexivity.
  - unfold is_unconsumed. destruct (result_uuid res) as [id|]; [|apply IH].
    destruct (decide (id ∈ already)) as [Hin|Hout].
    + rewrite bool_decide_eq_false_2 by (intros H; apply H, Hin). apply IH.
    + rewrite bool_decide_eq_true_2 by exact Hout.
      rewrite IH, <- app_assoc. reflexivity.
Qed.

(** What the call returns: the results with a uuid that is not among the
    ids read. *)
Lemma collect_new_results_returns (user_id device : string)
    (should_consume : bool) (already : list string)
    (results : list cse_result) (db : results_store) :
  fst (collect_new_results user_id device should_consume already results db)
  = unconsumed_results already results.
Proof. apply (collect_new_results_fst _ _ _ _ _ []). Qed.

Lemma has_device_head (ui : ui_device) (rest : list ui_device) :
  has_device (device_id ui) (ui :: rest) = true.
Proof.
  unfold has_device. simpl. rewrite bool_decide_eq_true_2 by reflexivity.
  reflexivity.
Qed.

Lemma mark_consumed_device_ids (device id : string) (l : list ui_device) :
  map device_id (mark_consumed device id l) = map device_id l.
Proof.
  induction l as [|ui l IH]; [reflexivity|]. simpl.
  destruct (bool_decide (device_id ui = device)); simpl; [reflexivity|].
  rewrite IH. reflexivity.
Qed.

Lemma has_device_ids (device : string) (l l' : list ui_device) :
  map device_id l = map device_id l' ->
  has_device device l = has_device device l'.
Proof.
  unfold has_device. revert l'.
  induction l as [|ui l IH]; intros [|ui' l'] H; try discriminate;
    [reflexivity|].
  simpl in *. injection H as Hid Hrest. rewrite Hid, (IH l' Hrest).
  reflexivity.
Qed.

(** Marking a result for the first device adds its id to the list of the
    first device. *)
Lemma add_consumed_first (user_id id : string) (db : results_store)
    (results : list cse_result) (ui : ui_device) :
  first_device_state user_id db results ui ->
  first_device_state user_id
    (add_consumed_cse_result_id_for_user_device user_id (device_id ui) id db)
    results
    {| device_id := device_id ui;
       consumed_cse_result_ids := add_to_set id (consumed_cse_result_ids ui);
       consumed_agent_insights_result_ids :=
         consumed_agent_insights_result_ids ui |}.
Proof.
  intros [u [rest [Hu [Hres Hui]]]].
  unfold add_consumed_cse_result_id_for_user_device.
  rewrite Hu, Hui, has_device_head.
  eexists _, rest. rewrite lookup_insert_eq. split; [reflexivity|].
  split; [exact Hres|]. simpl.
  rewrite bool_decide_eq_true_2 by reflexivity. reflexivity.
Qed.

(** Marking a result for another device leaves the first device as it
    is. *)
Lemma add_consumed_later (user_id device id : string) (db : results_store)
    (results : list cse_result) (ui : ui_device) :
  device_id ui <> device ->
  first_device_state user_id db results ui ->
  first_device_state user_id
    (add_consumed_cse_result_id_for_user_device user_id device id db)
    results ui.
Proof.
  intros Hne [u [rest [Hu [Hres Hui]]]].
  unfold add_consumed_cse_result_id_for_user_device. rewrite Hu.
  destruct (has_device device (ui_list u)); [|exists u, rest; auto].
  eexists _, (mark_consumed device id rest). rewrite lookup_insert_eq.
  split; [reflexivity|]. split; [exact Hres|]. simpl. rewrite Hui. simpl.
  rewrite bool_decide_eq_false_2 by exact Hne. reflexivity.
Qed.

Lemma add_to_set_elem {A : Type} `{EqDecision A} (x y : A) (l : list A) :
  y ∈ add_to_set x l <-> y = x \/ y ∈ l.
Proof.
  unfold add_to_set. destruct (decide (x ∈ l)) as [Hin|Hout].
  - split; [auto|]. intros [->|H]; assumption.
  - rewrite elem_of_app, list_elem_of_singleton. tauto.
Qed.

(** The loop on the first device: every id it meets ends in the list of the
    first device. *)
Lemma collect_first_device (user_id : string) (already : list string)
    (stored : list cse_result) (results : list cse_result) :
  forall (acc : list cse_result) (db : results_store) (ui : ui_device),
    first_device_state user_id db stored ui ->
    (forall id, id ∈ already -> id ∈ consumed_cse_result_ids ui) ->
    exists ui',
      first_device_state user_id
        (snd (fold_left
                (fun '(new_results, db) res =>
                   match result_uuid res with
                   | Some id =>
                       if decide (id ∈ already) then (new_results, db)
                       else
                         (new_results ++ [res],
                          add_consumed_cse_result_id_for_user_device user_id
                            (device_id ui) id db)
                   | None => (new_results, db)
                   end)
                results (acc, db)))
        stored ui'
      /\ device_id ui' = device_id ui
      /\ (forall id, id ∈ consumed_cse_result_ids ui ->
                     id ∈ consumed_cse_result_ids ui')
      /\ (forall res id, res ∈ results -> result_uuid res = Some id ->
                         id ∈ consumed_cse_result_ids ui').
Proof.
  induction results as [|res results IH]; intros acc db ui Hst Halready.
  - exists ui. simpl. split; [exact Hst|]. split; [reflexivity|].
    split; [auto|]. intros res id Hres. inversion Hres.
  - cbn [fold_left].
    destruct (result_uuid res) as [id|] eqn:Hid.
    + destruct (decide (id ∈ already)) as [Hin|Hout].
      * destruct (IH acc db ui Hst Halready) as [ui' [Hst' [Hdev [Hmono Hall]]]].
        exists ui'. split; [exact Hst'|]. split; [exact Hdev|].
        split; [exact Hmono|].
        intros res' id' Hres' Hid'. apply elem_of_cons in Hres' as [->|Hres'].
        -- rewrite Hid in Hid'. injection Hid' as <-. auto.
        -- eapply Hall; eassumption.
      * pose proof (add_consumed_first user_id id db stored ui Hst) as Hst1.
        set (ui1 := {| device_id := device_id ui;
                       consumed_cse_result_ids :=
                         add_to_set id (consumed_cse_result_ids ui);
                       consumed_agent_insights_result_ids :=
                         consumed_agent_insights_result_ids ui |}) in *.
        destruct (IH (acc ++ [res]) _ ui1 Hst1) as [ui' [Hst' [Hdev [Hmono Hall]]]].
        { intros x Hx. apply add_to_set_elem. right. auto. }
        exists ui'. split; [exact Hst'|]. split; [exact Hdev|]. split.
        -- intros x Hx. apply Hmono, add_to_set_elem. right. exact Hx.
        -- intros res' id' Hres' Hid'.
           apply elem_of_cons in Hres' as [->|Hres'].
           ++ rewrite Hid in Hid'. injection Hid' as <-.
              apply Hmono, add_to_set_elem. left. reflexivity.
           ++ eapply Hall; eassumption.
    + destruct (IH acc db ui Hst Halready) as [ui' [Hst' [Hdev [Hmono Hall]]]].
      exists ui'. split; [exact Hst'|]. split; [exact Hdev|].
      split; [exact Hmono|].
      intros res' id' Hres' Hid'. apply elem_of_cons in Hres' as [->|Hres'].
      * congruence.
      * eapply Hall; eassumption.
Qed.

(** A property of the store that marking a result keeps is kept by the
    loop. *)
Lemma collect_invariant (P : results_store -> Prop) (user_id device : string)
    (should_consume : bool) (already : list string)
    (results : list cse_result) :
  (forall id db, P db ->
     P (add_consumed_cse_result_id_for_user_device user_id device id db)) ->
  forall db, P db ->
    P (snd (collect_new_results user_id device should_consume already
              results db)).
Proof.
  intros Hstep. unfold collect_new_results.
  match goal with |- context [fold_left ?f _ _] => set (F := f) end.
  generalize (@nil cse_result).
  induction results as [|res results IH]; intros acc db Hdb; [exact Hdb|].
  cbn [fold_left]. destruct (F (acc, db) res) as [acc' db'] eqn:HF.
  apply IH. unfold F in HF.
  destruct (result_uuid res) as [id|]; [|injection HF as _ <-; exact Hdb].
  destruct (decide (id ∈ already)); [injection HF as _ <-; exact Hdb|].
  injection HF as _ <-.
  destruct should_consume; [apply Hstep, Hdb|exact Hdb].
Qed.

Lemma add_ui_device_first (user_id device : string) (db : results_store) :
  first_device user_id device db ->
  exists ui,
    first_device_state user_id
      (add_ui_device_to_user_if_not_exists user_id device db)
      (stored_results user_id db) ui
    /\ device_id ui = device.
Proof.
  set (new_ui := {| device_id := device; consumed_cse_result_ids := [];
                    consumed_agent_insights_result_ids := [] |}).
  unfold first_device, stored_results, add_ui_device_to_user_if_not_exists,
    create_user_results_if_not_exists.
  destruct (db !! user_id) as [u|] eqn:Hu.
  - rewrite Hu. destruct (ui_list u) as [|ui rest] eqn:Hui.
    + intros _. simpl. exists new_ui. split; [|reflexivity].
      eexists _, []. rewrite lookup_insert_eq. split; [reflexivity|].
      split; reflexivity.
    + intros Hdev. subst device. rewrite has_device_head. simpl.
      exists ui. split; [|reflexivity]. exists u, rest. auto.
  - intros _. rewrite lookup_insert_eq. simpl. exists new_ui.
    split; [|reflexivity].
    eexists _, []. rewrite lookup_insert_eq. split; [reflexivity|].
    split; reflexivity.
Qed.

Lemma add_ui_device_registered (user_id : string) (db : results_store)
    (results : list cse_result) (ui : ui_device) :
  first_device_state user_id db results ui ->
  add_ui_device_to_user_if_not_exists user_id (device_id ui) db = db.
Proof.
  intros [u [rest [Hu [_ Hui]]]].
  unfold add_ui_device_to_user_if_not_exists,
    create_user_results_if_not_exists.
  rewrite Hu, Hu, Hui, has_device_head. reflexivity.
Qed.

Lemma consumed_ids_first (user_id : string) (db : results_store)
    (results : list cse_result) (ui : ui_device) (device : string) :
  first_device_state user_id db results ui ->
  get_consumed_cse_result_ids_for_user_device user_id device db
  = if has_device device (ui_list (default new_user_results (db !! user_id)))
    then consumed_cse_result_ids ui else [].
Proof.
  intros [u [rest [Hu [_ Hui]]]].
  unfold get_consumed_cse_result_ids_for_user_device. rewrite Hu. simpl.
  rewrite Hui. reflexivity.
Qed.

Lemma unconsumed_results_nil (already : list string)
    (results : list cse_result) :
  (forall res id, res ∈ results -> result_uuid res = Some id ->
                  id ∈ already) ->
  unconsumed_results already results = [].
Proof.
  intros H. unfold unconsumed_results.
  induction results as [|res results IH]; [reflexivity|]. simpl.
  unfold is_unconsumed at 1. destruct (result_uuid res) as [id|] eqn:Hid.
  - rewrite bool_decide_eq_false_2.
    + apply IH. intros r i Hr. apply H. right. exact Hr.
    + intros Hout. apply Hout. eapply H; [left|exact Hid].
  - apply IH. intros r i Hr. apply H. right. exact Hr.
Qed.

(** For the first device of a user, what a consuming call has returned is
    not returned by the next call. *)
Theorem first_device_consumes_once (user_id device : string)
    (db : results_store) :
  first_device user_id device db ->
  let '(first, db1) :=
    get_cse_results_for_user_device user_id device true false db in
  let '(second, db2) :=
    get_cse_results_for_user_device user_id device true false db1 in
  second = [].
Proof.
  intros Hfirst.
  destruct (add_ui_device_first _ _ _ Hfirst) as [ui [Hst Hdev]].
  subst device.
  destruct (get_cse_results_for_user_device user_id (device_id ui) true false
              db) as [first db1] eqn:Hcall1.
  destruct (get_cse_results_for_user_device user_id (device_id ui) true false
              db1) as [second db2] eqn:Hcall2.
  unfold get_cse_results_for_user_device in Hcall1.
  set (db0 := add_ui_device_to_user_if_not_exists user_id (device_id ui) db)
    in *.
  set (stored := stored_results user_id db) in *.
  assert (Hstored0 : match db0 !! user_id with
                     | Some u => cse_results u
                     | None => []
                     end = stored).
  { destruct Hst as [u [rest [Hu [Hres _]]]]. rewrite Hu. exact Hres. }
  rewrite Hstored0 in Hcall1. cbv beta iota in Hcall1.
  destruct (collect_first_device user_id
              (get_consumed_cse_result_ids_for_user_device user_id
                 (device_id ui) db0)
              stored stored [] db0 ui Hst) as [ui' [Hst' [Hdev' [_ Hall]]]].
  { rewrite (consumed_ids_first _ _ _ _ _ Hst).
    destruct (has_device _ _); [auto|]. intros id Hid. inversion Hid. }
  unfold collect_new_results in Hcall1.
  change (fun '(new_results, db) res =>
            match result_uuid res with
            | Some id =>
                if decide (id ∈ get_consumed_cse_result_ids_for_user_device
                                  user_id (device_id ui) db0)
                then (new_results, db)
                else (new_results ++ [res],
                      if true
                      then add_consumed_cse_result_id_for_user_device user_id
                             (device_id ui) id db
                      else db)
            | None => (new_results, db)
            end)
    with (fun '(new_results, db) res =>
            match result_uuid res with
            | Some id =>
                if decide (id ∈ get_consumed_cse_result_ids_for_user_device
                                  user_id (device_id ui) db0)
                then (new_results, db)
                else (new_results ++ [res],
                      add_consumed_cse_result_id_for_user_device user_id
                        (device_id ui) id db)
            | None => (new_results, db)
            end) in Hcall1.
  rewrite Hcall1 in Hst'. cbn [snd] in Hst'.
  (* the second call *)
  apply (f_equal fst) in Hcall2. cbn [fst] in Hcall2. rewrite <- Hcall2.
  unfold get_cse_results_for_user_device. rewrite <- Hdev'.
  rewrite (add_ui_device_registered _ _ _ _ Hst').
  rewrite collect_new_results_returns.
  rewrite (consumed_ids_first _ _ _ _ _ Hst').
  destruct Hst' as [u1 [rest1 [Hu1 [Hres1 Hui1]]]].
  rewrite Hu1. change (default new_user_results (Some u1)) with u1.
  rewrite Hui1, has_device_head, Hres1.
  apply unconsumed_results_nil. exact Hall.
Qed.

Lemma first_device_consumes_once_witness :
  first_device "u" "glasses" two_device_store
  /\ let '(first, db1) :=
       get_cse_results_for_user_device "u" "glasses" true false
         two_device_store in
     let '(second, db2) :=
       get_cse_results_for_user_device "u" "glasses" true false db1 in
     second = [].
Proof.
  assert (H : first_device "u" "glasses" two_device_store)
    by (vm_compute; reflexivity).
  split; [exact H|].
  exact (first_device_consumes_once "u" "glasses" two_device_store H).
Defined.

Lemma has_device_app (device : string) (l l' : list ui_device) :
  has_device device (l ++ l') = has_device device l || has_device device l'.
Proof. unfold has_device. apply existsb_app. Qed.

Lemma add_ui_device_keeps_first (user_id device : string)
    (db : results_store) (results : list cse_result) (ui : ui_device) :
  first_device_state user_id db results ui ->
  first_device_state user_id
    (add_ui_device_to_user_if_not_exists user_id device db) results ui
  /\ has_device device
       (ui_list (default new_user_results
                   (add_ui_device_to_user_if_not_exists user_id device db
                    !! user_id))) = true.
Proof.
  intros [u [rest [Hu [Hres Hui]]]].
  unfold add_ui_device_to_user_if_not_exists,
    create_user_results_if_not_exists.
  rewrite Hu, Hu. destruct (has_device device (ui_list u)) eqn:Hhas; simpl.
  - split; [exists u, rest; auto|]. rewrite Hu. exact Hhas.
  - rewrite lookup_insert_eq. split.
    + eexists _, (rest ++ _). rewrite lookup_insert_eq.
      split; [reflexivity|]. split; [exact Hres|]. simpl. rewrite Hui.
      reflexivity.
    + simpl. rewrite has_device_app. unfold has_device at 2. simpl.
      rewrite bool_decide_eq_true_2 by reflexivity. apply orb_true_r.
Qed.

(** A call for a device that is not the first one reads the consumed ids of
    the first device. *)
Lemma get_cse_results_later (user_id device : string) (should_consume : bool)
    (db : results_store) (results : list cse_result) (ui : ui_device) :
  device_id ui <> device ->
  first_device_state user_id db results ui ->
  fst (get_cse_results_for_user_device user_id device should_consume false db)
  = unconsumed_results (consumed_cse_result_ids ui) results
  /\ first_device_state user_id
       (snd (get_cse_results_for_user_device user_id device should_consume
               false db)) results ui.
Proof.
  intros Hne Hst. unfold get_cse_results_for_user_device.
  destruct (add_ui_device_keeps_first user_id device db results ui Hst)
    as [Hst0 Hhas].
  set (db0 := add_ui_device_to_user_if_not_exists user_id device db) in *.
  split.
  - rewrite collect_new_results_returns.
    rewrite (consumed_ids_first _ _ _ _ _ Hst0), Hhas.
    destruct Hst0 as [u0 [rest0 [Hu0 [Hres0 _]]]]. rewrite Hu0, Hres0.
    reflexivity.
  - apply (collect_invariant
             (fun db => first_device_state user_id db results ui));
      [|exact Hst0].
    intros id db' Hdb'. apply add_consumed_later; assumption.
Qed.

(** For a device that is not the first one of the user's list, the consumed
    ids are those of the first device: the call returns the results that
    the first device has not consumed, and the next call returns them
    again. *)
Theorem later_device_results_repeat (user_id device : string)
    (should_consume : bool) (db : results_store) :
  later_device user_id device db ->
  let '(first, db1) :=
    get_cse_results_for_user_device user_id device should_consume false db in
  let '(second, db2) :=
    get_cse_results_for_user_device user_id device should_consume false db1 in
  first = unconsumed_results (first_consumed_ids user_id db)
            (stored_results user_id db)
  /\ second = first.
Proof.
  intros [u [ui [rest [Hu [Hui Hne]]]]].
  unfold first_consumed_ids, stored_results. rewrite Hu, Hui.
  assert (Hst : first_device_state user_id db (cse_results u) ui)
    by (exists u, rest; auto).
  destruct (get_cse_results_later user_id device should_consume db _ ui
              Hne Hst) as [Hfirst Hst1].
  destruct (get_cse_results_for_user_device user_id device should_consume
              false db) as [first db1].
  cbn [fst snd] in Hfirst, Hst1.
  destruct (get_cse_results_later user_id device should_consume db1 _ ui
              Hne Hst1) as [Hsecond _].
  destruct (get_cse_results_for_user_device user_id device should_consume
              false db1) as [second db2].
  cbn [fst] in Hsecond. split; congruence.
Qed.

Lemma later_device_results_repeat_witness :
  later_device "u" "phone" two_device_store
  /\ let '(first, db1) :=
       get_cse_results_for_user_device "u" "phone" true false
         two_device_store in
     let '(second, db2) :=
       get_cse_results_for_user_device "u" "phone" true false db1 in
     first = unconsumed_results (first_consumed_ids "u" two_device_store)
               (stored_results "u" two_device_store)
     /\ second = first.
Proof.
  assert (H : later_device "u" "phone" two_device_store).
  { eexists _, _, _. split; [vm_compute; reflexivity|].
    split; [reflexivity|discriminate]. }
  split; [exact H|].
  exact (later_device_results_repeat "u" "phone" true two_device_store H).
Defined.

(** ** The devices of a user stay distinct *)

Lemma has_device_false (device : string) (l : list ui_device) :
  has_device device l = false -> device ∉ map device_id l.
Proof.
  unfold has_device. induction l as [|ui l IH]; simpl; intros H Hin.
  - inversion Hin.
  - apply orb_false_iff in H as [Hui Hl].
    apply bool_decide_eq_false in Hui.
    apply elem_of_cons in Hin as [->|Hin]; [apply Hui; reflexivity|].
    exact (IH Hl Hin).
Qed.

Lemma add_ui_device_distinct (user_id device : string) (db : results_store) :
  map_Forall (fun _ => devices_distinct) db ->
  map_Forall (fun _ => devices_distinct)
    (add_ui_device_to_user_if_not_exists user_id device db).
Proof.
  intros Hdb. unfold add_ui_device_to_user_if_not_exists.
  assert (Hdb' : map_Forall (fun _ => devices_distinct)
                   (create_user_results_if_not_exists user_id db)).
  { unfold create_user_results_if_not_exists.
    destruct (db !! user_id); [exact Hdb|].
    apply map_Forall_insert_2; [constructor|exact Hdb]. }
  destruct (create_user_results_if_not_exists user_id db !! user_id)
    as [u|] eqn:Hu; [|exact Hdb'].
  destruct (has_device device (ui_list u)) eqn:Hhas; simpl; [exact Hdb'|].
  apply map_Forall_insert_2; [|exact Hdb'].
  unfold devices_distinct. simpl. rewrite map_app. simpl.
  apply NoDup_app. split; [exact (Hdb' _ _ Hu)|]. split.
  - intros x Hx Hx'. apply list_elem_of_singleton in Hx'. subst x.
    exact (has_device_false _ _ Hhas Hx).
  - apply NoDup_singleton.
Qed.

Lemma add_consumed_distinct (user_id device id : string)
    (db : results_store) :
  map_Forall (fun _ => devices_distinct) db ->
  map_Forall (fun _ => devices_distinct)
    (add_consumed_cse_result_id_for_user_device user_id device id db).
Proof.
  intros Hdb. unfold add_consumed_cse_result_id_for_user_device.
  destruct (db !! user_id) as [u|] eqn:Hu; [|exact Hdb].
  destruct (has_device device (ui_list u)); [|exact Hdb].
  apply map_Forall_insert_2; [|exact Hdb].
  unfold devices_distinct. simpl. rewrite mark_consumed_device_ids.
  exact (Hdb _ _ Hu).
Qed.

(** No call of [get_cse_results_for_user_device] gives a user two devices
    with the same id. *)
Theorem devices_distinct_preserved (user_id device : string)
    (should_consume include_consumed : bool) (db : results_store) :
  map_Forall (fun _ => devices_distinct) db ->
  map_Forall (fun _ => devices_distinct)
    (snd (get_cse_results_for_user_device user_id device should_consume
            include_consumed db)).
Proof.
  intros Hdb. unfold get_cse_results_for_user_device.
  apply (collect_invariant (map_Forall (fun _ => devices_distinct))).
  - intros id db' Hdb'. apply add_consumed_distinct, Hdb'.
  - apply add_ui_device_distinct, Hdb.
Qed.

Lemma devices_distinct_preserved_witness :
  map_Forall (fun _ => devices_distinct)
    ({[ "u"%string := two_device_user ]} : results_store)
  /\ map_Forall (fun _ => devices_distinct)
       (snd (get_cse_results_for_user_device "u" "watch" true false
               {[ "u"%string := two_device_user ]})).
Proof.
  assert (H : map_Forall (fun _ => devices_distinct)
                ({[ "u"%string := two_device_user ]} : results_store)).
  { apply map_Forall_singleton. unfold devices_distinct. simpl.
    apply NoDup_cons. split; [|apply NoDup_singleton].
    intros Hin. apply list_elem_of_singleton in Hin. discriminate. }
  split; [exact H|].
  exact (devices_distinct_preserved "u" "watch" true false _ H).
Defined.

(** The call registers the new device behind the two that the user has. *)
Example third_device_registered :
  get_all_ui_devices_for_user "u"
    (snd (get_cse_results_for_user_device "u" "watch" true false
            {[ "u"%string := two_device_user ]}))
  = Some ["glasses"; "phone"; "watch"]%string.
Proof. vm_compute. reflexivity. Qed.


(** ** The whole match of a raw match *)

Lemma extend_left_span (l : pystr) :
  forall rest substring,
    extend_left (l ++ rest) (length l) substring
    = Some (rev (fst (span not_separator (rev l))) ++ substring).
Proof.
  induction l as [|c l IH] using rev_ind; intros rest substring;
    [reflexivity|].
  rewrite length_app, Nat.add_comm. cbn [length Nat.add extend_left].
  rewrite <- app_assoc.
  rewrite (lookup_app_r l) by lia. rewrite Nat.sub_diag. cbn [lookup app].
  simpl. rewrite rev_app_distr. cbn [rev app span]. unfold not_separator at 1.
  destruct (is_separator c); cbn [negb]; [reflexivity|].
  rewrite IH. destruct (span not_separator (rev l)) as [run rest'].
  cbn [fst rev]. rewrite <- app_assoc. reflexivity.
Qed.

Lemma extend_right_span (r : pystr) :
  forall before substring,
    extend_right (length r) (before ++ r) (len before) substring
    = Some (substring ++ fst (span not_separator r)).
Proof.
  induction r as [|c r IH]; intros before substring; cbn [length extend_right].
  - simpl. rewrite app_nil_r. reflexivity.
  - assert (Hc : index (before ++ c :: r) (len before) = Some c).
    { unfold index, len. destruct (Z.ltb_spec (Z.of_nat (length before)) 0);
        [lia|].
      rewrite Nat2Z.id, lookup_app_r by lia. rewrite Nat.sub_diag.
      reflexivity. }
    rewrite Hc. cbn [mbind option_bind span]. unfold not_separator at 1.
    destruct (is_separator c); cbn [negb].
    + simpl. rewrite app_nil_r. reflexivity.
    + replace (len before + 1) with (len (before ++ [c]))
        by (unfold len; rewrite length_app; simpl; lia).
      replace (before ++ c :: r) with ((before ++ [c]) ++ r)
        by (rewrite <- app_assoc; reflexivity).
      rewrite IH. destruct (span not_separator r) as [run rest'].
      cbn [fst]. rewrite <- app_assoc. reflexivity.
Qed.

Lemma slice_middle {A : Type} (l mid r : list A) :
  slice (l ++ mid ++ r) (len l) (len l + len mid) = mid.
Proof.
  rewrite slice_in_range.
  - unfold len. rewrite !Nat2Z.id, drop_app_length, take_app_length.
    reflexivity.
  - unfold len. lia.
  - unfold len. lia.
  - unfold len. rewrite !length_app. lia.
Qed.

(** The whole match of a raw match that covers [mid] between [l] and
    [r]. *)
Lemma get_whole_match_span (l mid r : pystr) (m : Match) :
  m_start m = len l ->
  m_end m = len l + len mid ->
  get_whole_match m (l ++ mid ++ r)
  = Some (rev (fst (span not_separator (rev l)))
          ++ mid ++ fst (span not_separator r)).
Proof.
  intros Hs He. unfold get_whole_match. rewrite Hs, He, slice_middle.
  replace (Z.to_nat (len l)) with (length l) by (unfold len; lia).
  rewrite extend_left_span. cbn [mbind option_bind].
  replace (Z.to_nat (len (l ++ mid ++ r) - (len l + len mid)))
    with (length r) by (unfold len; rewrite !length_app; lia).
  replace (len l + len mid) with (len (l ++ mid))
    by (unfold len; rewrite length_app; lia).
  rewrite (app_assoc l mid r), extend_right_span, <- app_assoc.
  reflexivity.
Qed.

(** A string is its part before a range, the range and its part after
    it. *)
Lemma slice_parts {A : Type} (s : list A) (a b : Z) :
  0 <= a <= b -> b <= len s ->
  s = slice_to s a ++ slice s a b ++ slice_from s b
  /\ len (slice_to s a) = a
  /\ len (slice s a b) = b - a.
Proof.
  intros Hab Hb. unfold slice_to, slice, slice_from, norm_index.
  destruct (Z.ltb_spec a 0); [lia|]. destruct (Z.ltb_spec b 0); [lia|].
  rewrite !Z.min_l by lia. unfold len in *.
  split; [|split].
  - rewrite <- (take_drop (Z.to_nat a) s) at 1. f_equal.
    rewrite <- (take_drop (Z.to_nat b - Z.to_nat a) (drop (Z.to_nat a) s))
      at 1.
    f_equal. rewrite drop_drop. f_equal. lia.
  - rewrite length_take. lia.
  - rewrite length_take, length_drop. lia.
Qed.

(** For a raw match that lies in the string, the whole match is the matched
    text widened on both sides up to the nearest separator or end of the
    string. *)
Theorem get_whole_match_widens (s : pystr) (m : Match) :
  0 <= m_start m <= m_end m ->
  m_end m <= len s ->
  get_whole_match m s
  = Some (rev (fst (span not_separator (rev (slice_to s (m_start m)))))
          ++ slice s (m_start m) (m_end m)
          ++ fst (span not_separator (slice_from s (m_end m)))).
Proof.
  intros Hse He.
  destruct (slice_parts s (m_start m) (m_end m) Hse He) as [Hs [Hl Hmid]].
  rewrite Hs at 1. apply get_whole_match_span; lia.
Qed.

Lemma get_whole_match_widens_witness :
  0 <= m_start (MkMatch 4 13 0) <= m_end (MkMatch 4 13 0)
  /\ m_end (MkMatch 4 13 0) <= len (str "the quick brown, fox")
  /\ get_whole_match (MkMatch 4 13 0) (str "the quick brown, fox")
     = Some (rev (fst (span not_separator
                         (rev (slice_to (str "the quick brown, fox")
                                 (m_start (MkMatch 4 13 0))))))
             ++ slice (str "the quick brown, fox")
                  (m_start (MkMatch 4 13 0)) (m_end (MkMatch 4 13 0))
             ++ fst (span not_separator
                       (slice_from (str "the quick brown, fox")
                          (m_end (MkMatch 4 13 0))))).
Proof.
  assert (H1 : 0 <= m_start (MkMatch 4 13 0) <= m_end (MkMatch 4 13 0))
    by (simpl; lia).
  assert (H2 : m_end (MkMatch 4 13 0) <= len (str "the quick brown, fox"))
    by (vm_compute; discriminate).
  split; [exact H1|]. split; [exact H2|].
  exact (get_whole_match_widens (str "the quick brown, fox")
           (MkMatch 4 13 0) H1 H2).
Defined.

Example get_whole_match_quick_brown :
  get_whole_match (MkMatch 4 13 0) (str "the quick brown, fox")
  = Some (str "quick brown").
Proof. reflexivity. Qed.


(** ** The search over the custom data raises no exception *)

Lemma index_in_range {A : Type} (l : list A) (i : Z) :
  0 <= i < len l -> is_Some (index l i).
Proof.
  intros Hi. unfold index. destruct (Z.ltb_spec i 0); [lia|].
  apply lookup_lt_is_Some_2. unfold len in Hi. lia.
Qed.

Lemma index_nonneg {A : Type} (l : list A) (i : Z) :
  0 <= i -> index l i = l !! Z.to_nat i.
Proof. intros Hi. unfold index. destruct (Z.ltb_spec i 0); [lia|done]. Qed.

Lemma get_whole_match_in_range (s : pystr) (m : Match) :
  in_range s m -> is_Some (get_whole_match m s).
Proof.
  intros [Hse He].
  destruct (slice_parts s (m_start m) (m_end m) Hse He) as [Hs [Hl Hmid]].
  rewrite Hs. rewrite get_whole_match_span by lia. by eexists.
Qed.

Lemma elem_of_enumerate {A : Type} (l : list A) (i : Z) (x : A) :
  (i, x) ∈ enumerate l <-> 0 <= i /\ l !! Z.to_nat i = Some x.
Proof.
  unfold enumerate. rewrite elem_of_lookup_imap. split.
  - intros [n [y [[= -> ->] Hy]]]. split; [lia|].
    rewrite Nat2Z.id. exact Hy.
  - intros [Hi Hx]. exists (Z.to_nat i), x. split; [f_equal; lia|exact Hx].
Qed.

Lemma dict_set_elem {V : Type} (k : cell) (v : V) (d : dict V) :
  forall kv, kv ∈ dict_set k v d -> kv = (k, v) \/ kv ∈ d.
Proof.
  induction d as [|[k' v'] d IH]; simpl; intros kv Hkv.
  - apply list_elem_of_singleton in Hkv. auto.
  - destruct (decide (k' = k)).
    + apply elem_of_cons in Hkv as [->|Hkv]; [auto|].
      right. right. exact Hkv.
    + apply elem_of_cons in Hkv as [->|Hkv]; [right; left|].
      destruct (IH kv Hkv) as [->|H]; [auto|right; right; exact H].
Qed.

(** A candidate window of the words of a text splits back into the words
    it was joined from. *)
Lemma window_split_back (talk : pystr) (max_size : Z) (c : pystr) :
  is_window (split talk) max_size c ->
  exists run,
    contiguous_run (split talk) run /\ 2 <= len run <= max_size
    /\ c = join [space] run /\ split c = run.
Proof.
  intros [run [Hrun [Hlen ->]]]. exists run. repeat split; try tauto.
  apply split_join. destruct Hrun as [before [after Hw]].
  pose proof (split_words talk) as Hall. rewrite Hw in Hall.
  apply Forall_app in Hall as [_ Hall].
  apply Forall_app in Hall as [Hall _]. exact Hall.
Qed.

Section CustomDataSearch.

Variable find_near_matches : pystr -> pystr -> Z -> Z -> Z -> Z -> list Match.
Variable get_word_freq_index : pystr -> float.
Variable np_mean : list float -> float.
Variable set_order : gset pystr -> list pystr.
Variable self : ContextualSearchEngine.

Local Abbreviation custom_fuzzy_search' :=
  (custom_fuzzy_search find_near_matches get_word_freq_index np_mean
     (banned_words self)).
Local Abbreviation search_combinations' :=
  (search_combinations find_near_matches get_word_freq_index np_mean self).
Local Abbreviation fuzzy_search' :=
  (fuzzy_search_on_user_custom_data find_near_matches get_word_freq_index
     np_mean set_order self).

Lemma accept_match_total (to_search searched_entity : pystr) (m : Match) :
  in_range searched_entity m ->
  is_Some (accept_match get_word_freq_index np_mean to_search searched_entity
             m).
Proof.
  intros Hm. destruct (get_whole_match_in_range _ _ Hm) as [w Hw].
  destruct Hm as [Hse He]. unfold accept_match. rewrite Hw. simpl.
  destruct (_ >=? 2); [by eexists|].
  destruct (_ && _); [by eexists|].
  destruct (_ && _); [by eexists|].
  destruct (Z.eqb_spec (m_start m) 0) as [H0|H0]; simpl; [by eexists|].
  destruct (index_in_range searched_entity (m_start m - 1)) as [c Hc];
    [lia|].
  rewrite Hc. simpl. destruct (Ascii.eqb c space); by eexists.
Qed.

Lemma accepted_matches_total (to_search searched_entity : pystr) (idx : Z)
    (ms : list Match) :
  Forall (in_range searched_entity) ms ->
  is_Some (accepted_matches get_word_freq_index np_mean to_search
             searched_entity idx ms).
Proof.
  induction 1 as [|m ms Hm Hms [ids IH]]; simpl; [by eexists|].
  destruct (accept_match_total to_search _ _ Hm) as [ok Hok].
  rewrite Hok, IH. by eexists.
Qed.

Lemma search_combinations_elem (word_combos : list pystr)
    (entities : list (Z * cell)) :
  forall ids,
    search_combinations' word_combos entities = Some ids ->
    forall idx, idx ∈ ids ->
      exists combination curr_matches,
        combination ∈ word_combos
        /\ custom_fuzzy_search' combination entities default_config
           = Some curr_matches
        /\ idx ∈ curr_matches.
Proof.
  induction word_combos as [|c cs IH]; simpl; intros ids Hids idx Hidx.
  - injection Hids as <-. inversion Hidx.
  - destruct (custom_fuzzy_search' c entities default_config) as [cur|] eqn:Hc;
      [simpl in Hids|discriminate].
    destruct (search_combinations' cs entities) as [more|];
      [simpl in Hids|discriminate].
    injection Hids as <-. apply elem_of_app in Hidx as [Hidx|Hidx].
    + exists c, cur. split; [left|]. split; [exact Hc|exact Hidx].
    + destruct (IH more eq_refl idx Hidx) as [c' [cur' [Hc' H]]].
      exists c', cur'. split; [right; exact Hc'|exact H].
Qed.

Lemma build_matches_elem (rows : list catalog_row) (matches_idxs : list Z) :
  forall matches d,
    build_matches rows matches_idxs matches = Some d ->
    forall kv, kv ∈ d ->
      kv ∈ matches
      \/ exists mi row,
           mi ∈ matches_idxs /\ index rows mi = Some row
           /\ kv = (row_title row, row_info row).
Proof.
  induction matches_idxs as [|mi rest IH]; simpl; intros matches d Hd kv Hkv.
  - injection Hd as <-. auto.
  - destruct (index rows mi) as [row|] eqn:Hrow; [simpl in Hd|discriminate].
    destruct (IH _ _ Hd kv Hkv) as [Hin|[mi' [row' [Hmi' H]]]].
    + apply dict_set_elem in Hin as [->|Hin]; [|auto].
      right. exists mi, row. split; [left|]. split; [exact Hrow|reflexivity].
    + right. exists mi', row'. split; [right; exact Hmi'|exact H].
Qed.

Lemma build_matches_total (rows : list catalog_row) (matches_idxs : list Z) :
  Forall (fun mi => 0 <= mi < len rows) matches_idxs ->
  forall matches, is_Some (build_matches rows matches_idxs matches).
Proof.
  induction 1 as [|mi rest Hmi Hrest IH]; simpl; intros matches;
    [by eexists|].
  destruct (index_in_range rows mi Hmi) as [row Hrow]. rewrite Hrow. simpl.
  apply IH.
Qed.

(** An index paired with a title by [enumerate] is the index of a row with
    that title. *)
Lemma enumerate_titles_row (rows : list catalog_row) (mi : Z)
    (entity : cell) :
  (mi, entity) ∈ enumerate (map row_title rows) ->
  0 <= mi < len rows
  /\ exists row, index rows mi = Some row /\ row_title row = entity.
Proof.
  intros H. apply elem_of_enumerate in H as [Hmi Hlook].
  rewrite list_lookup_fmap in Hlook.
  destruct (rows !! Z.to_nat mi) as [row|] eqn:Hrow; [|discriminate].
  injection Hlook as <-. split.
  - apply lookup_lt_Some in Hrow. unfold len. lia.
  - exists row. rewrite index_nonneg by lia. auto.
Qed.

(** The search of a user with loaded data, for a frame that has the two
    columns. *)
Lemma fuzzy_search_loaded (user_id : string) (talk : pystr) (g : rng)
    (df : data_frame) :
  custom_data self !! user_id = Some df ->
  df_rows df <> [] ->
  has_columns df ->
  fuzzy_search' user_id talk g
  = (matches_idxs ←
       search_combinations'
         (set_order (find_combinations (split talk) (max_window_size self)))
         (enumerate (map row_title (df_rows df)));
     matches ← build_matches (df_rows df) matches_idxs [];
     remove_random_false_positives matches unreasonable_num g).
Proof.
  intros Hdf Hrows [Ht Hd].
  unfold fuzzy_search_on_user_custom_data, does_user_have_custom_data_loaded,
    uncapped_matches.
  rewrite Hdf. cbn [default]. change (id df) with df.
  destruct (df_rows df) as [|row rows] eqn:Hr; [done|].
  rewrite Ht, Hd. cbn [negb]. cbv iota.
  destruct (search_combinations' _ _); reflexivity.
Qed.

(** The search of a user with loaded data raises a KeyError when the frame
    lacks one of the two columns, whatever the talk. *)
Lemma fuzzy_search_missing_column (user_id : string) (talk : pystr) (g : rng)
    (df : data_frame) :
  custom_data self !! user_id = Some df ->
  df_rows df <> [] ->
  has_title df = false \/ has_description df = false ->
  fuzzy_search' user_id talk g = None.
Proof.
  intros Hdf Hrows Hcol.
  unfold fuzzy_search_on_user_custom_data, does_user_have_custom_data_loaded,
    uncapped_matches.
  rewrite Hdf. cbn [default]. change (id df) with df.
  destruct (df_rows df) as [|row rows] eqn:Hr; [done|].
  cbn [negb]. cbv iota.
  destruct (has_title df); [|reflexivity].
  destruct Hcol as [Hcol|Hcol]; [discriminate|]. rewrite Hcol. reflexivity.
Qed.

Hypothesis set_order_sound :
  forall (X : gset pystr) (x : pystr), x ∈ set_order X -> x ∈ X.

(** Every entry of the result is the entry of a row of the user's data,
    under the title of the row, which is a string, and the normalised
    title has an accepted raw match of a window of 2 to [max_window_size]
    words of the talk. *)
Theorem fuzzy_search_entries_from_catalog (user_id : string) (talk : pystr)
    (g g' : rng) (matches : dict match_info) :
  fuzzy_search' user_id talk g = Some (matches, g') ->
  forall k v, (k, v) ∈ matches ->
    exists df mi row title combination m,
      custom_data self !! user_id = Some df
      /\ index (df_rows df) mi = Some row
      /\ row_title row = Text title
      /\ k = row_title row /\ v = row_info row
      /\ is_window (split talk) (max_window_size self) combination
      /\ m ∈ near_matches find_near_matches combination default_config title
      /\ accept_match get_word_freq_index np_mean combination
           (searched_entity_of title) m = Some true.
Proof.
  unfold fuzzy_search_on_user_custom_data, does_user_have_custom_data_loaded.
  unfold uncapped_matches.
  destruct (custom_data self !! user_id) as [df|] eqn:Hdf; simpl;
    [|intros [= <- <-] k v Hkv; inversion Hkv].
  destruct (df_rows df) as [|row0 rows0] eqn:Hrows0; simpl negb; cbv iota;
    [intros [= <- <-] k v Hkv; inversion Hkv|].
  rewrite <- Hrows0. clear Hrows0.
  destruct (has_title df); [|discriminate].
  destruct (has_description df); [|discriminate]. cbn [negb]. cbv iota.
  destruct (search_combinations' _ _) as [ids|] eqn:Hids;
    [simpl|discriminate].
  destruct (build_matches (df_rows df) ids []) as [d|] eqn:Hd;
    [simpl|discriminate].
  intros Hcap k v Hkv.
  apply remove_loop_sublist in Hcap.
  assert (Hkd : (k, v) ∈ d) by (eapply elem_of_sublist; eassumption).
  destruct (build_matches_elem _ _ _ _ Hd _ Hkd)
    as [Hnil|[mi [row [Hmi [Hrow [= -> ->]]]]]]; [inversion Hnil|].
  destruct (search_combinations_elem _ _ _ Hids mi Hmi)
    as [c [cur [Hc [Hcur Hin]]]].
  destruct (custom_fuzzy_search_elem _ _ _ _ _ _ _ _ Hcur mi Hin)
    as [title [m [Hent [Hm Hacc]]]].
  apply enumerate_titles_row in Hent as [_ [row' [Hrow' Htitle]]].
  assert (row' = row) by congruence. subst row'.
  exists df, mi, row, title, c, m. repeat split; try assumption.
  apply find_combinations_elem, set_order_sound, Hc.
Qed.

(** A talk of fewer than two words yields no candidate, so nothing is
    searched and the result is empty; so it is for a window size below 2.
    The frame of a user with loaded data must have the two columns. *)
Theorem fuzzy_search_needs_two_words (user_id : string) (talk : pystr)
    (g : rng) :
  (forall df, custom_data self !! user_id = Some df -> has_columns df) ->
  len (split talk) < 2 \/ max_window_size self < 2 ->
  fuzzy_search' user_id talk g = Some ([], g).
Proof.
  intros Hcols Hshort.
  assert (Hnone : set_order (find_combinations (split talk)
                               (max_window_size self)) = []).
  { apply elem_of_nil_inv. intros c Hc.
    apply set_order_sound, find_combinations_elem in Hc.
    destruct Hc as [run [[before [after Hw]] [Hlen _]]].
    apply (f_equal (@length pystr)) in Hw. rewrite !length_app in Hw.
    unfold len in *. lia. }
  destruct (custom_data self !! user_id) as [df|] eqn:Hdf.
  - destruct (df_rows df) as [|row rows] eqn:Hrows.
    + unfold fuzzy_search_on_user_custom_data,
        does_user_have_custom_data_loaded. rewrite Hdf, Hrows. reflexivity.
    + rewrite (fuzzy_search_loaded user_id talk g df Hdf);
        [|rewrite Hrows; discriminate|apply Hcols; reflexivity].
      rewrite Hnone. reflexivity.
  - unfold fuzzy_search_on_user_custom_data,
      does_user_have_custom_data_loaded. rewrite Hdf. reflexivity.
Qed.

Hypothesis matches_in_range :
  forall subsequence sequence d i s l m,
    m ∈ find_near_matches subsequence sequence d i s l ->
    in_range sequence m.

Lemma search_entities_total (to_search : pystr) (config : search_config)
    (entities : list (Z * cell)) :
  Forall (fun entity => is_Some (text_of entity.2)) entities ->
  is_Some (search_entities find_near_matches get_word_freq_index np_mean
             to_search config entities).
Proof.
  induction 1 as [|[idx entity] rest [title Ht] _ [more IH]]; simpl;
    [by eexists|].
  simpl in Ht. rewrite Ht. simpl.
  destruct (accepted_matches_total to_search (searched_entity_of title) idx
              (near_matches find_near_matches to_search config title))
    as [here Hhere].
  - apply Forall_forall. intros m Hm. eapply matches_in_range, Hm.
  - rewrite Hhere, IH. by eexists.
Qed.

Lemma custom_fuzzy_search_total (to_search : pystr)
    (entities : list (Z * cell)) (config : search_config) :
  split to_search <> [] ->
  Forall (fun entity => is_Some (text_of entity.2)) entities ->
  is_Some (custom_fuzzy_search' to_search entities config).
Proof.
  intros Hne Htext. unfold custom_fuzzy_search, cheap_reject, banned_fraction.
  destruct (len to_search <? 8); [by eexists|].
  destruct (split to_search) as [|w ws] eqn:Hw; [done|]. simpl.
  destruct (Qle_bool _ _); [by eexists|].
  destruct (float_lt _ _); [by eexists|].
  simpl. apply search_entities_total, Htext.
Qed.

Lemma search_combinations_total (word_combos : list pystr)
    (entities : list (Z * cell)) :
  Forall (fun c => split c <> []) word_combos ->
  Forall (fun entity => is_Some (text_of entity.2)) entities ->
  is_Some (search_combinations' word_combos entities).
Proof.
  intros Hcombos Htext.
  induction Hcombos as [|c cs Hc Hcs [more IH]]; simpl; [by eexists|].
  destruct (custom_fuzzy_search_total c entities default_config Hc Htext)
    as [cur Hcur].
  rewrite Hcur, IH. by eexists.
Qed.

(** With a matcher whose matches lie in the title they were found in, the
    search raises no exception for a frame that has the two columns and
    whose titles are all strings, whatever the talk, the banned words and
    the frequency index. *)
Theorem fuzzy_search_never_raises (user_id : string) (talk : pystr)
    (g : rng) :
  (forall df, custom_data self !! user_id = Some df ->
              has_columns df /\ text_titles df) ->
  is_Some (fuzzy_search' user_id talk g).
Proof.
  intros Hframe.
  destruct (custom_data self !! user_id) as [df|] eqn:Hdf.
  2:{ unfold fuzzy_search_on_user_custom_data,
        does_user_have_custom_data_loaded. rewrite Hdf. by eexists. }
  destruct (Hframe df eq_refl) as [Hcols Htext].
  assert (Hcase : df_rows df = [] \/ df_rows df <> [])
    by (destruct (df_rows df); [left|right]; done).
  destruct Hcase as [Hrows|Hrows].
  { unfold fuzzy_search_on_user_custom_data,
      does_user_have_custom_data_loaded. rewrite Hdf, Hrows. by eexists. }
  rewrite (fuzzy_search_loaded user_id talk g df Hdf Hrows Hcols).
  destruct (search_combinations_total
              (set_order (find_combinations (split talk)
                            (max_window_size self)))
              (enumerate (map row_title (df_rows df)))) as [ids Hids].
  { apply Forall_forall. intros c Hc.
    apply set_order_sound, find_combinations_elem, window_split_back in Hc.
    destruct Hc as [run [_ [Hlen [_ ->]]]]. intros ->.
    unfold len in Hlen. simpl in Hlen. lia. }
  { apply Forall_forall. intros [mi entity] Hent. simpl.
    apply enumerate_titles_row in Hent as [_ [row [Hrow <-]]].
    unfold text_titles in Htext. rewrite Forall_forall in Htext.
    destruct (Htext row (index_elem _ _ _ Hrow)) as [title ->].
    by eexists. }
  rewrite Hids. simpl.
  assert (Hok : Forall (fun mi => 0 <= mi < len (df_rows df)) ids).
  { apply Forall_forall. intros mi Hmi.
    destruct (search_combinations_elem _ _ _ Hids mi Hmi)
      as [c [cur [_ [Hcur Hin]]]].
    destruct (custom_fuzzy_search_elem _ _ _ _ _ _ _ _ Hcur mi Hin)
      as [entity [m [Hent _]]].
    apply enumerate_titles_row in Hent as [Hr _]. exact Hr. }
  destruct (build_matches_total (df_rows df) ids Hok []) as [d Hd].
  rewrite Hd. simpl. apply remove_loop_total. unfold unreasonable_num. lia.
Qed.

End CustomDataSearch.

(** The candidate windows of a text are phrases of 2 to [max_size] of its
    words, joined by single spaces; each one splits back into these
    words. *)
Theorem find_combinations_split_back (talk : pystr) (max_size : Z)
    (c : pystr) :
  c ∈ find_combinations (split talk) max_size <->
  exists run,
    contiguous_run (split talk) run /\ 2 <= len run <= max_size
    /\ c = join [space] run /\ split c = run.
Proof.
  rewrite find_combinations_elem. split.
  - apply window_split_back.
  - intros [run [Hrun [Hlen [-> _]]]]. exists run. auto.
Qed.


(** ** The search properties on the sample engine *)

Lemma elements_sound (X : gset pystr) (x : pystr) : x ∈ elements X -> x ∈ X.
Proof. apply elem_of_elements. Qed.

Lemma exact_occurrences_in_range (subsequence sequence : pystr) :
  forall i m,
    m ∈ exact_occurrences i subsequence sequence ->
    i <= m_start m /\ m_start m <= m_end m /\ m_end m <= i + len sequence.
Proof.
  induction sequence as [|c rest IH]; intros i m; cbn [exact_occurrences].
  - intros H. inversion H.
  - intros H. apply elem_of_app in H as [H|H].
    + destruct (decide (subsequence `prefix_of` c :: rest)) as [Hp|];
        [|inversion H].
      apply list_elem_of_singleton in H. subst m. cbn [m_start m_end].
      apply prefix_length in Hp. unfold len. lia.
    + apply IH in H. unfold len in *. cbn [length]. lia.
Qed.

Lemma exact_matcher_in_range (subsequence sequence : pystr) (d i s l : Z)
    (m : Match) :
  m ∈ exact_matcher subsequence sequence d i s l -> in_range sequence m.
Proof.
  intros H. apply exact_occurrences_in_range in H. unfold in_range. lia.
Qed.

Lemma sample_frame_ok (df : data_frame) :
  custom_data sample_engine !! "u"%string = Some df ->
  has_columns df /\ text_titles df.
Proof.
  intros H. assert (Hdf : df = sample_frame).
  { vm_compute in H. injection H as <-. reflexivity. }
  subst df. split; [split; reflexivity|].
  unfold text_titles. simpl. repeat constructor; by eexists.
Qed.

Lemma fuzzy_search_entries_from_catalog_witness :
  (forall (X : gset pystr) (x : pystr), x ∈ elements X -> x ∈ X)
  /\ exists matches g',
       fuzzy_search_on_user_custom_data exact_matcher all_rare simple_mean
         elements sample_engine "u" short_talk (constant_rng 0)
       = Some (matches, g')
       /\ forall k v, (k, v) ∈ matches ->
            exists df mi row title combination m,
              custom_data sample_engine !! "u"%string = Some df
              /\ index (df_rows df) mi = Some row
              /\ row_title row = Text title
              /\ k = row_title row /\ v = row_info row
              /\ is_window (split short_talk)
                   (max_window_size sample_engine) combination
              /\ m ∈ near_matches exact_matcher combination default_config
                       title
              /\ accept_match all_rare simple_mean combination
                   (searched_entity_of title) m = Some true.
Proof.
  split; [exact elements_sound|].
  destruct (fuzzy_search_on_user_custom_data exact_matcher all_rare
              simple_mean elements sample_engine "u" short_talk
              (constant_rng 0))
    as [[matches g']|] eqn:H.
  - exists matches, g'. split; [reflexivity|].
    exact (fuzzy_search_entries_from_catalog exact_matcher all_rare
             simple_mean elements sample_engine elements_sound "u"
             short_talk (constant_rng 0) g' matches H).
  - vm_compute in H. discriminate H.
Defined.

Lemma fuzzy_search_needs_two_words_witness :
  (forall (X : gset pystr) (x : pystr), x ∈ elements X -> x ∈ X)
  /\ (forall df, custom_data sample_engine !! "u"%string = Some df ->
                 has_columns df)
  /\ (len (split (str "fedora")) < 2 \/ max_window_size sample_engine < 2)
  /\ fuzzy_search_on_user_custom_data exact_matcher all_rare simple_mean
       elements sample_engine "u" (str "fedora") (constant_rng 0)
     = Some ([], constant_rng 0).
Proof.
  assert (Hcols : forall df,
            custom_data sample_engine !! "u"%string = Some df ->
            has_columns df)
    by (intros df Hdf; apply (sample_frame_ok df Hdf)).
  assert (H : len (split (str "fedora")) < 2
              \/ max_window_size sample_engine < 2)
    by (left; vm_compute; reflexivity).
  split; [exact elements_sound|]. split; [exact Hcols|]. split; [exact H|].
  exact (fuzzy_search_needs_two_words exact_matcher all_rare simple_mean
           elements sample_engine elements_sound "u" (str "fedora")
           (constant_rng 0) Hcols H).
Defined.

Lemma fuzzy_search_never_raises_witness :
  (forall (X : gset pystr) (x : pystr), x ∈ elements X -> x ∈ X)
  /\ (forall subsequence sequence d i s l m,
         m ∈ exact_matcher subsequence sequence d i s l ->
         in_range sequence m)
  /\ (forall df, custom_data sample_engine !! "u"%string = Some df ->
                 has_columns df /\ text_titles df)
  /\ is_Some (fuzzy_search_on_user_custom_data exact_matcher all_rare
                simple_mean elements sample_engine "u" sample_talk
                (constant_rng 0)).
Proof.
  split; [exact elements_sound|]. split; [exact exact_matcher_in_range|].
  split; [exact sample_frame_ok|].
  exact (fuzzy_search_never_raises exact_matcher all_rare simple_mean
           elements sample_engine elements_sound exact_matcher_in_range "u"
           sample_talk (constant_rng 0) sample_frame_ok).
Defined.

(** A title that is not a string raises, once a candidate passes the
    checks made before the titles are searched; a frame with no
    [description] column raises whatever the talk. *)
Example numeric_title_raises :
  fuzzy_search_on_user_custom_data exact_matcher all_rare simple_mean
    elements numeric_title_engine "u" (str "fedora tips") (constant_rng 0)
  = None
  /\ fuzzy_search_on_user_custom_data exact_matcher all_rare simple_mean
       elements numeric_title_engine "u" (str "fedora") (constant_rng 0)
     = Some ([], constant_rng 0).
Proof. vm_compute. split; reflexivity. Qed.

Example missing_description_raises :
  fuzzy_search_on_user_custom_data exact_matcher all_rare simple_mean
    elements no_description_engine "u" (str "fedora") (constant_rng 0)
  = None.
Proof. vm_compute. reflexivity. Qed.

(** ** Low-frequency words: the thresholds *)

Lemma Qgtb_google (i : Z) :
  Qgtb (inject_Z i) low_freq_constant_google = (30734 <=? i).
Proof.
  unfold Qgtb, Qle_bool, low_freq_constant_google, low_freq_threshold_google,
    google_lines. simpl.
  change (Z.pos (10000 * 1)) with 10000.
  change (922 * 333334 * 1) with 307333948.
  destruct (Z.leb_spec (i * 10000) 307333948);
    destruct (Z.leb_spec 30734 i); simpl; try reflexivity; lia.
Qed.

Lemma Qgtb_norvig (i : Z) :
  Qgtb (inject_Z i) low_freq_line_constant_norvig = (27031 <=? i).
Proof.
  unfold Qgtb, Qle_bool, low_freq_line_constant_norvig,
    low_freq_threshold_norvig, norvig_lines. simpl.
  change (Z.pos (1000 * 1)) with 1000.
  change (901 * 30000 * 1) with 27030000.
  destruct (Z.leb_spec (i * 1000) 27030000);
    destruct (Z.leb_spec 27031 i); simpl; try reflexivity; lia.
Qed.

Lemma index_0_head {A : Type} (l : list A) : index l 0 = head l.
Proof. destruct l; reflexivity. Qed.

Section WordFrequencyThresholds.

Variable idx_google idx_norvig : gmap pystr (list Z).

Hypothesis google_groups :
  map_Forall (fun _ rows => rows <> []) idx_google.
Hypothesis norvig_groups :
  map_Forall (fun _ rows => rows <> []) idx_norvig.

Lemma is_low_freq_word_rows (word : pystr) :
  is_low_freq_word idx_google idx_norvig word
  = Some (is_rare_row (first_row idx_google word)
            (first_row idx_norvig word)).
Proof.
  unfold is_low_freq_word, first_row.
  destruct (idx_google !! word) as [rows|] eqn:Hg; [|reflexivity].
  rewrite index_0_head. simpl.
  destruct rows as [|i rows]; [by apply google_groups in Hg|]. simpl.
  rewrite Qgtb_google.
  destruct (idx_norvig !! word) as [rows'|] eqn:Hn; simpl.
  - rewrite index_0_head.
    destruct rows' as [|j rows']; [by apply norvig_groups in Hn|]. simpl.
    rewrite Qgtb_norvig. destruct (30734 <=? i); reflexivity.
  - destruct (30734 <=? i); reflexivity.
Qed.

(** [find_low_freq_words] returns the lower-cased words, in their order and
    with their repetitions, that are not in the large list, or are there
    from row 30734 on, or are in the small list from row 27031 on. *)
Theorem find_low_freq_words_thresholds (words : list pystr) :
  find_low_freq_words idx_google idx_norvig words
  = Some (List.filter
            (fun word => is_rare_row (first_row idx_google word)
                           (first_row idx_norvig word))
            (map lower words)).
Proof.
  induction words as [|w words IH]; [reflexivity|].
  cbn [find_low_freq_words map List.filter].
  rewrite is_low_freq_word_rows, IH. simpl.
  destruct (is_rare_row _ _); reflexivity.
Qed.

End WordFrequencyThresholds.

Lemma find_low_freq_words_thresholds_witness :
  map_Forall (fun _ (rows : list Z) => rows <> []) sample_google
  /\ map_Forall (fun _ (rows : list Z) => rows <> []) sample_norvig
  /\ find_low_freq_words sample_google sample_norvig
       [str "The"; str "Bonsai"; str "of"; str "Spectroscopy"]
     = Some (List.filter
               (fun word => is_rare_row (first_row sample_google word)
                              (first_row sample_norvig word))
               (map lower
                  [str "The"; str "Bonsai"; str "of"; str "Spectroscopy"])).
Proof.
  split; [exact sample_google_groups|].
  split; [exact sample_norvig_groups|].
  exact (find_low_freq_words_thresholds sample_google sample_norvig
           sample_google_groups sample_norvig_groups
           [str "The"; str "Bonsai"; str "of"; str "Spectroscopy"]).
Defined.

Example find_low_freq_words_bonsai :
  find_low_freq_words sample_google sample_norvig
    [str "The"; str "Bonsai"; str "of"; str "Spectroscopy"]
  = Some [str "bonsai"; str "spectroscopy"].
Proof. vm_compute. reflexivity. Qed.


(** ** The string helpers of the search engine *)

Lemma isspace_lower_char (c : ascii) : isspace (lower_char c) = isspace c.
Proof. destruct c as [[] [] [] [] [] [] [] []]; vm_compute; reflexivity. Qed.

Lemma lower_char_idempotent (c : ascii) :
  lower_char (lower_char c) = lower_char c.
Proof. destruct c as [[] [] [] [] [] [] [] []]; vm_compute; reflexivity. Qed.

Lemma lower_idempotent (s : pystr) : lower (lower s) = lower s.
Proof.
  unfold lower. rewrite map_map. apply map_ext. intros c.
  apply lower_char_idempotent.
Qed.

Lemma lower_is_word (w : pystr) : is_word w -> is_word (lower w).
Proof.
  unfold is_word, lower. intros [Hne Hall]. split.
  - destruct w; [done|discriminate].
  - apply Forall_fmap. eapply Forall_impl; [exact Hall|].
    intros c Hc. simpl. rewrite isspace_lower_char. exact Hc.
Qed.

(** The words of the result of [remove_banned_words]. *)
Lemma remove_banned_words_split (s : pystr) (banned : gset pystr) :
  split (remove_banned_words s banned)
  = map lower (List.filter (fun word => bool_decide (lower word ∉ banned))
                 (split s)).
Proof.
  unfold remove_banned_words. apply split_join.
  apply Forall_fmap. apply Forall_forall. intros w Hw. simpl.
  apply lower_is_word.
  apply list_elem_of_In, filter_In in Hw as [Hw _].
  apply list_elem_of_In in Hw.
  pose proof (split_words s) as Hall.
  rewrite Forall_forall in Hall. apply Hall, Hw.
Qed.

(** No word of the result of [remove_banned_words] is a banned word, every
    word of it is in lower case, and removing the banned words once more
    changes nothing. *)
Theorem remove_banned_words_clean (s : pystr) (banned : gset pystr) :
  Forall (fun word => (word ∉ banned) /\ lower word = word)
    (split (remove_banned_words s banned))
  /\ remove_banned_words (remove_banned_words s banned) banned
     = remove_banned_words s banned.
Proof.
  assert (Hclean : Forall (fun word => (word ∉ banned) /\ lower word = word)
                     (split (remove_banned_words s banned))).
  { rewrite remove_banned_words_split. apply Forall_fmap, Forall_forall.
    intros w Hw. simpl.
    apply list_elem_of_In, filter_In in Hw as [_ Hw].
    apply bool_decide_eq_true in Hw. split; [exact Hw|].
    apply lower_idempotent. }
  split; [exact Hclean|].
  rewrite remove_banned_words_split in Hclean.
  unfold remove_banned_words at 1. rewrite remove_banned_words_split.
  unfold remove_banned_words. f_equal.
  induction (map lower _) as [|w ws IH]; [reflexivity|].
  apply Forall_cons in Hclean as [[Hw Hlow] Hws].
  cbn [List.filter]. rewrite Hlow.
  rewrite bool_decide_eq_true_2 by exact Hw.
  cbn [map]. rewrite Hlow. f_equal. apply IH, Hws.
Qed.

Lemma first_last_concat_words (s : pystr) :
  first_last_concat s
  = Some match split s with
         | [] => []
         | [w] => w
         | w :: rest => w ++ [space] ++ List.last rest []
         end.
Proof.
  unfold first_last_concat.
  destruct (split s) as [|w [|w' rest]] eqn:Hs; [reflexivity..|].
  assert (Hlen : (len (w :: w' :: rest) >? 1) = true).
  { apply Z.gtb_lt. unfold len. simpl. lia. }
  rewrite Hlen. change (index (w :: w' :: rest) 0) with (Some w).
  assert (Hlast : index (w :: w' :: rest) (-1)
                  = Some (List.last (w' :: rest) [])).
  { unfold index, len. cbn [Z.ltb Z.compare].
    destruct (Z.ltb_spec (Z.of_nat (length (w :: w' :: rest)) + -1) 0) as [H|H];
      [simpl in H; lia|].
    replace (Z.to_nat (Z.of_nat (length (w :: w' :: rest)) + -1))
      with (S (length rest)) by (simpl; lia).
    cbn [lookup list_lookup]. 
    clear. revert w'. induction rest as [|x rest IH]; intros w';
      [reflexivity|]. 
    change (List.last (w' :: x :: rest) []) with (List.last (x :: rest) []).
    rewrite <- IH. reflexivity. }
  rewrite Hlast. reflexivity.
Qed.

Lemma last_is_word (l : list pystr) (w : pystr) :
  Forall is_word (w :: l) -> is_word (List.last (w :: l) []).
Proof.
  revert w. induction l as [|x l IH]; intros w H.
  - apply Forall_inv in H. exact H.
  - change (List.last (w :: x :: l) []) with (List.last (x :: l) []).
    apply IH. apply Forall_cons in H as [_ H]. exact H.
Qed.

(** [first_last_concat] raises no exception; its result has at most two
    words, and is mapped to itself. *)
Theorem first_last_concat_idempotent (s : pystr) :
  exists r,
    first_last_concat s = Some r
    /\ first_last_concat r = Some r
    /\ len (split r) <= 2.
Proof.
  rewrite first_last_concat_words. eexists. split; [reflexivity|].
  rewrite first_last_concat_words.
  pose proof (split_words s) as Hall.
  destruct (split s) as [|w [|w' rest]] eqn:Hs.
  - split; [reflexivity|]. vm_compute. discriminate.
  - apply Forall_inv in Hall.
    assert (Hsw : split w = [w]).
    { apply (split_join [w]). constructor; [exact Hall|constructor]. }
    rewrite Hsw. split; [reflexivity|]. vm_compute. discriminate.
  - assert (Hw : is_word w) by (apply Forall_inv in Hall; exact Hall).
    assert (Hl : is_word (List.last (w' :: rest) [])).
    { apply last_is_word. apply Forall_cons in Hall as [_ Hall]. exact Hall. }
    assert (Hsr : split (w ++ [space] ++ List.last (w' :: rest) [])
                  = [w; List.last (w' :: rest) []]).
    { apply (split_join [w; List.last (w' :: rest) []]).
      constructor; [exact Hw|]. constructor; [exact Hl|constructor]. }
    rewrite Hsr. split; [reflexivity|]. vm_compute. discriminate.
Qed.


(** ** The defined terms and the device with the empty id *)

Lemma collect_without_consuming (user_id device : string)
    (already : list string) (results : list cse_result)
    (db : results_store) :
  snd (collect_new_results user_id device false already results db) = db.
Proof.
  unfold collect_new_results.
  match goal with |- context [fold_left ?f _ _] => set (F := f) end.
  generalize (@nil cse_result).
  induction results as [|res results IH]; intros acc; [reflexivity|].
  cbn [fold_left].
  assert (HF : snd (F (acc, db) res) = db).
  { unfold F. destruct (result_uuid res) as [id|]; [|reflexivity].
    destruct (decide (id ∈ already)); reflexivity. }
  destruct (F (acc, db) res) as [acc' db']. simpl in HF. subst db'.
  apply IH.
Qed.

Lemma stored_results_add_ui_device (user_id device : string)
    (db : results_store) :
  stored_results user_id
    (add_ui_device_to_user_if_not_exists user_id device db)
  = stored_results user_id db.
Proof.
  unfold stored_results, add_ui_device_to_user_if_not_exists,
    create_user_results_if_not_exists.
  destruct (db !! user_id) as [u|] eqn:Hu.
  - rewrite Hu. destruct (has_device device (ui_list u)); simpl.
    + rewrite Hu. reflexivity.
    + rewrite lookup_insert_eq. reflexivity.
  - rewrite lookup_insert_eq. simpl. rewrite lookup_insert_eq. reflexivity.
Qed.

Lemma get_cse_results_read_only (user_id device : string)
    (db : results_store) :
  get_cse_results_for_user_device user_id device false true db
  = (unconsumed_results [] (stored_results user_id db),
     add_ui_device_to_user_if_not_exists user_id device db).
Proof.
  apply injective_projections; cbn [fst snd];
    unfold get_cse_results_for_user_device.
  - rewrite collect_new_results_returns.
    rewrite <- (stored_results_add_ui_device user_id device db).
    reflexivity.
  - apply collect_without_consuming.
Qed.

(** The defined terms are the stored results that have a uuid and are less
    than [n] seconds old, whatever any device has consumed. The call marks
    nothing as consumed, and it registers a device with the empty id for
    the user. *)
Theorem get_defined_terms_ignores_consumption (current_time n : Z)
    (user_id : string) (db : results_store) :
  get_defined_terms_from_last_nseconds_for_user_device current_time user_id
    n db
  = (recent_results current_time n
       (unconsumed_results [] (stored_results user_id db)),
     add_ui_device_to_user_if_not_exists user_id "" db).
Proof.
  unfold get_defined_terms_from_last_nseconds_for_user_device.
  rewrite get_cse_results_read_only. reflexivity.
Qed.

Lemma add_ui_device_fresh (user_id device : string) (db : results_store) :
  no_device user_id db ->
  first_device_state user_id
    (add_ui_device_to_user_if_not_exists user_id device db)
    (stored_results user_id db)
    {| device_id := device; consumed_cse_result_ids := [];
       consumed_agent_insights_result_ids := [] |}.
Proof.
  unfold no_device, stored_results, add_ui_device_to_user_if_not_exists,
    create_user_results_if_not_exists.
  destruct (db !! user_id) as [u|] eqn:Hu.
  - intros Hnil. rewrite Hu, Hnil. simpl.
    eexists _, []. rewrite lookup_insert_eq. split; [reflexivity|].
    split; reflexivity.
  - intros _. rewrite lookup_insert_eq. simpl.
    eexists _, []. rewrite lookup_insert_eq. split; [reflexivity|].
    split; reflexivity.
Qed.

(** When the defined terms are asked for a user that has no device yet, the
    device with the empty id becomes the first of the user. From then on a
    device with another id is given every stored result that has a uuid,
    on each call: what it consumes is never read. *)
Theorem defined_terms_first_disables_consumption (current_time n : Z)
    (user_id device : string) (db : results_store) :
  no_device user_id db ->
  device <> ""%string ->
  let '(_, db0) :=
    get_defined_terms_from_last_nseconds_for_user_device current_time
      user_id n db in
  let '(first, db1) :=
    get_cse_results_for_user_device user_id device true false db0 in
  let '(second, db2) :=
    get_cse_results_for_user_device user_id device true false db1 in
  first = unconsumed_results [] (stored_results user_id db)
  /\ second = first.
Proof.
  intros Hfresh Hne.
  unfold get_defined_terms_from_last_nseconds_for_user_device.
  rewrite get_cse_results_read_only.
  pose proof (add_ui_device_fresh user_id "" db Hfresh) as Hst.
  set (ui := {| device_id := ""%string; consumed_cse_result_ids := [];
                consumed_agent_insights_result_ids := [] |}) in Hst.
  assert (Hui : device_id ui <> device)
    by (intros H; apply Hne; rewrite <- H; reflexivity).
  set (db0 := add_ui_device_to_user_if_not_exists user_id "" db) in *.
  destruct (get_cse_results_later user_id device true db0 _ ui Hui Hst)
    as [Hfirst Hst1].
  destruct (get_cse_results_for_user_device user_id device true false db0)
    as [first db1].
  cbn [fst snd] in Hfirst, Hst1.
  destruct (get_cse_results_later user_id device true db1 _ ui Hui Hst1)
    as [Hsecond _].
  destruct (get_cse_results_for_user_device user_id device true false db1)
    as [second db2].
  cbn [fst] in Hsecond. split; [exact Hfirst|congruence].
Qed.

Lemma defined_terms_first_disables_consumption_witness :
  no_device "u" (add_cse_results_for_user "u"
                   [sample_result "r1"; sample_result "r2"]
                   (create_user_results_if_not_exists "u" ∅))
  /\ "phone"%string <> ""%string
  /\ let db := add_cse_results_for_user "u"
                 [sample_result "r1"; sample_result "r2"]
                 (create_user_results_if_not_exists "u" ∅) in
     let '(_, db0) :=
       get_defined_terms_from_last_nseconds_for_user_device 100 "u" 300 db in
     let '(first, db1) :=
       get_cse_results_for_user_device "u" "phone" true false db0 in
     let '(second, db2) :=
       get_cse_results_for_user_device "u" "phone" true false db1 in
     first = unconsumed_results [] (stored_results "u" db)
     /\ second = first.
Proof.
  assert (H1 : no_device "u"
                 (add_cse_results_for_user "u"
                    [sample_result "r1"; sample_result "r2"]
                    (create_user_results_if_not_exists "u" ∅)))
    by (vm_compute; reflexivity).
  assert (H2 : "phone"%string <> ""%string) by discriminate.
  split; [exact H1|]. split; [exact H2|].
  exact (defined_terms_first_disables_consumption 100 300 "u" "phone" _
           H1 H2).
Defined.

Example defined_terms_then_phone_repeats :
  let db := add_cse_results_for_user "u"
              [sample_result "r1"; sample_result "r2"]
              (create_user_results_if_not_exists "u" ∅) in
  let '(_, db0) :=
    get_defined_terms_from_last_nseconds_for_user_device 100 "u" 300 db in
  let '(first, db1) :=
    get_cse_results_for_user_device "u" "phone" true false db0 in
  let '(second, db2) :=
    get_cse_results_for_user_device "u" "phone" true false db1 in
  first = [sample_result "r1"; sample_result "r2"]
  /\ second = [sample_result "r1"; sample_result "r2"].
Proof. vm_compute. split; reflexivity. Qed.


(** ** The cache of summaries *)

Lemma find_app_Some {A : Type} (p : A -> bool) (l l' : list A) (x : A) :
  List.find p l = Some x -> List.find p (l ++ l') = Some x.
Proof.
  induction l as [|y l IH]; simpl; [discriminate|].
  destruct (p y); [auto|exact IH].
Qed.

Lemma find_app_None {A : Type} (p : A -> bool) (l l' : list A) :
  List.find p l = None -> List.find p (l ++ l') = List.find p l'.
Proof.
  induction l as [|y l IH]; simpl; [reflexivity|].
  destruct (p y); [discriminate|exact IH].
Qed.

Section CacheProperties.

Variable sha256 : pystr -> string.

(** A summary that the cache returns for a description is never replaced:
    after any later save, also one for the same description, the cache
    returns the same summary. *)
Theorem cached_summary_never_replaced (long_description other new : pystr)
    (cache : cache_collection) (found : pystr) :
  find_cached_summary sha256 long_description cache = Some found ->
  find_cached_summary sha256 long_description
    (save_cached_summary sha256 other new cache) = Some found.
Proof.
  unfold find_cached_summary, save_cached_summary. intros H.
  destruct (List.find _ cache) as [item|] eqn:Hitem; [|discriminate].
  rewrite (find_app_Some _ _ _ _ Hitem). exact H.
Qed.

(** A summary saved for a description that has no document in the cache is
    the one found for it afterwards. *)
Theorem cached_summary_found_after_save (long_description new : pystr)
    (cache : cache_collection) :
  Forall (fun item => description item <> sha256 long_description) cache ->
  find_cached_summary sha256 long_description
    (save_cached_summary sha256 long_description new cache) = Some new.
Proof.
  unfold find_cached_summary, save_cached_summary. intros Hnone.
  rewrite find_app_None.
  - simpl. rewrite bool_decide_eq_true_2 by reflexivity. reflexivity.
  - induction Hnone as [|item cache Hitem _ IH]; [reflexivity|]. simpl.
    rewrite bool_decide_eq_false_2 by exact Hitem. exact IH.
Qed.

End CacheProperties.

Lemma cached_summary_never_replaced_witness :
  find_cached_summary string_of_list_ascii (str "long text")
    (save_cached_summary string_of_list_ascii (str "long text")
       (str "first") []) = Some (str "first")
  /\ find_cached_summary string_of_list_ascii (str "long text")
       (save_cached_summary string_of_list_ascii (str "long text")
          (str "second")
          (save_cached_summary string_of_list_ascii (str "long text")
             (str "first") [])) = Some (str "first").
Proof.
  assert (H : find_cached_summary string_of_list_ascii (str "long text")
                (save_cached_summary string_of_list_ascii (str "long text")
                   (str "first") []) = Some (str "first"))
    by (vm_compute; reflexivity).
  split; [exact H|].
  exact (cached_summary_never_replaced string_of_list_ascii
           (str "long text") (str "long text") (str "second") _
           (str "first") H).
Defined.

Lemma cached_summary_found_after_save_witness :
  Forall (fun item => description item
                      <> string_of_list_ascii (str "long text"))
    (save_cached_summary string_of_list_ascii (str "other") (str "first") [])
  /\ find_cached_summary string_of_list_ascii (str "long text")
       (save_cached_summary string_of_list_ascii (str "long text")
          (str "second")
          (save_cached_summary string_of_list_ascii (str "other")
             (str "first") [])) = Some (str "second").
Proof.
  assert (H : Forall (fun item => description item
                                  <> string_of_list_ascii (str "long text"))
                (save_cached_summary string_of_list_ascii (str "other")
                   (str "first") []))
    by (repeat constructor; discriminate).
  split; [exact H|].
  exact (cached_summary_found_after_save string_of_list_ascii
           (str "long text") (str "second") _ H).
Defined.


(** ** The words of a normalised title *)

Lemma match_pascal_nonempty (s word rest : pystr) :
  match_pascal s = Some (word, rest) -> word <> [].
Proof.
  unfold match_pascal.
  destruct s as [|c s']; [simpl; discriminate|].
  destruct (is_upper_AZ c) eqn:Hc.
  - destruct (span is_lower_az s') as [[|r run] rest'] eqn:Hsp.
    + cbn [mbind option_bind]. simpl. rewrite Hc.
      destruct (span is_upper_AZ s') as [run rest''].
      destruct (at_end rest'').
      * intros [= <- <-]. discriminate.
      * destruct (rev (c :: run)) as [|lc [|c2 shorter]]; try discriminate.
        intros [= <- <-]. simpl. intros H.
        apply app_eq_nil in H as [_ H]. discriminate.
    + simpl. intros [= <- <-]. discriminate.
  - destruct (span is_lower_az (c :: s')) as [[|r run] rest'] eqn:Hsp.
    + simpl. rewrite Hc. discriminate.
    + intros [= <- <-]. discriminate.
Qed.

Lemma findall_pascal_nonempty (fuel : nat) :
  forall s, Forall (fun word => word <> []) (findall_pascal fuel s).
Proof.
  induction fuel as [|fuel IH]; intros s; simpl; [constructor|].
  destruct s as [|c s']; [constructor|].
  destruct (match_pascal (c :: s')) as [[word rest]|] eqn:Hm; [|apply IH].
  constructor; [|apply IH]. apply (match_pascal_nonempty _ _ _ Hm).
Qed.

Lemma lower_join (ws : list pystr) :
  lower (join [space] ws) = join [space] (map lower ws).
Proof.
  induction ws as [|w ws IH]; [reflexivity|].
  destruct ws as [|w' ws]; [reflexivity|].
  change (join [space] (w :: w' :: ws))
    with (w ++ space :: join [space] (w' :: ws)).
  unfold lower at 1. rewrite map_app. cbn [map].
  change (map lower_char (join [space] (w' :: ws)))
    with (lower (join [space] (w' :: ws))).
  rewrite IH. reflexivity.
Qed.

Lemma remove_char_small (s : pystr) :
  Forall small_or_space s -> remove_char ":"%char s = s.
Proof.
  unfold remove_char, pystr. induction 1 as [|c s Hc Hs IH]; [reflexivity|].
  rewrite filter_cons_True.
  - f_equal. exact IH.
  - intros ->. destruct Hc as [Hc|Hc]; discriminate.
Qed.

Lemma lower_letter_small (c : ascii) :
  is_letter c = true -> is_lower_az (lower_char c) = true.
Proof.
  destruct c as [[] [] [] [] [] [] [] []]; vm_compute;
    intros H; try discriminate; reflexivity.
Qed.

Lemma small_not_space (c : ascii) :
  is_lower_az c = true -> isspace c = false.
Proof.
  destruct c as [[] [] [] [] [] [] [] []]; vm_compute;
    intros H; try discriminate; reflexivity.
Qed.

(** The normalised title is made of the words that the pattern finds in
    the title, in lower case and joined by single spaces. Each word is a
    run of letters a to z that is not empty, so every other character of
    the title is dropped, and the normalised title splits back into these
    words. *)
Theorem searched_entity_words (entity : pystr) :
  let words := map lower (findall_pascal (length entity) entity) in
  searched_entity_of entity = join [space] words
  /\ split (searched_entity_of entity) = words
  /\ Forall (fun word => word <> []
                         /\ Forall (fun c => is_lower_az c = true) word)
       words.
Proof.
  cbn zeta.
  assert (Hwords : Forall (fun word =>
                             word <> []
                             /\ Forall (fun c => is_lower_az c = true) word)
                     (map lower (findall_pascal (length entity) entity))).
  { apply Forall_fmap, Forall_forall. intros w Hw. simpl.
    pose proof (findall_pascal_letters (length entity) entity) as Hl.
    pose proof (findall_pascal_nonempty (length entity) entity) as Hn.
    rewrite Forall_forall in Hl, Hn. split.
    - specialize (Hn w Hw). destruct w; [done|discriminate].
    - apply Forall_fmap. eapply Forall_impl; [exact (Hl w Hw)|].
      intros c Hc. apply lower_letter_small, Hc. }
  assert (Heq : searched_entity_of entity
                = join [space]
                    (map lower (findall_pascal (length entity) entity))).
  { pose proof (searched_entity_small entity) as Hsmall.
    unfold searched_entity_of in *. unfold pascal_to_words in *.
    rewrite lower_join in *.
    assert (Hs : Forall small_or_space
                   (join [space]
                      (map lower (findall_pascal (length entity) entity)))).
    { apply join_Forall.
      - constructor; [right; reflexivity|constructor].
      - eapply Forall_impl; [exact Hwords|]. intros w [_ Hw].
        eapply Forall_impl; [exact Hw|]. intros c Hc. left. exact Hc. }
    apply remove_char_small, Hs. }
  split; [exact Heq|]. split; [|exact Hwords].
  rewrite Heq. apply split_join.
  eapply Forall_impl; [exact Hwords|]. intros w [Hne Hw]. split; [exact Hne|].
  eapply Forall_impl; [exact Hw|]. intros c Hc. apply small_not_space, Hc.
Qed.

Example searched_entity_drops_characters :
  searched_entity_of (str "GPT4: TheNew LLM-v2") = str "gp the new ll v".
Proof. vm_compute. reflexivity. Qed.


(** ** The fuzzy search: the length and the frequency filters *)

Section FuzzySearchFilters.

Variable find_near_matches : pystr -> pystr -> Z -> Z -> Z -> Z -> list Match.
Variable get_word_freq_index : pystr -> float.
Variable np_mean : list float -> float.
Variable banned : gset pystr.

Lemma accept_match_filters (to_search searched_entity : pystr) (m : Match) :
  accept_match get_word_freq_index np_mean to_search searched_entity m
  = Some true ->
  exists whole_match,
    get_whole_match m searched_entity = Some whole_match
    /\ Z.abs (len whole_match - len to_search) <= 1
    /\ (m_dist m <= 1
        \/ float_lt (get_string_freq get_word_freq_index np_mean
                       (remove_char ":"%char whole_match)) float_0_06
           = false).
Proof.
  unfold accept_match.
  destruct (get_whole_match m searched_entity) as [w|]; [simpl|discriminate].
  intros H. exists w. split; [reflexivity|].
  destruct (Z.geb_spec (Z.abs (len w - len to_search)) 2) as [|Hlen];
    [discriminate|].
  split; [lia|].
  destruct (Z.gtb_spec (m_dist m) 1) as [Hd|Hd]; [|left; exact Hd].
  destruct (float_lt _ _); [discriminate|]. right. reflexivity.
Qed.

(** Every id returned by [custom_fuzzy_search] comes from a raw match whose
    whole match differs in length from the candidate by at most one
    character, and that has a distance of at most 1 or a whole match for
    which the comparison of the mean frequency index, as [numpy] computes
    it, with the float 0.06 is false. *)
Theorem custom_fuzzy_search_filters (to_search : pystr)
    (entities : list (Z * cell)) (config : search_config) (ids : list Z) :
  custom_fuzzy_search find_near_matches get_word_freq_index np_mean banned
    to_search entities config = Some ids ->
  forall idx, idx ∈ ids ->
    exists entity m whole_match,
      (idx, Text entity) ∈ entities
      /\ m ∈ near_matches find_near_matches to_search config entity
      /\ get_whole_match m (searched_entity_of entity) = Some whole_match
      /\ Z.abs (len whole_match - len to_search) <= 1
      /\ (m_dist m <= 1
          \/ float_lt (get_string_freq get_word_freq_index np_mean
                         (remove_char ":"%char whole_match)) float_0_06
             = false).
Proof.
  intros Hids idx Hidx.
  destruct (custom_fuzzy_search_elem _ _ _ _ _ _ _ _ Hids idx Hidx)
    as [entity [m [Hent [Hm Hacc]]]].
  destruct (accept_match_filters _ _ _ Hacc) as [w [Hw [Hlen Hfreq]]].
  exists entity, m, w. repeat split; assumption.
Qed.

End FuzzySearchFilters.

Lemma custom_fuzzy_search_filters_witness :
  exists ids,
    custom_fuzzy_search exact_matcher all_rare simple_mean
      sample_banned_words (str "fedora tips")
      (enumerate (map row_title sample_rows)) default_config = Some ids
    /\ forall idx, idx ∈ ids ->
         exists entity m whole_match,
           (idx, Text entity) ∈ enumerate (map row_title sample_rows)
           /\ m ∈ near_matches exact_matcher (str "fedora tips")
                    default_config entity
           /\ get_whole_match m (searched_entity_of entity)
              = Some whole_match
           /\ Z.abs (len whole_match - len (str "fedora tips")) <= 1
           /\ (m_dist m <= 1
               \/ float_lt (get_string_freq all_rare simple_mean
                              (remove_char ":"%char whole_match)) float_0_06
                  = false).
Proof.
  destruct (custom_fuzzy_search exact_matcher all_rare simple_mean
              sample_banned_words (str "fedora tips")
              (enumerate (map row_title sample_rows)) default_config)
    as [ids|] eqn:H.
  - exists ids. split; [reflexivity|].
    exact (custom_fuzzy_search_filters exact_matcher all_rare simple_mean
             sample_banned_words (str "fedora tips") _ default_config ids H).
  - vm_compute in H. discriminate H.
Defined.

Example custom_fuzzy_search_fedora_tips :
  custom_fuzzy_search exact_matcher all_rare simple_mean sample_banned_words
    (str "fedora tips") (enumerate (map row_title sample_rows))
    default_config = Some [0].
Proof. vm_compute. reflexivity. Qed.
